(** * AWS service report generator: a shallow embedding and its properties

    The development follows the layout of the repository:

    - [JS]               the fragment of the JavaScript runtime the code relies on
                         (truthiness and [||], numbers, [toFixed], [parseFloat],
                         [Array.prototype.sort], dates, property reads on a
                         plain object);
    - [Region], [Service] the records the renderer reads, with every field
                         spelling the code probes;
    - [utils]            durations, file sizes, day counts and the Eastern
                         time stamp;
    - [excelGenerator]   the Summary, Regions, Services and Service Coverage
                         sheets;
    - [Run]              the effects of a run: a trace of what was done to S3
                         and to the notification topic, and thrown errors;
    - [archiveManager]   upload with retries, the retention sweep, the mirror copy;
    - [s3Operations]     reading the source and the names document;
    - [index]            the Lambda handler: validation, normalization and the
                         orchestration of the stages;
    - [Host], [Sample]   a host to evaluate the model on, and sample data.

    Definitions come first, the vocabulary of the statements included; the
    statements follow in the second half of the file. *)

From Stdlib Require Import ZArith QArith Qround Qabs Qpower String Ascii List Lia Lqa.
From Stdlib Require Import Sorting.Sorted Sorting.Permutation.
From stdpp Require Import gmap strings list pretty sorting.

Local Open Scope string_scope.

(* ===================================================================== *)
(** * The JavaScript fragment                                             *)
(* ===================================================================== *)

Module JS.

(** A property read yields [None] when the property is [undefined]. The
    only falsy string is the empty one. *)
Definition truthy (v : option string) : bool :=
  match v with
  | Some s => negb (String.eqb s "")
  | None => false
  end.

(** [a || b] on two property reads. *)
Definition or (a b : option string) : option string :=
  if truthy a then a else b.

(** [a || 'literal'], the end of every probing chain in the code. *)
Definition or_lit (a : option string) (d : string) : string :=
  match a with
  | Some s => if String.eqb s "" then d else s
  | None => d
  end.

(** ** Numbers

    Counters are JavaScript numbers holding integers. Adding one is exact
    below 2^53 and is absorbed at 2^53 (2^53 + 1 rounds back to 2^53). *)
Definition MAX_EXACT : N := 2 ^ 53.

Definition incr (v : N) : N :=
  if (v <? MAX_EXACT)%N then (v + 1)%N else v.

(** Other numbers are binary64 values, kept as the rationals they
    denote. [binary64] rounds a rational to the nearest value with a
    53-bit significand, ties to even. Subnormal numbers and overflow are
    left out: the quotients and products of this program stay between
    2^-53 and 2^60. *)
Definition log2_floor (x : Q) : Z :=
  let e := (Z.log2 (Qnum x) - Z.log2 (Z.pos (Qden x)))%Z in
  if Qle_bool (2 ^ e) x then e else (e - 1)%Z.

Definition round_half_even (y : Q) : Z :=
  let k := Qfloor y in
  match (y - inject_Z k ?= 1 # 2)%Q with
  | Lt => k
  | Gt => (k + 1)%Z
  | Eq => if Z.even k then k else (k + 1)%Z
  end.

Definition binary64_pos (x : Q) : Q :=
  let e := log2_floor x in
  (inject_Z (round_half_even (x * 2 ^ (52 - e))) * 2 ^ (e - 52))%Q.

Definition binary64 (x : Q) : Q :=
  match Qnum x with
  | Z0 => 0%Q
  | Zpos _ => binary64_pos x
  | Zneg _ => (- binary64_pos (- x))%Q
  end.

(** [a / b] and [a * b] on numbers. *)
Definition div (a b : Q) : Q := binary64 (a / b)%Q.
Definition mul (a b : Q) : Q := binary64 (a * b)%Q.

(** [Number.prototype.toFixed(1)] for [|x| < 10^21]: the integer [n]
    nearest to [10 * x] (the larger one on a tie), written as its decimal
    digits with a point before the last one. *)
Definition tenths (x : Q) : N := Z.to_N (Qfloor (x * 10 + (1 # 2))%Q).

Definition digit (d : N) : string := String (pretty_N_char d) "".

Definition toFixed1_digits (n : N) : string :=
  pretty (n / 10)%N +:+ "." +:+ digit (n mod 10)%N.

Definition toFixed1 (x : Q) : string :=
  if Qle_bool 0 x then toFixed1_digits (tenths x)
  else "-" +:+ toFixed1_digits (tenths (- x)%Q).

(** A value that is either a string or an integer number, as
    [coveragePercent] is. [to_string] is the conversion a template
    literal and [parseFloat] apply to it. *)
Inductive strnum :=
| Str (s : string)
| Num (z : Z).

Definition to_string (v : strnum) : string :=
  match v with
  | Str s => s
  | Num z => pretty z
  end.

(** [parseFloat]: an optional sign, then the longest prefix of the shape
    digits [. digits]; [None] stands for NaN. Exponents and [Infinity]
    are left out: no string in this program carries them. *)
Definition digit_value (c : ascii) : option N :=
  let n := N_of_ascii c in
  if ((48 <=? n) && (n <=? 57))%N then Some (n - 48)%N else None.

Fixpoint scan_digits (s : string) (acc : N) (k : nat) : N * nat * string :=
  match s with
  | String c rest =>
      match digit_value c with
      | Some d => scan_digits rest (acc * 10 + d)%N (S k)
      | None => (acc, k, s)
      end
  | EmptyString => (acc, k, s)
  end.

Definition parse_unsigned (s : string) : option Q :=
  let '(i, ki, rest) := scan_digits s 0%N 0 in
  match rest with
  | String "."%char rest' =>
      let '(m, kf, _) := scan_digits rest' i 0 in
      if Nat.eqb ki 0 && Nat.eqb kf 0 then None
      else Some (Z.of_N m # Pos.pow 10 (Pos.of_nat kf))%Q
  | _ => if Nat.eqb ki 0 then None else Some (inject_Z (Z.of_N i))
  end.

Definition parseFloat (v : strnum) : option Q :=
  match to_string v with
  | String "-"%char rest => Qopp <$> parse_unsigned rest
  | String "+"%char rest => parse_unsigned rest
  | s => parse_unsigned s
  end.

(** Comparisons against a number that may be NaN: all of them are false
    on NaN. *)
Definition strict_eq (v : option Q) (c : Q) : bool :=
  match v with Some q => Qeq_bool q c | None => false end.
Definition ge (v : option Q) (c : Q) : bool :=
  match v with Some q => Qle_bool c q | None => false end.
Definition gt (v : option Q) (c : Q) : bool :=
  match v with Some q => negb (Qle_bool q c) | None => false end.

(** ** Sorting

    [Array.prototype.sort] is stable. With a consistent comparator every
    stable sort returns the same array, so it is modelled by the simplest
    one: insertion from the right, an element going in front of the first
    one it does not compare greater than. *)
Fixpoint sort_insert {A} (cmp : A → A → Z) (x : A) (l : list A) : list A :=
  match l with
  | [] => [x]
  | y :: l' =>
      if (cmp x y <=? 0)%Z then x :: y :: l' else y :: sort_insert cmp x l'
  end.

Definition sort {A} (cmp : A → A → Z) (l : list A) : list A :=
  foldr (sort_insert cmp) [] l.

(** ** Host-provided text operations

    [String.prototype.toLowerCase] and [String.prototype.localeCompare]
    are supplied by the engine and its collation data. *)
Class Collation := {
  toLowerCase : string → string;
  localeCompare : string → string → Z;
}.

(** What makes [localeCompare] a consistent comparator: swapping the
    arguments flips the sign, and "not greater" is transitive. *)
Class CollationLaws `{Collation} : Prop := {
  localeCompare_antisym a b :
    Z.sgn (localeCompare b a) = (- Z.sgn (localeCompare a b))%Z;
  localeCompare_trans a b c :
    (localeCompare a b <= 0)%Z → (localeCompare b c <= 0)%Z →
    (localeCompare a c <= 0)%Z;
}.

(** ** Dates

    [new Date(text)] never throws: it yields a time value in
    milliseconds since the epoch, or an invalid date ([None]) when the
    text is not recognised. Which texts are recognised beyond the ISO
    format is up to the engine. *)
Class DateParser := Date_parse : string → option Z.

Inductive exn := TypeError (msg : string) | RangeError (msg : string) | Error (msg : string).

Definition result (A : Type) : Type := exn + A.

Definition new_Date `{DateParser} (text : string) : result (option Z) :=
  inr (Date_parse text).

(** [try { body } catch (e) { handler }] for a body that computes a value. *)
Definition try_catch {A} (body : result A) (handler : exn → A) : A :=
  match body with
  | inr a => a
  | inl e => handler e
  end.

(** The calendar date of a time value in UTC (days since the epoch to
    year, month, day). *)
Definition civil_from_days (z : Z) : Z * Z * Z :=
  let z := (z + 719468)%Z in
  let era := (z / 146097)%Z in
  let doe := (z - era * 146097)%Z in
  let yoe := ((doe - doe / 1460 + doe / 36524 - doe / 146096) / 365)%Z in
  let y := (yoe + era * 400)%Z in
  let doy := (doe - (365 * yoe + yoe / 4 - yoe / 100))%Z in
  let mp := ((5 * doy + 2) / 153)%Z in
  let d := (doy - (153 * mp + 2) / 5 + 1)%Z in
  let m := (if (mp <? 10)%Z then mp + 3 else mp - 9)%Z in
  ((if (m <=? 2)%Z then y + 1 else y)%Z, m, d).

Fixpoint zeros (k : nat) : string :=
  match k with
  | 0 => ""
  | S k' => "0" +:+ zeros k'
  end.

(** Zeros in front of [s] until it is [width] characters long. *)
Definition pad_left (width : nat) (s : string) : string :=
  zeros (width - String.length s) +:+ s.

Definition pad (width : nat) (z : Z) : string :=
  pad_left width (pretty (Z.abs z)).

(** [date.toISOString().split('T')[0]] of a valid date: four digits for
    the years 0 to 9999, a sign and six digits outside. *)
Definition toISOString_date (tv : Z) : string :=
  let '(y, m, d) := civil_from_days (tv / 86400000)%Z in
  let year :=
    if ((0 <=? y) && (y <=? 9999))%Z then pad 4 y
    else (if (y <? 0)%Z then "-" else "+") +:+ pad 6 y in
  year +:+ "-" +:+ pad 2 m +:+ "-" +:+ pad 2 d.

(** ** Property reads on a plain object

    The coverage mapping is an object created by [{}] or by
    [JSON.parse] and used as a map from region code to an array of
    service codes. It is kept as the finite map of its own properties.
    A read [obj[key]] finds an own property first and then what every
    such object inherits from [Object.prototype]: its methods, of which
    the code can only observe [length], and the accessor [__proto__],
    which yields the prototype itself. *)
Inductive inherited :=
| Method (arity : nat)
| ThePrototype.

Definition Object_prototype : gmap string inherited :=
  list_to_map
    [ ("constructor", Method 1);
      ("__defineGetter__", Method 2);
      ("__defineSetter__", Method 2);
      ("hasOwnProperty", Method 1);
      ("__lookupGetter__", Method 1);
      ("__lookupSetter__", Method 1);
      ("isPrototypeOf", Method 1);
      ("propertyIsEnumerable", Method 1);
      ("toString", Method 0);
      ("valueOf", Method 0);
      ("__proto__", ThePrototype);
      ("toLocaleString", Method 0) ].

(** What such a read yields when it yields something. *)
Inductive value :=
| Array (items : list string)
| Inherited (p : inherited).

(** [obj[key]] *)
Definition get (obj : gmap string (list string)) (key : string) : option value :=
  match obj !! key with
  | Some items => Some (Array items)
  | None => Inherited <$> (Object_prototype !! key)
  end.

(** [v.length]: the length of an array, the number of parameters of a
    function, [undefined] on the prototype object. *)
Definition length_of (v : value) : option nat :=
  match v with
  | Array items => Some (length items)
  | Inherited (Method arity) => Some arity
  | Inherited ThePrototype => None
  end.

(** [v.includes(x)]: only an array has the method. *)
Definition includes (callee : string) (v : value) (x : string) : result bool :=
  match v with
  | Array items => inr (bool_decide (x ∈ items))
  | Inherited _ => inl (TypeError (callee +:+ ".includes is not a function"))
  end.

(** [array.forEach(body)] with a body that computes a value and may
    throw: the first throw ends the loop. *)
Fixpoint forEach {A B} (body : A → result B) (array : list A) : result (list B) :=
  match array with
  | [] => inr []
  | x :: rest =>
      match body x with
      | inl e => inl e
      | inr y =>
          match forEach body rest with
          | inl e => inl e
          | inr ys => inr (y :: ys)
          end
      end
  end.

(** [`${v}`] on a property read: the text, or "undefined". *)
Definition interpolate (v : option string) : string := default "undefined" v.

(** ** More of the number operations

    [a - b] on numbers. *)
Definition sub (a b : Q) : Q := binary64 (a - b)%Q.

(** [Number.prototype.toFixed(f)] for [|x| < 10^21], in the steps of the
    language specification: [n] is the integer for which [n / 10^f - x]
    is closest to zero (the larger one when there are two), [m] its
    decimal digits; when [f] is not zero, [m] is padded with zeros on
    the left to [f + 1] characters and the point goes before its last
    [f] characters. *)
Definition nearest (f : nat) (x : Q) : N :=
  Z.to_N (Qfloor (x * inject_Z (10 ^ Z.of_nat f) + (1 # 2))%Q).

Definition toFixed_digits (f : nat) (n : N) : string :=
  let m := pretty n in
  match f with
  | 0 => m
  | S _ =>
      let k := String.length m in
      let m := if Nat.leb k f then zeros (f + 1 - k) +:+ m else m in
      let k := String.length m in
      substring 0 (k - f) m +:+ "." +:+ substring (k - f) f m
  end.

Definition toFixed (f : nat) (x : Q) : string :=
  if Qle_bool 0 x then toFixed_digits f (nearest f x)
  else "-" +:+ toFixed_digits f (nearest f (- x)%Q).

(** [String.fromCharCode(n)]: the one code unit [n mod 2^16]. Strings
    are kept as UTF-8 bytes, the way the literals of the code are. *)
Definition fromCharCode (n : N) : string :=
  let c := (n mod 65536)%N in
  if (c <? 128)%N then String (ascii_of_N c) ""
  else if (c <? 2048)%N then
    String (ascii_of_N (192 + c / 64))
      (String (ascii_of_N (128 + c mod 64)) "")
  else
    String (ascii_of_N (224 + c / 4096))
      (String (ascii_of_N (128 + (c / 64) mod 64))
         (String (ascii_of_N (128 + c mod 64)) "")).

End JS.

(* ===================================================================== *)
(** * Records of the canonical model                                      *)
(* ===================================================================== *)

(** A region record, with every spelling [excelGenerator.js] probes. *)
Module Region.
Record t := {
  code : option string;
  regionCode : option string;
  RegionCode : option string;
  name : option string;
  regionName : option string;
  RegionName : option string;
  availabilityZones : option Z;
  AvailabilityZones : option (list string);
  launchDate : option string;
  LaunchDate : option string;
  blogUrl : option string;
  BlogUrl : option string;
}.
End Region.

(** A service record, with every spelling [excelGenerator.js] probes. *)
Module Service.
Record t := {
  code : option string;
  serviceCode : option string;
  ServiceCode : option string;
  name : option string;
  serviceName : option string;
  ServiceName : option string;
}.

(** The shape the handler builds: [{ code, name }] and nothing else. *)
Definition make (c n : string) : t :=
  {| code := Some c; serviceCode := None; ServiceCode := None;
     name := Some n; serviceName := None; ServiceName := None |}.

Definition canonical (s : t) : Prop :=
  serviceName s = None ∧ ServiceName s = None.
End Service.

Module Metadata.
Record t := {
  schemaVersion : option string;
  version : option string;
  timestamp : option string;
}.
End Metadata.

(* ===================================================================== *)
(** * utils.js                                                            *)
(* ===================================================================== *)

(** The helpers are called on integers: differences of [Date.now()]
    readings, the length of a buffer, the time values of two dates. An
    integer argument stands for the number of that value, which exists
    as such up to 2^53. *)
Module utils.
Import JS.

Definition formatDuration (ms : Z) : string :=
  if (ms <? 1000)%Z then pretty ms +:+ "ms"
  else if (ms <? 60000)%Z then toFixed 2 (div (inject_Z ms) 1000) +:+ "s"
  else
    let minutes := Qfloor (div (inject_Z ms) 60000) in
    let seconds := toFixed 0 (div (inject_Z (Z.rem ms 60000)) 1000) in
    pretty minutes +:+ "m " +:+ seconds +:+ "s".

Definition formatFileSize (bytes : Z) : string :=
  if (bytes <? 1024)%Z then pretty bytes +:+ " bytes"
  else if (bytes <? 1048576)%Z
  then toFixed 2 (div (inject_Z bytes) 1024) +:+ " KB"
  else toFixed 2 (div (inject_Z bytes) 1048576) +:+ " MB".

(** [date2 - date1] is taken on the time values of two valid dates. *)
Definition daysDifference (date1 date2 : Z) : Z :=
  let diffTime := Qabs (sub (inject_Z date2) (inject_Z date1)) in
  Qceiling (div diffTime (mul (mul (mul 1000 60) 60) 24)).

(** ** [formatDateEST]

    The argument is a [Date] object, valid at the places that pass one
    ([new Date()]), or a text, which [new Date] turns into a date that
    may be invalid. *)
Inductive date_like :=
| DateValue (tv : Z)
| DateText (text : string).

(** [Intl.DateTimeFormat('en-US', options).formatToParts(date)] on a
    valid date, for the two sets of options of the function: the parts
    of the time stamp, and the parts that carry the name of the zone.
    A part is its [type] and its [value]. On an invalid date
    [formatToParts] throws a [RangeError]. *)
Class Intl := {
  stampParts : Z → list (string * string);
  zoneParts : Z → list (string * string);
}.

Definition INVALID_TIME_VALUE : exn := RangeError "Invalid time value".

Definition formatToParts (parts : Z → list (string * string)) (dateObj : option Z)
    : result (list (string * string)) :=
  match dateObj with
  | Some tv => inr (parts tv)
  | None => inl INVALID_TIME_VALUE
  end.

(** [parts.forEach(part => { partMap[part.type] = part.value; })] *)
Definition partMapOf (parts : list (string * string)) : gmap string string :=
  foldl (λ partMap part, <[part.1 := part.2]> partMap) ∅ parts.

(** [parts.find(part => part.type === 'timeZoneName')?.value || 'EST'] *)
Definition tzNameOf (parts : list (string * string)) : string :=
  or_lit (snd <$> head (filter (λ part, part.1 = "timeZoneName") parts)) "EST".

Definition formatDateEST `{DateParser, Intl} (date : date_like) : result string :=
  let dateObj :=
    match date with
    | DateText text => Date_parse text
    | DateValue tv => Some tv
    end in
  match formatToParts stampParts dateObj with
  | inl e => inl e
  | inr parts =>
      let partMap := partMapOf parts in
      match formatToParts zoneParts dateObj with
      | inl e => inl e
      | inr zone =>
          let tzName := tzNameOf zone in
          inr (interpolate (partMap !! "year") +:+ "-"
               +:+ interpolate (partMap !! "month") +:+ "-"
               +:+ interpolate (partMap !! "day") +:+ " "
               +:+ interpolate (partMap !! "hour") +:+ ":"
               +:+ interpolate (partMap !! "minute") +:+ ":"
               +:+ interpolate (partMap !! "second") +:+ " " +:+ tzName)
      end
  end.
End utils.

(* ===================================================================== *)
(** * excelGenerator.js                                                   *)
(* ===================================================================== *)

Module excelGenerator.
Import JS.

(** The object handed to [generateExcelReport]. An absent property is
    [None]; the coverage mapping is a plain object used as a map from
    region code to an array of service codes: its own properties, with
    [Object.prototype] behind them. *)
Record sourceData := {
  metadata : option Metadata.t;
  regions : option (list Region.t);
  services : option (list Service.t);
  servicesByRegion : option (gmap string (list string));
}.

Record font := {
  color : string;
  bold : bool;
  italic : bool;
  underline : bool;
}.

Definition GREEN_BOLD : font :=
  {| color := "FF00B050"; bold := true; italic := false; underline := false |}.
Definition LIGHT_GREEN : font :=
  {| color := "FF92D050"; bold := false; italic := false; underline := false |}.
Definition ORANGE : font :=
  {| color := "FFFFC000"; bold := false; italic := false; underline := false |}.
Definition RED : font :=
  {| color := "FFC00000"; bold := false; italic := false; underline := false |}.
Definition RED_BOLD : font :=
  {| color := "FFC00000"; bold := true; italic := false; underline := false |}.
Definition GRAY_ITALIC : font :=
  {| color := "FF7F7F7F"; bold := false; italic := true; underline := false |}.
Definition LINK : font :=
  {| color := "FF0563C1"; bold := false; italic := false; underline := true |}.

Inductive cell_value :=
| Text (s : string)
| Hyperlink (text hyperlink : string).

(** [servicesByRegion[regionCode] || []]: whatever the read finds is
    truthy, an empty array included. *)
Definition servicesInRegion
    (servicesByRegion : gmap string (list string)) (regionCode : string)
    : value :=
  default (Array []) (get servicesByRegion regionCode).

(** ** Regions sheet *)

Record RegionRow := {
  regionCode : string;
  regionName : string;
  azCount : Z;
  serviceCount : option nat;
  launchDateCell : string;
  launchDateFont : option font;
  blogUrlCell : cell_value;
  blogUrlFont : option font;
}.

Definition region_code (r : Region.t) : string :=
  or_lit (or (or (Region.code r) (Region.regionCode r)) (Region.RegionCode r)) "".

(** The launch date column. The variable starts at ['N/A'], is replaced
    by the formatted date when the text parses, and by the original text
    when the [try] block throws. *)
Definition formatLaunchDate `{DateParser} (launchDate : string) : string :=
  if String.eqb launchDate "" then "N/A"
  else
    try_catch
      (match new_Date launchDate with
       | inl e => inl e
       | inr (Some tv) => inr (toISOString_date tv)
       | inr None => inr "N/A"
       end)
      (λ _, launchDate).

Definition regionRow `{DateParser}
    (servicesByRegion : gmap string (list string)) (region : Region.t)
    : RegionRow :=
  let regionCode := region_code region in
  let launchDate := or_lit (or (Region.launchDate region) (Region.LaunchDate region)) "" in
  let blogUrl := or_lit (or (Region.blogUrl region) (Region.BlogUrl region)) "" in
  let serviceCount := length_of (servicesInRegion servicesByRegion regionCode) in
  let formattedLaunchDate := formatLaunchDate launchDate in
  let blogValue := if String.eqb blogUrl "" then "N/A" else blogUrl in
  {| regionCode := regionCode;
     regionName :=
       or_lit (or (or (Region.name region) (Region.regionName region))
                  (Region.RegionName region)) "";
     azCount :=
       match Region.availabilityZones region with
       | Some z => if (z =? 0)%Z
                   then Z.of_nat (length (default [] (Region.AvailabilityZones region)))
                   else z
       | None => Z.of_nat (length (default [] (Region.AvailabilityZones region)))
       end;
     serviceCount := serviceCount;
     launchDateCell := formattedLaunchDate;
     launchDateFont :=
       if String.eqb formattedLaunchDate "N/A" then Some GRAY_ITALIC else None;
     blogUrlCell :=
       if String.eqb blogValue "N/A" then Text blogValue
       else Hyperlink blogValue blogValue;
     blogUrlFont :=
       if String.eqb blogValue "N/A" then Some GRAY_ITALIC else Some LINK |}.

Definition createRegionsSheet `{DateParser} (data : sourceData) : list RegionRow :=
  let servicesByRegion := default ∅ (servicesByRegion data) in
  regionRow servicesByRegion <$> default [] (regions data).

(** ** Services sheet *)

Record ServiceRow := {
  serviceCode : string;
  serviceName : string;
  availableRegions : N;
  coveragePercent : string;
  coverageFont : font;
}.

Definition service_code (s : Service.t) : string :=
  or_lit (or (or (Service.code s) (Service.serviceCode s)) (Service.ServiceCode s)) "".

(** [service.name || service.serviceName || service.ServiceName || ''],
    the name every sheet displays. *)
Definition service_name (s : Service.t) : string :=
  or_lit (or (or (Service.name s) (Service.serviceName s)) (Service.ServiceName s)) "".

(** The name the Services sheet sorts by probes the spellings in another
    order: [a.serviceName || a.ServiceName || a.name || '']. *)
Definition services_sort_name (s : Service.t) : string :=
  or_lit (or (or (Service.serviceName s) (Service.ServiceName s)) (Service.name s)) "".

Definition compare_by `{Collation} (key : Service.t → string) (a b : Service.t) : Z :=
  localeCompare (toLowerCase (key a)) (toLowerCase (key b)).

(** [serviceRegionCounts.set(code, (serviceRegionCounts.get(code) || 0) + 1)] *)
Definition count_service (counts : gmap string N) (serviceCode : string)
    : gmap string N :=
  <[serviceCode := incr (default 0%N (counts !! serviceCode))]> counts.

Definition count_region (counts : gmap string N) (services : list string)
    : gmap string N :=
  foldl count_service counts services.

(** The loop over [Object.keys(servicesByRegion)]. *)
Definition serviceRegionCounts (servicesByRegion : gmap string (list string))
    : gmap string N :=
  map_fold (λ _ services counts, count_region counts services) ∅ servicesByRegion.

Definition coveragePercentOf (regionCount : N) (totalRegions : nat) : strnum :=
  if Nat.ltb 0 totalRegions
  then Str (toFixed1 (mul (div (inject_Z (Z.of_N regionCount))
                               (inject_Z (Z.of_nat totalRegions))) 100))
  else Num 0.

Definition coverageFontOf (coveragePercent : strnum) : font :=
  let percentValue := parseFloat coveragePercent in
  if strict_eq percentValue 100 then GREEN_BOLD
  else if ge percentValue 75 then LIGHT_GREEN
  else if ge percentValue 50 then ORANGE
  else if gt percentValue 0 then RED
  else GRAY_ITALIC.

Definition serviceRow (counts : gmap string N) (totalRegions : nat)
    (service : Service.t) : ServiceRow :=
  let serviceCode := service_code service in
  let regionCount := default 0%N (counts !! serviceCode) in
  let coveragePercent := coveragePercentOf regionCount totalRegions in
  {| serviceCode := serviceCode;
     serviceName := service_name service;
     availableRegions := regionCount;
     coveragePercent := to_string coveragePercent +:+ "%";
     coverageFont := coverageFontOf coveragePercent |}.

Definition createServicesSheet `{Collation} (data : sourceData) : list ServiceRow :=
  let totalRegions := length (default [] (regions data)) in
  let counts := serviceRegionCounts (default ∅ (servicesByRegion data)) in
  let sortedServices :=
    sort (compare_by services_sort_name) (default [] (services data)) in
  serviceRow counts totalRegions <$> sortedServices.

(** ** Service Coverage sheet *)

Record Placeholder := {
  mergedCells : string;
  message : string;
  messageItalic : bool;
  horizontal : string;
  vertical : string;
}.

Record CoverageRow := {
  rowName : string;
  marks : list string;
}.

Inductive CoverageSheet :=
| NotAvailable (p : Placeholder)
| Matrix (headers : list string) (rows : list CoverageRow).

(** One cell of the matrix:
    [servicesInRegion.includes(serviceCode) ? '✓' : '✗']. *)
Definition coverageMark (servicesByRegion : gmap string (list string))
    (serviceCode regionCode : string) : result string :=
  match includes "servicesInRegion" (servicesInRegion servicesByRegion regionCode)
                 serviceCode with
  | inl e => inl e
  | inr isAvailable => inr (if isAvailable then "✓" else "✗")
  end.

Definition coverageRow (servicesByRegion : gmap string (list string))
    (regionCodes : list string) (service : Service.t) : result CoverageRow :=
  let serviceCode := service_code service in
  let serviceName := service_name service in
  match forEach (coverageMark servicesByRegion serviceCode) regionCodes with
  | inl e => inl e
  | inr marks => inr {| rowName := serviceName; marks := marks |}
  end.

Definition hasCoverage (data : sourceData) : bool :=
  match servicesByRegion data with
  | Some m => negb (Nat.eqb (size m) 0)
  | None => false
  end.

Definition createServiceCoverageSheet `{Collation} (data : sourceData)
    : result CoverageSheet :=
  if negb (hasCoverage data) then
    inr (NotAvailable
           {| mergedCells := "A1:E5";
              message := "Service-by-region mapping not available in source data";
              messageItalic := true;
              horizontal := "center";
              vertical := "middle" |})
  else
    let regionCodes := region_code <$> default [] (regions data) in
    let servicesByRegion := default ∅ (servicesByRegion data) in
    let sortedServices :=
      sort (compare_by service_name) (default [] (services data)) in
    match forEach (coverageRow servicesByRegion regionCodes) sortedServices with
    | inl e => inl e
    | inr rows => inr (Matrix ("Service" :: regionCodes) rows)
    end.

(** ** Summary sheet

    What the sheet takes from outside the workbook: the clock, read
    once for "Report Generated" and once more when the data carry no
    timestamp, and two environment variables. *)
Class SummaryHost := {
  generatedAt : Z;
  timestampFallback : Z;
  SOURCE_BUCKET : option string;
  SOURCE_KEY : option string;
}.

(** [metadata?.schemaVersion || metadata?.version || 'Unknown'] *)
Definition schemaVersionOf (metadata : option Metadata.t) : string :=
  or_lit (or (metadata ≫= Metadata.schemaVersion) (metadata ≫= Metadata.version))
         "Unknown".

(** [metadata?.timestamp || new Date()] *)
Definition dataTimestampOf `{SummaryHost} (metadata : option Metadata.t)
    : utils.date_like :=
  let timestamp := metadata ≫= Metadata.timestamp in
  if truthy timestamp then utils.DateText (or_lit timestamp "")
  else utils.DateValue timestampFallback.

(** The [reduce] over [Object.keys(servicesByRegion)]. *)
Definition mappingsOf (servicesByRegion : option (gmap string (list string)))
    : strnum :=
  match servicesByRegion with
  | Some m =>
      Num (Z.of_nat (map_fold (λ _ services acc, acc + length services) 0 m))
  | None => Str "N/A"
  end.

(** The rows added under the title, each a label and a value. The
    array is built in order: a time stamp that cannot be formatted
    throws before the later rows are looked at. *)
Definition createSummarySheet `{DateParser, utils.Intl, SummaryHost}
    (data : sourceData) : result (list (string * strnum)) :=
  match utils.formatDateEST (utils.DateValue generatedAt) with
  | inl e => inl e
  | inr reportGenerated =>
      match utils.formatDateEST (dataTimestampOf (metadata data)) with
      | inl e => inl e
      | inr dataTimestamp =>
          inr [ ("", Str "");
                ("Field", Str "Value");
                ("Report Generated", Str reportGenerated);
                ("Data Source",
                 Str ("s3://" +:+ interpolate SOURCE_BUCKET +:+ "/"
                      +:+ interpolate SOURCE_KEY));
                ("Schema Version", Str (schemaVersionOf (metadata data)));
                ("Data Timestamp", Str dataTimestamp);
                ("", Str "");
                ("Total AWS Regions",
                 Num (Z.of_nat (length (default [] (regions data)))));
                ("Total AWS Services",
                 Num (Z.of_nat (length (default [] (services data)))));
                ("Service-by-Region Mappings", mappingsOf (servicesByRegion data)) ]
      end
  end.

(** ** The filter range of the Service Coverage sheet

    [{ from: 'A1', to: `${String.fromCharCode(65 + headers.length - 1)}1` }],
    set only when the matrix is drawn. *)
Definition coverageAutoFilter (data : sourceData) : option (string * string) :=
  if negb (hasCoverage data) then None
  else
    let headers := "Service" :: (region_code <$> default [] (regions data)) in
    Some ("A1", fromCharCode (65 + N.of_nat (length headers) - 1) +:+ "1").

(** ** The workbook

    The four sheets are built in this order; a sheet that throws ends
    the generation. *)
Record Report := {
  summarySheet : list (string * strnum);
  regionsSheet : list RegionRow;
  servicesSheet : list ServiceRow;
  coverageSheet : CoverageSheet;
}.

Definition generateExcelReport `{Collation, DateParser, utils.Intl, SummaryHost}
    (data : sourceData) : result Report :=
  match createSummarySheet data with
  | inl e => inl e
  | inr summary =>
      let regions := createRegionsSheet data in
      let services := createServicesSheet data in
      match createServiceCoverageSheet data with
      | inl e => inl e
      | inr coverage =>
          inr {| summarySheet := summary;
                 regionsSheet := regions;
                 servicesSheet := services;
                 coverageSheet := coverage |}
      end
  end.

End excelGenerator.

(* ===================================================================== *)
(** * Effects: what a run does to the outside world                       *)
(* ===================================================================== *)

(** The code talks to S3 and to the notification topic. A computation
    threads the trace of what it has done so far and either returns or
    throws; a thrown error keeps the trace. *)
Module Run.
Import JS.

Inductive notification :=
| SuccessNotification
| WarningNotification (warning : string)
| FailureNotification (error : string).

Inductive event :=
| Uploaded (bucket key : string)
| Copied (bucket key : string)
| Deleted (bucket key : string)
| DeleteFailed (bucket key : string)
| Notified (n : notification).

Definition M (A : Type) : Type := list event → result A * list event.

Definition ret {A} (a : A) : M A := λ tr, (inr a, tr).
Definition throw {A} (e : exn) : M A := λ tr, (inl e, tr).
Definition emit (ev : event) : M unit := λ tr, (inr tt, (tr ++ [ev])%list).
Definition lift {A} (r : result A) : M A := λ tr, (r, tr).

Definition bind {A B} (m : M A) (k : A → M B) : M B :=
  λ tr, match m tr with
        | (inr a, tr') => k a tr'
        | (inl e, tr') => (inl e, tr')
        end.

(** [try { body } catch (e) { handler e }] *)
Definition catch {A} (body : M A) (handler : exn → M A) : M A :=
  λ tr, match body tr with
        | (inr a, tr') => (inr a, tr')
        | (inl e, tr') => handler e tr'
        end.

#[export] Instance M_ret : MRet M := @ret.
#[export] Instance M_bind : MBind M := λ A B k m, bind m k.

Definition message (e : exn) : string :=
  match e with TypeError m | RangeError m | Error m => m end.

(** [error.name] *)
Definition name (e : exn) : string :=
  match e with
  | TypeError _ => "TypeError"
  | RangeError _ => "RangeError"
  | Error _ => "Error"
  end.
End Run.

(* ===================================================================== *)
(** * archiveManager.js                                                   *)
(* ===================================================================== *)

Module archiveManager.
Import JS Run.

Record S3Object := {
  Key : string;
  LastModified : Z;
}.

(** The S3 client as the run meets it: the outcome of each request, and
    the clock with the time zone of the process. A [PutObject] on the
    same key may be sent several times; its outcome depends on the
    attempt. [LocalTZA t isUTC] is the offset of local time in
    milliseconds, at the instant [t] when [isUTC] holds and at the local
    time [t] otherwise, as the language specification has it. *)
Record S3 := {
  putObject : string → string → nat → result unit;
  listObjectsV2 : string → string → result (list S3Object);
  deleteObject : string → string → result unit;
  copyObject : string → string → string → result unit;
  now : Z;
  LocalTZA : Z → bool → Z;
  timestamp : string;
}.

Section client.
Context (s3Client : S3).

(** The retry loop of [uploadToS3]: attempts [attempt], [attempt + 1],
    ... while [remaining] is not exhausted. *)
Fixpoint uploadToS3_loop (bucket key : string) (maxRetries : nat)
    (attempt remaining : nat) (lastError : option exn) : M unit :=
  match remaining with
  | 0 =>
      match lastError with
      | Some e =>
          throw (Error ("Failed to upload " +:+ key +:+ " after "
                        +:+ pretty maxRetries +:+ " attempts: " +:+ message e))
      | None =>
          throw (TypeError "Cannot read properties of undefined (reading 'message')")
      end
  | S remaining' =>
      match putObject s3Client bucket key attempt with
      | inr _ => emit (Uploaded bucket key)
      | inl e =>
          uploadToS3_loop bucket key maxRetries (S attempt) remaining' (Some e)
      end
  end.

Definition uploadToS3 (bucket key : string) (maxRetries : nat) : M unit :=
  uploadToS3_loop bucket key maxRetries 1 maxRetries None.

Record UploadMetadata := {
  latestReportKey : string;
  archiveReportKey : string;
}.

Definition uploadReports (bucket reportPrefix archivePrefix latestReportName : string)
    : M UploadMetadata :=
  let archiveFileName := "aws-service-report-" +:+ timestamp s3Client +:+ ".xlsx" in
  let latestKey := reportPrefix +:+ latestReportName in
  uploadToS3 bucket latestKey 3 ;;
  let archiveKey := archivePrefix +:+ archiveFileName in
  uploadToS3 bucket archiveKey 3 ;;
  ret {| latestReportKey := latestKey; archiveReportKey := archiveKey |}.

(** ** Retention *)

Record RetentionResult := {
  retained : nat;
  deleted : nat;
}.

Definition MS_PER_DAY : Z := 86400000.

(** The largest time value of a date, 10^8 days either side of the
    epoch; [TimeClip] turns anything beyond into the invalid date,
    for which [None] stands. *)
Definition MAX_TIME : Z := 8640000000000000.

Definition TimeClip (time : Z) : option Z :=
  if (Z.abs time <=? MAX_TIME)%Z then Some time else None.

Definition LocalTime (t : Z) : Z := (t + LocalTZA s3Client t true)%Z.
Definition UTC (t : Z) : Z := (t - LocalTZA s3Client t false)%Z.

(** [const cutoffDate = new Date();
     cutoffDate.setDate(cutoffDate.getDate() - retentionDays)].
    [setDate] works on the local time [t] of the date: it keeps the
    time within the day and replaces the day of the month, so that
    with the argument [getDate() - retentionDays] the new local time
    is [t - retentionDays * msPerDay]; the date becomes
    [TimeClip(UTC(...))] of that. The arithmetic on numbers is exact
    up to 2^53, which lies beyond what [TimeClip] lets through. *)
Definition cutoffDate (retentionDays : Z) : option Z :=
  let t := LocalTime (now s3Client) in
  TimeClip (UTC (t - retentionDays * MS_PER_DAY)).

(** [obj.LastModified < cutoffDate]: false when the cutoff is the
    invalid date. *)
Definition isExpired (cutoff : option Z) (obj : S3Object) : bool :=
  match cutoff with
  | Some time => (LastModified obj <? time)%Z
  | None => false
  end.

Definition expiredObjects (cutoff : option Z) (objects : list S3Object)
    : list S3Object :=
  List.filter (isExpired cutoff) objects.

Definition retainedObjects (cutoff : option Z) (objects : list S3Object)
    : list S3Object :=
  List.filter (λ obj, negb (isExpired cutoff obj)) objects.

(** The deletion loop: a failed deletion is logged and the loop goes on.
    The trace keeps both outcomes. *)
Fixpoint deleteExpired (bucket : string) (expired : list S3Object)
    (deletedCount : nat) : M nat :=
  match expired with
  | [] => ret deletedCount
  | obj :: rest =>
      match deleteObject s3Client bucket (Key obj) with
      | inr _ =>
          emit (Deleted bucket (Key obj)) ;;
          deleteExpired bucket rest (S deletedCount)
      | inl _ =>
          emit (DeleteFailed bucket (Key obj)) ;;
          deleteExpired bucket rest deletedCount
      end
  end.

Definition manageArchiveRetention (bucket archivePrefix : string)
    (retentionDays : Z) : M RetentionResult :=
  catch
    (objects ← lift (listObjectsV2 s3Client bucket archivePrefix);
     if Nat.eqb (length objects) 0 then ret {| retained := 0; deleted := 0 |}
     else
       let cutoff := cutoffDate retentionDays in
       let expired := expiredObjects cutoff objects in
       let kept := retainedObjects cutoff objects in
       deletedCount ← deleteExpired bucket expired 0;
       ret {| retained := length kept; deleted := deletedCount |})
    (λ error,
       throw (Error ("Archive retention management failed: " +:+ message error))).

(** ** Distribution *)

Record DistributionResult := {
  distributed : bool;
  reason : option string;
  distributionPath : option string;
  error : option string;
  errorType : option string;
}.

Definition distributeReports (sourceBucket sourceKey : string)
    (distributionBucket distributionKey : option string) : M DistributionResult :=
  if negb (truthy distributionBucket) || negb (truthy distributionKey) then
    ret {| distributed := false;
           reason := Some "Distribution bucket not configured";
           distributionPath := None; error := None; errorType := None |}
  else
    let bucket := or_lit distributionBucket "" in
    let key := or_lit distributionKey "" in
    catch
      (lift (copyObject s3Client bucket (sourceBucket +:+ "/" +:+ sourceKey) key) ;;
       emit (Copied bucket key) ;;
       ret {| distributed := true; reason := None;
              distributionPath := Some ("s3://" +:+ bucket +:+ "/" +:+ key);
              error := None; errorType := None |})
      (λ e,
         ret {| distributed := false; reason := None; distributionPath := None;
                error := Some (message e); errorType := Some (name e) |}).

End client.
End archiveManager.

(* ===================================================================== *)
(** * s3Operations.js                                                     *)
(* ===================================================================== *)

Module s3Operations.
Import JS.

(** What the SDK, a stream or [JSON.parse] throws: an error object, of
    which the code reads [name] and [message]. *)
Record failure := {
  name : string;
  message : string;
}.

(** A readable stream as its consumer sees it: the chunks it emits, and
    then ['end'] or ['error']. *)
Record stream := {
  chunks : list string;
  failed : option failure;
}.

(** The outcome of a [GetObject] request, and [JSON.parse]: the parsed
    value seen at the type the caller reads it at, or the message of the
    [SyntaxError]. *)
Record S3 := {
  getObject : string → string → failure + stream;
}.

Definition JSON_parse (A : Type) : Type := string → string + A.

Definition streamToString (s : stream) : failure + string :=
  match failed s with
  | Some error => inl error
  | None => inr (foldr String.append "" (chunks s))
  end.

Definition parse {A} (JSON : JSON_parse A) (text : string) : failure + A :=
  match JSON text with
  | inl msg => inl {| name := "SyntaxError"; message := msg |}
  | inr data => inr data
  end.

Definition readSourceData {A} (s3Client : S3) (JSON : JSON_parse A)
    (bucket key : string) : result A :=
  let attempt :=
    match getObject s3Client bucket key with
    | inl error => inl error
    | inr response =>
        match streamToString response with
        | inl error => inl error
        | inr bodyContents => parse JSON bodyContents
        end
    end in
  match attempt with
  | inr data => inr data
  | inl error =>
      if String.eqb (name error) "NoSuchKey" then
        inl (Error ("Source file not found: s3://" +:+ bucket +:+ "/" +:+ key))
      else if String.eqb (name error) "SyntaxError" then
        inl (Error ("Invalid JSON format in source file: " +:+ message error))
      else
        inl (Error ("Failed to read source data from S3: " +:+ message error))
  end.

(** The names document: an object whose [services] property, when
    there, lists [{ code, name }] records. *)
Record ServicesDocument := {
  services : option (list (string * string));
}.

Definition readServicesData (s3Client : S3) (JSON : JSON_parse ServicesDocument)
    (bucket key : string) : list (string * string) :=
  match readSourceData s3Client JSON bucket key with
  | inr data => default [] (services data)
  | inl _ => []
  end.
End s3Operations.

(* ===================================================================== *)
(** * index.js                                                            *)
(* ===================================================================== *)

Module index.
Import JS Run.

(** ** The source document

    The regions and services arrays come either directly or one level
    deeper under a key of the same name. *)
Inductive container (A : Type) :=
| Direct (items : list A)
| Nested (items : list A).
Arguments Direct {A} items.
Arguments Nested {A} items.

(** [sourceData.regions.regions || sourceData.regions] *)
Definition unwrap {A} (c : container A) : list A :=
  match c with
  | Direct items => items
  | Nested items => items
  end.

(** One value of the coverage object: a plain array, [null], or anything
    else, of which only the [services] property matters (present as an
    array, or not). *)
Inductive coverage_entry :=
| EArray (codes : list string)
| EObject (services : option (list string))
| ENull.

(** The [servicesByRegion] object: its own region keys, and its
    [byRegion] property when it has one. *)
Record coverage_document := {
  byRegion : option (gmap string coverage_entry);
  ownKeys : gmap string coverage_entry;
}.

Record SourceDocument := {
  metadata : option Metadata.t;
  regions : option (container Region.t);
  services : option (container string);
  servicesByRegion : option coverage_document;
}.

(** ** Validation and normalization (steps 2 of the handler) *)

Definition INVALID_STRUCTURE : exn :=
  Error "Invalid data structure: missing required fields (metadata, regions, or services)".

Definition validate (sourceData : SourceDocument) : result unit :=
  match metadata sourceData, regions sourceData, services sourceData with
  | Some _, Some _, Some _ => inr tt
  | _, _, _ => inl INVALID_STRUCTURE
  end.

(** [serviceMap.set(service.code, service.name)] over the names document. *)
Definition serviceMapOf (servicesWithNames : list (string * string))
    : gmap string string :=
  foldl (λ serviceMap service, <[service.1 := service.2]> serviceMap) ∅ servicesWithNames.

(** [{ code, name: serviceMap.get(code) || code }] *)
Definition enrich (serviceMap : gmap string string) (code : string) : Service.t :=
  Service.make code (or_lit (serviceMap !! code) code).

(** [sourceData.servicesByRegion?.byRegion || sourceData.servicesByRegion || {}] *)
Definition servicesByRegionRaw (sourceData : SourceDocument)
    : gmap string coverage_entry :=
  match servicesByRegion sourceData with
  | Some doc => default (ownKeys doc) (byRegion doc)
  | None => ∅
  end.

(** The body of the loop over [Object.keys(servicesByRegionRaw)]. *)
Definition flattenEntry (regionCode : string) (regionData : coverage_entry)
    (acc : result (gmap string (list string))) : result (gmap string (list string)) :=
  match acc with
  | inl e => inl e
  | inr servicesByRegion =>
      match regionData with
      | EArray codes => inr (<[regionCode := codes]> servicesByRegion)
      | EObject (Some codes) => inr (<[regionCode := codes]> servicesByRegion)
      | EObject None => inr servicesByRegion
      | ENull => inl (TypeError "Cannot read properties of null (reading 'services')")
      end
  end.

Definition flattenCoverage (raw : gmap string coverage_entry)
    : result (gmap string (list string)) :=
  map_fold flattenEntry (inr ∅) raw.

Definition normalize (sourceData : SourceDocument)
    (servicesWithNames : list (string * string))
    : result excelGenerator.sourceData :=
  match validate sourceData with
  | inl e => inl e
  | inr _ =>
      let regions := unwrap (default (Direct []) (regions sourceData)) in
      let serviceCodes := unwrap (default (Direct []) (services sourceData)) in
      let serviceMap := serviceMapOf servicesWithNames in
      let services := enrich serviceMap <$> serviceCodes in
      match flattenCoverage (servicesByRegionRaw sourceData) with
      | inl e => inl e
      | inr servicesByRegion =>
          inr {| excelGenerator.metadata := metadata sourceData;
                 excelGenerator.regions := Some regions;
                 excelGenerator.services := Some services;
                 excelGenerator.servicesByRegion := Some servicesByRegion |}
      end
  end.

(** ** The run *)

Record Config := {
  sourceBucket : string;
  sourceKey : string;
  reportBucket : string;
  reportPrefix : string;
  archivePrefix : string;
  latestReportName : string;
  archiveRetentionDays : Z;
  snsTopicArn : string;
  distributionBucket : option string;
  distributionKey : option string;
}.

(** What the handler meets outside itself: the S3 client, the two
    documents as [readSourceData] and [readServicesData] deliver them,
    and the outcome of serializing the workbook (its size in bytes). *)
Record Env := {
  s3Client : archiveManager.S3;
  readSourceData : result SourceDocument;
  readServicesData : list (string * string);
  writeBuffer : excelGenerator.Report → result N;
}.

Record Metrics := {
  regionCount : nat;
  serviceCount : nat;
  serviceMappingCount : nat;
  reportSizeBytes : N;
  dataSchemaVersion : string;
  latestReportKey : string;
  archiveReportKey : string;
  distributionResult : archiveManager.DistributionResult;
  archivedReportsRetained : strnum;
  archivedReportsDeleted : nat;
}.

Inductive Body :=
| ReportGenerated (metrics : Metrics)
| ReportFailed (error errorType : string).

Record Response := {
  statusCode : Z;
  body : Body;
}.

(** Modelled from the spec: [snsNotifications.js] is not among the
    sources. Each of its three functions dispatches one message of its
    kind, and a dispatch failure is logged without changing the outcome
    of the run. *)
Definition sendSuccessNotification : M unit :=
  emit (Notified SuccessNotification).
Definition sendWarningNotification (warning : string) : M unit :=
  emit (Notified (WarningNotification warning)).
Definition sendFailureNotification (error : string) : M unit :=
  emit (Notified (FailureNotification error)).

Definition mappingCount (servicesByRegion : gmap string (list string)) : nat :=
  map_fold (λ _ services acc, acc + length services) 0 servicesByRegion.

Section handler.
Context `{Collation, DateParser, utils.Intl, excelGenerator.SummaryHost}.
Context (env : Env) (config : Config).

Definition generate : M Response :=
  sourceData ← lift (readSourceData env);
  let servicesWithNames := readServicesData env in
  normalizedData ← lift (normalize sourceData servicesWithNames);
  report ← lift (excelGenerator.generateExcelReport normalizedData);
  reportSize ← lift (writeBuffer env report);
  uploaded ← archiveManager.uploadReports (s3Client env)
    (reportBucket config) (reportPrefix config) (archivePrefix config)
    (latestReportName config);
  distributionResult ← archiveManager.distributeReports (s3Client env)
    (reportBucket config) (reportPrefix config +:+ latestReportName config)
    (distributionBucket config) (distributionKey config);
  retention ← catch
    (retentionResult ← archiveManager.manageArchiveRetention (s3Client env)
       (reportBucket config) (archivePrefix config) (archiveRetentionDays config);
     mret (None,
           Num (Z.of_nat (archiveManager.retained retentionResult)),
           archiveManager.deleted retentionResult))
    (λ retentionError, mret (Some (message retentionError), Str "Unknown", 0));
  let '(archiveManagementWarning, archivedRetained, archivedDeleted) := retention in
  let successMetrics :=
    {| regionCount := length (default [] (excelGenerator.regions normalizedData));
       serviceCount := length (default [] (excelGenerator.services normalizedData));
       serviceMappingCount :=
         mappingCount (default ∅ (excelGenerator.servicesByRegion normalizedData));
       reportSizeBytes := reportSize;
       dataSchemaVersion :=
         match metadata sourceData with
         | Some md => or_lit (or (Metadata.version md) (Metadata.schemaVersion md)) "Unknown"
         | None => "Unknown"
         end;
       latestReportKey := archiveManager.latestReportKey uploaded;
       archiveReportKey := archiveManager.archiveReportKey uploaded;
       distributionResult := distributionResult;
       archivedReportsRetained := archivedRetained;
       archivedReportsDeleted := archivedDeleted |} in
  (if truthy archiveManagementWarning
   then sendWarningNotification (or_lit archiveManagementWarning "")
   else sendSuccessNotification) ;;
  mret {| statusCode := 200; body := ReportGenerated successMetrics |}.

Definition handler : Response * list event :=
  let run :=
    catch generate
      (λ error,
         catch (sendFailureNotification (message error)) (λ _, mret tt) ;;
         mret {| statusCode := 500;
                 body := ReportFailed (message error) (name error) |}) in
  match run [] with
  | (inr response, trace) => (response, trace)
  | (inl error, trace) =>
      ({| statusCode := 500; body := ReportFailed (message error) (name error) |}, trace)
  end.
End handler.
End index.

(* ===================================================================== *)
(** * A reference host and sample data                                    *)
(* ===================================================================== *)

(** A host to run the model on: ASCII lower-casing, comparison of strings
    by code unit, a date parser that accepts exactly the calendar dates
    written [YYYY-MM-DD] and the instants written [YYYY-MM-DDTHH:mm:ssZ],
    and a formatter that keeps Eastern Standard Time all year. *)
Module Host.
Import JS.

Definition lowerChar (c : ascii) : ascii :=
  let n := N_of_ascii c in
  if ((65 <=? n) && (n <=? 90))%N then ascii_of_N (n + 32) else c.

Fixpoint asciiLower (s : string) : string :=
  match s with
  | EmptyString => EmptyString
  | String c rest => String (lowerChar c) (asciiLower rest)
  end.

Definition ordinalCompare (a b : string) : Z :=
  match String.compare a b with
  | Lt => (-1)%Z
  | Eq => 0%Z
  | Gt => 1%Z
  end.

#[export] Instance collation : Collation :=
  {| toLowerCase := asciiLower; localeCompare := ordinalCompare |}.

Definition isLeap (y : Z) : bool :=
  ((y mod 4 =? 0) && negb (y mod 100 =? 0) || (y mod 400 =? 0))%Z.

Definition daysInMonth (y m : Z) : Z :=
  if (m =? 2)%Z then (if isLeap y then 29 else 28)%Z
  else if ((m =? 4) || (m =? 6) || (m =? 9) || (m =? 11))%Z then 30%Z
  else 31%Z.

Definition days_from_civil (y m d : Z) : Z :=
  let y := (if (m <=? 2)%Z then y - 1 else y)%Z in
  let era := (y / 400)%Z in
  let yoe := (y - era * 400)%Z in
  let doy := ((153 * (if (2 <? m)%Z then m - 3 else m + 9) + 2) / 5 + d - 1)%Z in
  let doe := (yoe * 365 + yoe / 4 - yoe / 100 + doy)%Z in
  (era * 146097 + doe - 719468)%Z.

Definition digits_value (cs : list ascii) : option Z :=
  foldl (λ acc c, a ← acc; d ← digit_value c; Some (a * 10 + Z.of_N d)%Z)
        (Some 0%Z) cs.

Definition isoDate (text : string) : option Z :=
  match list_ascii_of_string text with
  | [y1; y2; y3; y4; "-"%char; m1; m2; "-"%char; d1; d2] =>
      y ← digits_value [y1; y2; y3; y4];
      m ← digits_value [m1; m2];
      d ← digits_value [d1; d2];
      if ((1 <=? m) && (m <=? 12) && (1 <=? d) && (d <=? daysInMonth y m))%Z
      then Some (days_from_civil y m d * 86400000)%Z
      else None
  | [y1; y2; y3; y4; "-"%char; m1; m2; "-"%char; d1; d2; "T"%char;
     h1; h2; ":"%char; n1; n2; ":"%char; s1; s2; "Z"%char] =>
      y ← digits_value [y1; y2; y3; y4];
      m ← digits_value [m1; m2];
      d ← digits_value [d1; d2];
      h ← digits_value [h1; h2];
      n ← digits_value [n1; n2];
      s ← digits_value [s1; s2];
      if ((1 <=? m) && (m <=? 12) && (1 <=? d) && (d <=? daysInMonth y m)
          && (h <=? 23) && (n <=? 59) && (s <=? 59))%Z
      then Some (days_from_civil y m d * 86400000
                 + h * 3600000 + n * 60000 + s * 1000)%Z
      else None
  | _ => None
  end.

#[export] Instance dateParser : DateParser := isoDate.

(** The parts of an instant five hours behind UTC, in the order and
    with the separators of the [en-US] locale. *)
Definition easternParts (tv : Z) : list (string * string) :=
  let local := (tv - 18000000)%Z in
  let '(y, m, d) := civil_from_days (local / 86400000)%Z in
  let time := (local mod 86400000)%Z in
  [ ("month", pad 2 m); ("literal", "/"); ("day", pad 2 d); ("literal", "/");
    ("year", pad 4 y); ("literal", ", ");
    ("hour", pad 2 (time / 3600000)); ("literal", ":");
    ("minute", pad 2 ((time / 60000) mod 60)); ("literal", ":");
    ("second", pad 2 ((time / 1000) mod 60)) ].

Definition easternZone (tv : Z) : list (string * string) :=
  let local := (tv - 18000000)%Z in
  let '(y, m, d) := civil_from_days (local / 86400000)%Z in
  [ ("month", pretty m); ("literal", "/"); ("day", pretty d); ("literal", "/");
    ("year", pretty y); ("literal", ", "); ("timeZoneName", "EST") ].

#[export] Instance intl : utils.Intl :=
  {| utils.stampParts := easternParts; utils.zoneParts := easternZone |}.
End Host.

Module Sample.
Import JS excelGenerator.

Definition region (code name : string) (az : Z) (launch : option string) : Region.t :=
  {| Region.code := Some code; Region.regionCode := None; Region.RegionCode := None;
     Region.name := Some name; Region.regionName := None; Region.RegionName := None;
     Region.availabilityZones := Some az; Region.AvailabilityZones := None;
     Region.launchDate := launch; Region.LaunchDate := None;
     Region.blogUrl := None; Region.BlogUrl := None |}.

Definition releaseMetadata : Metadata.t :=
  {| Metadata.schemaVersion := Some "1.0"; Metadata.version := None;
     Metadata.timestamp := Some "2025-10-16T02:00:00Z" |}.

(** Two regions, three services, [s3] everywhere and the other two in
    one region only. *)
Definition twoRegions : sourceData :=
  {| excelGenerator.metadata := Some releaseMetadata;
     regions := Some [region "us-east-1" "US East (N. Virginia)" 6 (Some "2006-08-25");
                      region "eu-west-1" "Europe (Ireland)" 3 None];
     services := Some [Service.make "s3" "s3"; Service.make "ec2" "ec2";
                       Service.make "lambda" "lambda"];
     servicesByRegion :=
       Some (<["us-east-1" := ["s3"; "ec2"; "lambda"]]>
             (<["eu-west-1" := ["s3"]]> ∅)) |}.

(** The same services with no region at all. *)
Definition noRegions : sourceData :=
  {| excelGenerator.metadata := Some releaseMetadata;
     regions := Some [];
     services := Some [Service.make "s3" "s3"];
     servicesByRegion := Some ∅ |}.

(** One region listed, two keys in the coverage mapping. *)
Definition unlistedRegion : sourceData :=
  {| excelGenerator.metadata := Some releaseMetadata;
     regions := Some [region "us-east-1" "US East (N. Virginia)" 6 None];
     services := Some [Service.make "s3" "s3"];
     servicesByRegion :=
       Some (<["us-east-1" := ["s3"]]> (<["eu-west-1" := ["s3"]]> ∅)) |}.

(** One region whose array lists [s3] twice. *)
Definition listedTwice : sourceData :=
  {| excelGenerator.metadata := Some releaseMetadata;
     regions := Some [region "us-east-1" "US East (N. Virginia)" 6 None];
     services := Some [Service.make "s3" "s3"];
     servicesByRegion := Some (<["us-east-1" := ["s3"; "s3"]]> ∅) |}.

(** Two regions under one code. *)
Definition sameCodeTwice : sourceData :=
  {| excelGenerator.metadata := Some releaseMetadata;
     regions := Some [region "us-east-1" "US East (N. Virginia)" 6 None;
                      region "us-east-1" "US East (Ohio)" 3 None];
     services := Some [Service.make "s3" "s3"];
     servicesByRegion := Some (<["us-east-1" := ["s3"]]> ∅) |}.

(** Three regions, none of which offers [s3]; the mapping lists it
    under a key that is no listed region. *)
Definition offeredElsewhere : sourceData :=
  {| excelGenerator.metadata := Some releaseMetadata;
     regions := Some [region "us-east-1" "US East (N. Virginia)" 6 None;
                      region "eu-west-1" "Europe (Ireland)" 3 None;
                      region "ap-south-1" "Asia Pacific (Mumbai)" 3 None];
     services := Some [Service.make "s3" "s3"];
     servicesByRegion := Some (<["us-gov-west-1" := ["s3"]]> ∅) |}.

(** One region that offers [s3] and not [glacier]. *)
Definition oneUnoffered : sourceData :=
  {| excelGenerator.metadata := Some releaseMetadata;
     regions := Some [region "us-east-1" "US East (N. Virginia)" 6 None];
     services := Some [Service.make "s3" "s3"; Service.make "glacier" "glacier"];
     servicesByRegion := Some (<["us-east-1" := ["s3"]]> ∅) |}.

(** [count] regions named [r0], [r1], ... *)
Definition numberedCode (i : nat) : string := "r" +:+ pretty i.

Definition numbered (count : nat) : list Region.t :=
  (λ i, region (numberedCode i) "" 3 None) <$> seq 0 count.

(** [total] regions, [s3] offered in the first [offering] of them. *)
Definition spread (total offering : nat) : sourceData :=
  {| excelGenerator.metadata := Some releaseMetadata;
     regions := Some (numbered total);
     services := Some [Service.make "s3" "Amazon S3"];
     servicesByRegion :=
       Some (list_to_map ((λ i, (numberedCode i, ["s3"])) <$> seq 0 offering)) |}.

(** A thousand and one regions, [s3] offered in five hundred of them. *)
Definition manyRegions : sourceData := spread 1001 500.

(** Two records that spell their name twice, differently. *)
Definition twoSpellings : list Service.t :=
  [ {| Service.code := Some "x"; Service.serviceCode := None; Service.ServiceCode := None;
       Service.name := Some "B"; Service.serviceName := Some "A";
       Service.ServiceName := None |};
    {| Service.code := Some "y"; Service.serviceCode := None; Service.ServiceCode := None;
       Service.name := Some "A"; Service.serviceName := Some "B";
       Service.ServiceName := None |} ].

(** *** A source document, an S3 bucket and a configuration *)

Import Run archiveManager index.

Definition NOW : Z := 1760580000000.

(** The clock and the environment the Summary sheet reads. *)
#[export] Instance summaryHost : SummaryHost :=
  {| generatedAt := NOW;
     timestampFallback := NOW;
     SOURCE_BUCKET := Some "aws-data-fetcher-output";
     SOURCE_KEY := Some "aws-data/complete-data.json" |}.

Definition archived (key : string) (ageDays : Z) : S3Object :=
  {| Key := key; LastModified := (NOW - ageDays * MS_PER_DAY)%Z |}.

(** Archives that are 1, 5, 8 and 10 days old. *)
Definition fourArchives : list S3Object :=
  [archived "archive/a.xlsx" 1; archived "archive/b.xlsx" 5;
   archived "archive/c.xlsx" 8; archived "archive/d.xlsx" 10].

(** A bucket where every request goes through. *)
Definition healthyS3 (objects : list S3Object) : S3 :=
  {| putObject := λ _ _ _, inr tt;
     listObjectsV2 := λ _ _, inr objects;
     deleteObject := λ _ _, inr tt;
     copyObject := λ _ _ _, inr tt;
     now := NOW;
     LocalTZA := λ _ _, 0%Z;
     timestamp := "2025-10-16-020000" |}.

(** The same bucket when the copy to the distribution bucket is denied. *)
Definition mirrorDownS3 (objects : list S3Object) : S3 :=
  {| putObject := λ _ _ _, inr tt;
     listObjectsV2 := λ _ _, inr objects;
     deleteObject := λ _ _, inr tt;
     copyObject := λ _ _ _, inl (Error "Access Denied");
     now := NOW;
     LocalTZA := λ _ _, 0%Z;
     timestamp := "2025-10-16-020000" |}.

Definition document : SourceDocument :=
  {| index.metadata := Some releaseMetadata;
     index.regions :=
       Some (Nested [region "us-east-1" "US East (N. Virginia)" 6 (Some "2006-08-25");
                     region "eu-west-1" "Europe (Ireland)" 3 None]);
     index.services := Some (Direct ["s3"; "ec2"; "lambda"]);
     index.servicesByRegion :=
       Some {| byRegion :=
                 Some (<["us-east-1" := EObject (Some ["s3"; "ec2"; "lambda"])]>
                       (<["eu-west-1" := EArray ["s3"]]> ∅));
               ownKeys := ∅ |} |}.

(** Regions and services are there, the coverage mapping is not. *)
Definition withoutCoverage : SourceDocument :=
  {| index.metadata := Some releaseMetadata;
     index.regions := index.regions document;
     index.services := index.services document;
     index.servicesByRegion := None |}.

(** Regions and services are there, [metadata] is not. *)
Definition withoutMetadata : SourceDocument :=
  {| index.metadata := None;
     index.regions := index.regions document;
     index.services := index.services document;
     index.servicesByRegion := None |}.

Definition config : Config :=
  {| sourceBucket := "aws-data-fetcher-output";
     sourceKey := "aws-data/complete-data.json";
     reportBucket := "aws-service-reports";
     reportPrefix := "reports/";
     archivePrefix := "archive/";
     latestReportName := "aws-service-report-latest.xlsx";
     archiveRetentionDays := 7;
     snsTopicArn := "arn:aws:sns:us-east-1:000000000000:reports";
     distributionBucket := Some "www.example.org";
     distributionKey := Some "reports/aws-service-report-latest.xlsx" |}.

Definition env (s3 : S3) (doc : SourceDocument) : Env :=
  {| s3Client := s3;
     readSourceData := inr doc;
     readServicesData := [("s3", "Amazon Simple Storage Service");
                          ("ec2", "Amazon Elastic Compute Cloud")];
     writeBuffer := λ _, inr 8192%N |}.
End Sample.

(* ===================================================================== *)
(** * Vocabulary of the statements                                        *)
(* ===================================================================== *)

(** The definitions below are not part of the program: they name what the
    statements of the second half talk about. *)

Section numbers.
Import JS.

(** Half a unit in the last place of 1, that is 2^-53. *)
Definition ulp_half : Q := 1 # 9007199254740992.

(** [(c / t) * 100] on two integers. *)
Definition percentQ (c t : Z) : Q := mul (div (inject_Z c) (inject_Z t)) 100.

(** [(regionCount / totalRegions) * 100] *)
Definition percentOf (regionCount : N) (totalRegions : nat) : Q :=
  mul (div (inject_Z (Z.of_N regionCount)) (inject_Z (Z.of_nat totalRegions))) 100.

(** The tenths [toFixed(1)] displays for it. *)
Definition displayedTenths (regionCount : N) (totalRegions : nat) : N :=
  tenths (percentOf regionCount totalRegions).

(** [n] tenths of a percent as a cell shows them: the whole part, a
    point, one digit and the percent sign. *)
Definition tenthsText (n : N) : string :=
  pretty (n / 10)%N +:+ "." +:+ pretty (n mod 10)%N +:+ "%".

(** A string of decimal digits. *)
Definition all_digits (s : string) : Prop :=
  Forall (λ c, is_Some (digit_value c)) (list_ascii_of_string s).
End numbers.

Section comparators.
(** A consistent comparator, in the sense [Array.prototype.sort] asks for. *)
Class Consistent {A : Type} (cmp : A → A → Z) : Prop := {
  cmp_antisym a b : Z.sgn (cmp b a) = (- Z.sgn (cmp a b))%Z;
  cmp_trans a b c : (cmp a b <= 0)%Z → (cmp b c <= 0)%Z → (cmp a c <= 0)%Z;
}.

Definition notGreater {A : Type} (cmp : A → A → Z) (a b : A) : Prop :=
  (cmp a b <= 0)%Z.
Definition sameRank {A : Type} (cmp : A → A → Z) (a b : A) : Prop :=
  cmp a b = 0%Z.

#[global] Instance sameRank_dec {A : Type} (cmp : A → A → Z) a b :
  Decision (sameRank cmp a b).
Proof. unfold sameRank. apply _. Defined.
End comparators.

Section canonical_models.
Import JS excelGenerator.

(** How often a code is listed in one region's array, and in the whole
    coverage mapping. *)
Definition occurrencesIn (services : list string) (code : string) : nat :=
  length (filter (λ c, c = code) services).

Definition occurrences (servicesByRegion : gmap string (list string))
    (code : string) : nat :=
  map_fold (λ _ services acc, occurrencesIn services code + acc) 0 servicesByRegion.

Definition regionCodes (data : sourceData) : list string :=
  region_code <$> default [] (regions data).

Definition coverage (data : sourceData) : gmap string (list string) :=
  default ∅ (servicesByRegion data).

Definition totalRegions (data : sourceData) : nat :=
  length (default [] (regions data)).

(** Well-formed canonical models: region codes identify regions, every
    key of the coverage mapping is the code of a listed region, and the
    value under a key is a set: no code is listed twice. *)
Definition valid (data : sourceData) : Prop :=
  NoDup (regionCodes data)
  ∧ map_Forall (λ k _, k ∈ regionCodes data) (coverage data)
  ∧ map_Forall (λ _ l, NoDup l) (coverage data).

#[global] Instance valid_dec data : Decision (valid data).
Proof. unfold valid. apply _. Defined.

(** The coverage set of a region in the canonical model: the codes the
    mapping holds under the code of the region, none when it holds no
    entry for it. *)
Definition coverageSet (m : gmap string (list string)) (regionCode : string)
    : list string :=
  default [] (m !! regionCode).

(** The regions whose coverage set contains the code. *)
Definition offers (m : gmap string (list string)) (code : string)
    (region : Region.t) : Prop :=
  code ∈ coverageSet m (region_code region).

#[global] Instance offers_dec m code region : Decision (offers m code region).
Proof. unfold offers. apply _. Defined.

Definition regionsOffering (data : sourceData) (code : string) : nat :=
  length (filter (offers (coverage data) code) (default [] (regions data))).

(** Every key of the coverage mapping is the code of a listed region. *)
Definition keysListed (data : sourceData) : Prop :=
  map_Forall (λ k _, k ∈ regionCodes data) (coverage data).

#[global] Instance keysListed_dec data : Decision (keysListed data).
Proof. unfold keysListed. apply _. Defined.

(** C1 as stated, of one model: every row shows a nearest tenth of
    100 * offering / total, between 0 and 100, and "0%" when there is
    no region. *)
Definition showsCoverage `{Collation} (data : sourceData) : Prop :=
  ∀ row, row ∈ createServicesSheet data →
    let total := totalRegions data in
    let offering := regionsOffering data (serviceCode row) in
    (total = 0 → coveragePercent row = "0%")
    ∧ (0 < total →
       ∃ n : N,
         coveragePercent row = tenthsText n
         ∧ (2 * Z.abs (Z.of_N n * Z.of_nat total - 1000 * Z.of_nat offering)
            <= Z.of_nat total)%Z
         ∧ (0 <= n <= 1000)%N).

(** The row the Services sheet shows for a service. *)
Definition rowOf (data : sourceData) (service : Service.t) : ServiceRow :=
  serviceRow (serviceRegionCounts (coverage data)) (totalRegions data) service.

(** The style bands, read on a number of tenths. *)
Definition bandOfTenths (n : N) : font :=
  if (n =? 1000)%N then GREEN_BOLD
  else if (750 <=? n)%N then LIGHT_GREEN
  else if (500 <=? n)%N then ORANGE
  else if (0 <? n)%N then RED
  else GRAY_ITALIC.

(** The bands of C2 read on the exact coverage fraction: what the
    claim asks of a model. *)
Definition styledByTrueFraction `{Collation} (data : sourceData) : Prop :=
  ∀ row, row ∈ createServicesSheet data →
    let total := Z.of_nat (totalRegions data) in
    let offering := Z.of_nat (regionsOffering data (serviceCode row)) in
    ((0 < total)%Z → offering = total → coverageFont row = GREEN_BOLD)
    ∧ ((75 * total <= 100 * offering < 100 * total)%Z →
       coverageFont row = LIGHT_GREEN)
    ∧ ((50 * total <= 100 * offering < 75 * total)%Z → coverageFont row = ORANGE)
    ∧ ((0 < 100 * offering < 50 * total)%Z → coverageFont row = RED)
    ∧ (offering = 0%Z → coverageFont row = GRAY_ITALIC).

(** The launch date the Regions sheet starts from. *)
Definition launchDateOf (region : Region.t) : string :=
  or_lit (or (Region.launchDate region) (Region.LaunchDate region)) "".

(** The placeholder of the Service Coverage sheet. *)
Definition NOT_AVAILABLE : CoverageSheet :=
  NotAvailable
    {| mergedCells := "A1:E5";
       message := "Service-by-region mapping not available in source data";
       messageItalic := true;
       horizontal := "center";
       vertical := "middle" |}.
End canonical_models.

Section sample_rows.
Import JS excelGenerator Sample.

Definition ec2Row : ServiceRow :=
  {| serviceCode := "ec2"; serviceName := "ec2"; availableRegions := 1;
     coveragePercent := "50.0%"; coverageFont := ORANGE |}.

Definition s3WithoutRegions : ServiceRow :=
  {| serviceCode := "s3"; serviceName := "s3"; availableRegions := 0;
     coveragePercent := "0%"; coverageFont := GRAY_ITALIC |}.

Definition s3InManyRegions : ServiceRow :=
  {| serviceCode := "s3"; serviceName := "Amazon S3"; availableRegions := 500;
     coveragePercent := "50.0%"; coverageFont := ORANGE |}.

(** A service listed twice where one region is listed. *)
Definition s3CountedTwice : ServiceRow :=
  {| serviceCode := "s3"; serviceName := "s3"; availableRegions := 2;
     coveragePercent := "200.0%"; coverageFont := LIGHT_GREEN |}.

(** A service counted once where two regions offer it. *)
Definition s3CountedOnce : ServiceRow :=
  {| serviceCode := "s3"; serviceName := "s3"; availableRegions := 1;
     coveragePercent := "50.0%"; coverageFont := ORANGE |}.

(** A service counted for a region that is not listed. *)
Definition s3Elsewhere : ServiceRow :=
  {| serviceCode := "s3"; serviceName := "s3"; availableRegions := 1;
     coveragePercent := "33.3%"; coverageFont := RED |}.

(** A service no region offers. *)
Definition glacierRow : ServiceRow :=
  {| serviceCode := "glacier"; serviceName := "glacier"; availableRegions := 0;
     coveragePercent := "0.0%"; coverageFont := GRAY_ITALIC |}.

Definition unparseable : Region.t :=
  region "us-east-1" "US East (N. Virginia)" 6 (Some "not-a-date").
End sample_rows.

Section source_documents.
Import JS index.

Definition NULL_ENTRY : exn :=
  TypeError "Cannot read properties of null (reading 'services')".

(** What one entry of the coverage object flattens to. *)
Definition flat (regionData : coverage_entry) : option (list string) :=
  match regionData with
  | EArray codes => Some codes
  | EObject services => services
  | ENull => None
  end.

Definition hasNull (raw : gmap string coverage_entry) : Prop :=
  ∃ regionCode, raw !! regionCode = Some ENull.



(** C7 as stated: the run is only ever aborted for want of the regions
    or the services container. *)
Definition abortsOnlyWithoutContainers : Prop :=
  ∀ doc names e,
    normalize doc names = inl e → regions doc = None ∨ services doc = None.
End source_documents.

Section runs.
Import JS Run archiveManager index.

(** An upload goes through when one of the three attempts does. *)
Definition uploadable (s3Client : S3) (bucket key : string) : Prop :=
  ∃ attempt u, (1 ≤ attempt ≤ 3)%nat ∧ putObject s3Client bucket key attempt = inr u.

Definition archiveKeyOf (s3Client : S3) (archivePrefix : string) : string :=
  archivePrefix +:+ "aws-service-report-" +:+ timestamp s3Client +:+ ".xlsx".

Definition deletionSucceeds (s3Client : S3) (bucket : string) (obj : S3Object) : bool :=
  match deleteObject s3Client bucket (Key obj) with
  | inr _ => true
  | inl _ => false
  end.

(** What the sweep leaves in the trace for an expired object. *)
Definition deletionEvent (s3Client : S3) (bucket : string) (obj : S3Object) : event :=
  if deletionSucceeds s3Client bucket obj then Deleted bucket (Key obj)
  else DeleteFailed bucket (Key obj).

(** The local time of the process is at a fixed offset from UTC, as it
    is in the UTC of the Lambda runtime. *)
Definition fixedOffset (s3Client : S3) : Prop :=
  ∃ offset, ∀ t isUTC, LocalTZA s3Client t isUTC = offset.

(** The objects of a listing modified before, or not before, an instant. *)
Definition olderThan (instant : Z) (objects : list S3Object) : list S3Object :=
  filter (λ obj, (LastModified obj < instant)%Z) objects.

Definition notOlderThan (instant : Z) (objects : list S3Object) : list S3Object :=
  filter (λ obj, (instant <= LastModified obj)%Z) objects.

(** What [distributeReports] returns when the copy throws. *)
Definition copyFailure (e : exn) : DistributionResult :=
  {| distributed := false; reason := None; distributionPath := None;
     error := Some (message e); errorType := Some (name e) |}.

Definition latestKey (config : Config) : string :=
  reportPrefix config +:+ latestReportName config.

Definition archiveKey (env : Env) (config : Config) : string :=
  archiveKeyOf (s3Client env) (archivePrefix config).

(** The uploads of a run that reached them and both went through. *)
Definition uploads (env : Env) (config : Config) : list event :=
  [Uploaded (reportBucket config) (latestKey config);
   Uploaded (reportBucket config) (archiveKey env config)].

(** The notification a run ends with once its report is uploaded. *)
Definition closingNotification (retention : result RetentionResult) : notification :=
  match retention with
  | inr _ => SuccessNotification
  | inl retentionError => WarningNotification (message retentionError)
  end.

Definition successMetricsOf (env : Env) (config : Config) (doc : SourceDocument)
    (normalizedData : excelGenerator.sourceData) (reportSize : N)
    (distribution : DistributionResult) (retention : result RetentionResult)
    : Metrics :=
  {| regionCount := length (default [] (excelGenerator.regions normalizedData));
     serviceCount := length (default [] (excelGenerator.services normalizedData));
     serviceMappingCount :=
       mappingCount (default ∅ (excelGenerator.servicesByRegion normalizedData));
     reportSizeBytes := reportSize;
     dataSchemaVersion :=
       match metadata doc with
       | Some md => or_lit (or (Metadata.version md) (Metadata.schemaVersion md)) "Unknown"
       | None => "Unknown"
       end;
     latestReportKey := latestKey config;
     archiveReportKey := archiveKey env config;
     distributionResult := distribution;
     archivedReportsRetained :=
       match retention with
       | inr r => Num (Z.of_nat (retained r))
       | inl _ => Str "Unknown"
       end;
     archivedReportsDeleted :=
       match retention with
       | inr r => deleted r
       | inl _ => 0
       end |}.

(** The runs C9 is about: everything goes through except the copy to
    the distribution bucket, which is configured and throws [e]. *)
Record onlyMirrorFails `{Collation, DateParser, utils.Intl, excelGenerator.SummaryHost}
    (env : Env) (config : Config) (e : exn) : Prop := {
  source_read :
    ∃ doc normalizedData report reportSize,
      readSourceData env = inr doc
      ∧ normalize doc (readServicesData env) = inr normalizedData
      ∧ excelGenerator.generateExcelReport normalizedData = inr report
      ∧ writeBuffer env report = inr reportSize;
  latest_uploaded : uploadable (s3Client env) (reportBucket config) (latestKey config);
  archive_uploaded :
    uploadable (s3Client env) (reportBucket config) (archiveKey env config);
  mirror_configured :
    truthy (distributionBucket config) = true
    ∧ truthy (distributionKey config) = true;
  mirror_fails :
    copyObject (s3Client env) (or_lit (distributionBucket config) "")
      (reportBucket config +:+ "/" +:+ latestKey config)
      (or_lit (distributionKey config) "")
    = inl e;
  archives_listed :
    ∃ objects,
      listObjectsV2 (s3Client env) (reportBucket config) (archivePrefix config)
      = inr objects;
}.

(** C9 as stated: such a run dispatches a warning notification. *)
Definition mirrorFailureWarns : Prop :=
  ∀ (collation : Collation) (dateParser : DateParser) (intl : utils.Intl)
    (summaryHost : excelGenerator.SummaryHost) env config e,
    onlyMirrorFails env config e →
    ∃ warning, Notified (WarningNotification warning) ∈ (handler env config).2.
End runs.

Section decimals.
Import JS.

(** [n] hundredths written with two decimals. *)
Definition twoDecimals (n : N) : string :=
  pretty (n / 100)%N +:+ "." +:+ digit ((n / 10) mod 10)%N +:+ digit (n mod 10)%N.
End decimals.

Section sheets.
Import JS excelGenerator.

(** The Service Count column of the Regions sheet holds these numbers. *)
Definition serviceCounts (rows : list RegionRow) (counts : list nat) : Prop :=
  serviceCount <$> rows = Some <$> counts.

(** The check marks in a row of the coverage matrix. *)
Definition checks (row : CoverageRow) : nat :=
  length (filter (λ mark, mark = "✓") (marks row)).

(** A region reads an array from the coverage mapping when its code is
    a key of the mapping or names no property of [Object.prototype]. *)
Definition readsArray (m : gmap string (list string)) (regionCode : string) : Prop :=
  is_Some (m !! regionCode) ∨ Object_prototype !! regionCode = None.

#[global] Instance readsArray_dec m regionCode : Decision (readsArray m regionCode).
Proof. unfold readsArray. apply _. Defined.

(** Every listed region does. *)
Definition readsArrays (data : sourceData) : Prop :=
  Forall (readsArray (coverage data)) (regionCodes data).

#[global] Instance readsArrays_dec data : Decision (readsArrays data).
Proof. unfold readsArrays. apply _. Defined.

(** What the matrix loop throws on a region that reads no array. *)
Definition NOT_AN_ARRAY : exn :=
  TypeError "servicesInRegion.includes is not a function".

(** The mark of a service under a region, and the row of a service,
    read on the coverage sets. *)
Definition markOf (m : gmap string (list string)) (serviceCode regionCode : string)
    : string :=
  if bool_decide (serviceCode ∈ coverageSet m regionCode) then "✓" else "✗".

Definition matrixRowOf (data : sourceData) (service : Service.t) : CoverageRow :=
  {| rowName := service_name service;
     marks := markOf (coverage data) (service_code service) <$> regionCodes data |}.

(** The check marks in the column of the [i]-th region. *)
Definition columnChecks (rows : list CoverageRow) (i : nat) : nat :=
  length (filter (λ row, marks row !! i = Some "✓") rows).

(** Service codes identify services, and every code the coverage
    mapping lists is the code of a listed service. *)
Definition listsServices (data : sourceData) : Prop :=
  NoDup (service_code <$> default [] (services data))
  ∧ map_Forall (λ _ l, Forall (.∈ service_code <$> default [] (services data)) l)
               (coverage data).

#[global] Instance listsServices_dec data : Decision (listsServices data).
Proof. unfold listsServices. apply _. Defined.

(** The letters of the [n]-th column of a sheet: A to Z, then AA, AB
    and so on. *)
Fixpoint columnLetters_go (fuel : nat) (n : N) : string :=
  match fuel with
  | 0 => ""
  | S fuel' =>
      if (n =? 0)%N then ""
      else columnLetters_go fuel' ((n - 1) / 26)
           +:+ String (ascii_of_N (65 + (n - 1) mod 26)) ""
  end.

Definition columnLetters (n : N) : string := columnLetters_go (N.to_nat n) n.

(** The address of the last cell of the header row of the coverage
    matrix: one column for the names and one per region. *)
Definition lastHeaderCell (data : sourceData) : string :=
  columnLetters (N.of_nat (S (totalRegions data))) +:+ "1".
End sheets.

Section uploads.
Import JS Run archiveManager.

(** The error of an upload that gave up after its last attempt. *)
Definition giveUp (key : string) (maxRetries : nat) (last : exn) : exn :=
  Error ("Failed to upload " +:+ key +:+ " after " +:+ pretty maxRetries
         +:+ " attempts: " +:+ message last).

(** What reading [lastError.message] throws when no attempt was made. *)
Definition NO_LAST_ERROR : exn :=
  TypeError "Cannot read properties of undefined (reading 'message')".
End uploads.

Section outcomes.
Import JS Run archiveManager index.

(** No attempt at the upload goes through. *)
Definition rejected (s3Client : S3) (bucket key : string) : Prop :=
  ∀ attempt, (1 ≤ attempt ≤ 3)%nat →
    ∃ e, putObject s3Client bucket key attempt = inl e.

(** The stages before the uploads: the source is read, validated and
    normalized, the four sheets are built and the workbook is written. *)
Definition prepared `{Collation, DateParser, utils.Intl, excelGenerator.SummaryHost}
    (env : Env) (doc : SourceDocument)
    (normalizedData : excelGenerator.sourceData) (reportSize : N) : Prop :=
  readSourceData env = inr doc
  ∧ normalize doc (readServicesData env) = inr normalizedData
  ∧ ∃ report,
      excelGenerator.generateExcelReport normalizedData = inr report
      ∧ writeBuffer env report = inr reportSize.

(** The stages a run cannot do without: those, and the two uploads. *)
Definition critical `{Collation, DateParser, utils.Intl, excelGenerator.SummaryHost}
    (env : Env) (config : Config) : Prop :=
  (∃ doc normalizedData reportSize, prepared env doc normalizedData reportSize)
  ∧ uploadable (s3Client env) (reportBucket config) (latestKey config)
  ∧ uploadable (s3Client env) (reportBucket config) (archiveKey env config).

Definition isFailure (n : notification) : Prop :=
  match n with
  | FailureNotification _ => True
  | _ => False
  end.

(** Events that are no notification. *)
Definition quiet (events : list event) : Prop := ∀ n, Notified n ∉ events.

(** Events that delete nothing. *)
Definition harmless (events : list event) : Prop :=
  ∀ bucket key,
    (Deleted bucket key ∉ events) ∧ (DeleteFailed bucket key ∉ events).

(** The answer of a run that failed with [error]. *)
Definition failed (error : exn) : Response :=
  {| statusCode := 500; body := ReportFailed (message error) (name error) |}.
End outcomes.

Section reading.
Import JS Run index.

(** Where the handler reads the names document. *)
Definition NAMES_KEY : string := "aws-data/services.json".

(** The environment of a run whose two documents come through
    [s3Operations.js]. *)
Definition envOf (reader : s3Operations.S3)
    (sourceJSON : s3Operations.JSON_parse SourceDocument)
    (namesJSON : s3Operations.JSON_parse s3Operations.ServicesDocument)
    (s3Client : archiveManager.S3)
    (writeBuffer : excelGenerator.Report → result N) (config : Config) : Env :=
  {| s3Client := s3Client;
     readSourceData :=
       s3Operations.readSourceData reader sourceJSON
         (sourceBucket config) (sourceKey config);
     readServicesData :=
       s3Operations.readServicesData reader namesJSON
         (sourceBucket config) NAMES_KEY;
     writeBuffer := writeBuffer |}.

(** An object cannot be fetched: the request fails, or the stream of
    its body does, or the body is no JSON. *)
Definition fetchFails {A} (reader : s3Operations.S3)
    (JSON : s3Operations.JSON_parse A) (bucket key : string)
    (failure : s3Operations.failure) : Prop :=
  s3Operations.getObject reader bucket key = inl failure
  ∨ (∃ body, s3Operations.getObject reader bucket key = inr body
             ∧ s3Operations.failed body = Some failure)
  ∨ (∃ body msg,
       s3Operations.getObject reader bucket key = inr body
       ∧ s3Operations.failed body = None
       ∧ JSON (foldr String.append "" (s3Operations.chunks body)) = inl msg
       ∧ failure = {| s3Operations.name := "SyntaxError";
                      s3Operations.message := msg |}).

(** The name the names document gives a code: that of the last record
    listing it. *)
Definition listedName (names : list (string * string)) (code : string)
    : option string :=
  snd <$> last (filter (λ record, record.1 = code) names).
End reading.

(** ** More sample data *)

Module Scenario.
Import JS Run archiveManager index Sample.

(** The Summary sheet of the two sample regions. *)
Definition twoRegionsSummary : list (string * JS.strnum) :=
  [ ("", Str ""); ("Field", Str "Value");
    ("Report Generated", Str "2025-10-15 21:00:00 EST");
    ("Data Source", Str "s3://aws-data-fetcher-output/aws-data/complete-data.json");
    ("Schema Version", Str "1.0");
    ("Data Timestamp", Str "2025-10-15 21:00:00 EST");
    ("", Str "");
    ("Total AWS Regions", Num 2);
    ("Total AWS Services", Num 3);
    ("Service-by-Region Mappings", Num 4) ].

(** A document with a region that has no entry in the coverage object,
    and one whose code names a property every object inherits. *)
Definition strayRegions : SourceDocument :=
  {| index.metadata := Some releaseMetadata;
     index.regions :=
       Some (Direct [region "us-east-1" "US East (N. Virginia)" 6 None;
                     region "constructor" "Constructor" 1 None;
                     region "eu-west-1" "Europe (Ireland)" 3 None]);
     index.services := Some (Direct ["s3"; "ec2"]);
     index.servicesByRegion :=
       Some {| byRegion := None;
               ownKeys := <["us-east-1" := EArray ["s3"; "ec2"]]> ∅ |} |}.

(** The sample document under a time stamp that is no date. *)
Definition undated : SourceDocument :=
  {| index.metadata :=
       Some {| Metadata.schemaVersion := Some "1.0"; Metadata.version := None;
               Metadata.timestamp := Some "yesterday" |};
     index.regions := index.regions document;
     index.services := index.services document;
     index.servicesByRegion := index.servicesByRegion document |}.

(** The row of a service that a region outside the list offers too. *)
Definition s3Overcounted : excelGenerator.ServiceRow :=
  {| excelGenerator.serviceCode := "s3"; excelGenerator.serviceName := "s3";
     excelGenerator.availableRegions := 2;
     excelGenerator.coveragePercent := "200.0%";
     excelGenerator.coverageFont := excelGenerator.LIGHT_GREEN |}.

(** The row of a service that both sample regions offer. *)
Definition s3Everywhere : excelGenerator.ServiceRow :=
  {| excelGenerator.serviceCode := "s3"; excelGenerator.serviceName := "s3";
     excelGenerator.availableRegions := 2;
     excelGenerator.coveragePercent := "100.0%";
     excelGenerator.coverageFont := excelGenerator.GREEN_BOLD |}.

(** What normalization makes of the sample document. *)
Definition normalized : excelGenerator.sourceData :=
  {| excelGenerator.metadata := Some releaseMetadata;
     excelGenerator.regions :=
       Some [region "us-east-1" "US East (N. Virginia)" 6 (Some "2006-08-25");
             region "eu-west-1" "Europe (Ireland)" 3 None];
     excelGenerator.services :=
       Some [Service.make "s3" "Amazon Simple Storage Service";
             Service.make "ec2" "Amazon Elastic Compute Cloud";
             Service.make "lambda" "lambda"];
     excelGenerator.servicesByRegion :=
       Some (<["us-east-1" := ["s3"; "ec2"; "lambda"]]>
             (<["eu-west-1" := ["s3"]]> ∅)) |}.

(** A bucket whose archive prefix cannot be listed. *)
Definition unlistableS3 : S3 :=
  {| putObject := λ _ _ _, inr tt;
     listObjectsV2 := λ _ _, inl (Error "Access Denied");
     deleteObject := λ _ _, inr tt;
     copyObject := λ _ _ _, inr tt;
     now := NOW;
     LocalTZA := λ _ _, 0%Z;
     timestamp := "2025-10-16-020000" |}.

(** A bucket that takes the latest report and nothing else. *)
Definition archiveDownS3 : S3 :=
  {| putObject :=
       λ _ key _, if String.eqb key "reports/aws-service-report-latest.xlsx"
                  then inr tt else inl (Error "Slow Down");
     listObjectsV2 := λ _ _, inr [];
     deleteObject := λ _ _, inr tt;
     copyObject := λ _ _ _, inr tt;
     now := NOW;
     LocalTZA := λ _ _, 0%Z;
     timestamp := "2025-10-16-020000" |}.

(** A bucket that takes nothing. *)
Definition readOnlyS3 : S3 :=
  {| putObject := λ _ _ _, inl (Error "Access Denied");
     listObjectsV2 := λ _ _, inr [];
     deleteObject := λ _ _, inr tt;
     copyObject := λ _ _ _, inr tt;
     now := NOW;
     LocalTZA := λ _ _, 0%Z;
     timestamp := "2025-10-16-020000" |}.

(** A source bucket without the objects asked for. *)
Definition NO_SUCH_KEY : s3Operations.failure :=
  {| s3Operations.name := "NoSuchKey";
     s3Operations.message := "The specified key does not exist." |}.

Definition emptyReader : s3Operations.S3 :=
  {| s3Operations.getObject := λ _ _, inl NO_SUCH_KEY |}.

(** A source bucket that holds the sample document and no names. *)
Definition sourceOnlyReader : s3Operations.S3 :=
  {| s3Operations.getObject :=
       λ _ key, if String.eqb key "aws-data/complete-data.json"
                then inr {| s3Operations.chunks := ["{ ... "; "... }"];
                            s3Operations.failed := None |}
                else inl NO_SUCH_KEY |}.

Definition sourceJSON : s3Operations.JSON_parse SourceDocument :=
  λ text, if String.eqb text "{ ... ... }" then inr document
          else inl "Unexpected end of JSON input".

Definition namesJSON : s3Operations.JSON_parse s3Operations.ServicesDocument :=
  λ _, inl "Unexpected end of JSON input".

(** A run whose source cannot be read. *)
Definition sourceless : Env :=
  {| s3Client := healthyS3 [];
     readSourceData := inl (Error "Failed to read source data from S3: timeout");
     readServicesData := [];
     writeBuffer := λ _, inr 8192%N |}.
End Scenario.

(** ** Rounding to binary64 *)

Section binary64.
Import JS.
Local Open Scope Q_scope.

Lemma round_half_even_near y :
  y - (1 # 2) <= inject_Z (round_half_even y) /\ inject_Z (round_half_even y) <= y + (1 # 2).
Proof.
  unfold round_half_even.
  pose proof (Qfloor_le y) as Hlo. pose proof (Qlt_floor y) as Hhi.
  rewrite inject_Z_plus in Hhi. change (inject_Z 1) with 1 in Hhi.
  destruct (y - inject_Z (Qfloor y) ?= 1 # 2) eqn:Hc;
    [apply Qeq_alt in Hc; destruct (Z.even (Qfloor y))
    |apply Qlt_alt in Hc
    |apply Qgt_alt in Hc];
    rewrite ?inject_Z_plus; change (inject_Z 1) with 1;
    generalize dependent (inject_Z (Qfloor y)); intros K **; lra.
Qed.

Lemma log2_floor_le x : 0 < x -> 2 ^ log2_floor x <= x.
Proof.
  intros Hx. destruct x as [p q]. unfold log2_floor. cbn [Qnum Qden].
  set (a := Z.log2 p). set (b := Z.log2 (Z.pos q)).
  destruct (Qle_bool (2 ^ (a - b)) (p # q)) eqn:Ht; [by apply Qle_bool_iff|].
  clear Ht.
  assert (0 < p)%Z as Hp by (unfold Qlt in Hx; simpl in Hx; lia).
  pose proof (Z.log2_spec p Hp) as [HA _]. fold a in HA.
  pose proof (Z.log2_spec (Z.pos q) eq_refl) as [_ HB]. fold b in HB.
  assert (0 <= a)%Z by apply Z.log2_nonneg.
  assert (0 <= b)%Z by apply Z.log2_nonneg.
  replace (a - b - 1)%Z with (a - Z.succ b)%Z by lia.
  rewrite Qpower_minus by discriminate.
  change 2 with (inject_Z 2).
  rewrite <-(Zpower_Qpower 2 a), <-(Zpower_Qpower 2 (Z.succ b)) by lia.
  assert (0 < 2 ^ a)%Z by (apply Z.pow_pos_nonneg; lia).
  apply Qle_shift_div_r.
  - change 0 with (inject_Z 0). rewrite <-Zlt_Qlt. lia.
  - unfold Qle, Qmult, inject_Z. simpl. nia.
Qed.

Lemma binary64_pos_error x :
  0 < x ->
  x * (1 - ulp_half) <= binary64_pos x /\ binary64_pos x <= x * (1 + ulp_half).
Proof.
  intros Hx. unfold binary64_pos.
  pose proof (log2_floor_le x Hx) as He.
  set (e := log2_floor x) in *.
  destruct (round_half_even_near (x * 2 ^ (52 - e))) as [Hlo Hhi].
  set (M := inject_Z (round_half_even (x * 2 ^ (52 - e)))) in *.
  assert (0 < 2 ^ (e - 52)) as Hs by (by apply Qpower_0_lt).
  assert (2 ^ (52 - e) * 2 ^ (e - 52) == 1) as Hinv.
  { rewrite <-Qpower_plus by discriminate.
    by replace (52 - e + (e - 52))%Z with 0%Z by lia. }
  assert (2 ^ (e - 52) == 2 ^ e * (1 # 4503599627370496)) as Hsplit.
  { replace (e - 52)%Z with (e + -52)%Z by lia.
    rewrite Qpower_plus by discriminate. reflexivity. }
  set (s := 2 ^ (52 - e)) in *. set (s' := 2 ^ (e - 52)) in *.
  set (E := 2 ^ e) in *.
  assert ((x * s - (1 # 2)) * s' <= M * s') as H1
    by (apply Qmult_le_compat_r; lra).
  assert (M * s' <= (x * s + (1 # 2)) * s') as H2
    by (apply Qmult_le_compat_r; lra).
  assert (x * s * s' == x) as Hx1.
  { rewrite <-Qmult_assoc, Hinv. ring. }
  clearbody M s s' E. unfold ulp_half. split; lra.
Qed.

Lemma binary64_of_zero x : Qnum x = 0%Z -> binary64 x = 0.
Proof. intros Hx. unfold binary64. by rewrite Hx. Qed.

Lemma binary64_error x :
  0 < x -> x * (1 - ulp_half) <= binary64 x /\ binary64 x <= x * (1 + ulp_half).
Proof.
  intros Hx. unfold binary64.
  destruct (Qnum x) as [|k|k] eqn:Hn.
  - exfalso. destruct x as [a b]. unfold Qlt in Hx. simpl in *. lia.
  - by apply binary64_pos_error.
  - exfalso. destruct x as [a b]. unfold Qlt in Hx. simpl in *. lia.
Qed.

Lemma binary64_nonneg x : 0 <= x -> 0 <= binary64 x.
Proof.
  intros Hx. destruct (Qnum x) as [|k|k] eqn:Hn.
  - rewrite binary64_of_zero by done. lra.
  - assert (0 < x) as Hpos.
    { destruct x as [a b]. unfold Qlt. simpl in *. lia. }
    destruct (binary64_error x Hpos) as [Hlo _]. unfold ulp_half in Hlo.
    assert (0 <= x * (1 - (1 # 9007199254740992))); [|lra].
    apply Qmult_le_0_compat; lra.
  - exfalso. destruct x as [a b]. unfold Qle in Hx. simpl in *. lia.
Qed.

Lemma percentQ_nonneg c t : (0 <= c)%Z -> (0 < t)%Z -> 0 <= percentQ c t.
Proof.
  intros Hc Ht. unfold percentQ, mul, div.
  apply binary64_nonneg. apply Qmult_le_0_compat; [|lra].
  apply binary64_nonneg. apply Qle_shift_div_l.
  - change 0 with (inject_Z 0). rewrite <-Zlt_Qlt. lia.
  - rewrite Qmult_0_l. change 0 with (inject_Z 0). rewrite <-Zle_Qle. lia.
Qed.

Lemma percentQ_zero t : percentQ 0 t = 0.
Proof.
  unfold percentQ, mul, div.
  rewrite (binary64_of_zero (inject_Z 0 / inject_Z t)) by reflexivity.
  by apply binary64_of_zero.
Qed.

Lemma percentQ_nearest c t :
  (0 <= c < 2 ^ 40)%Z -> (0 < t)%Z ->
  (2 * Z.abs (Qfloor (percentQ c t * 10 + (1 # 2)) * t - 1000 * c) <= t)%Z.
Proof.
  intros [Hc0 Hc] Ht.
  destruct (Z.eq_dec c 0%Z) as [->|Hne].
  { rewrite percentQ_zero. change (Qfloor (0 * 10 + (1 # 2))) with 0%Z. lia. }
  set (C := inject_Z c). set (T := inject_Z t).
  assert (0 < T) as HT by (unfold T; change 0 with (inject_Z 0); rewrite <-Zlt_Qlt; lia).
  assert (1 <= C) as HC1 by (unfold C; change 1 with (inject_Z 1); rewrite <-Zle_Qle; lia).
  assert (C <= 1099511627775) as HC2.
  { unfold C. change 1099511627775 with (inject_Z 1099511627775).
    rewrite <-Zle_Qle. lia. }
  set (q0 := C / T).
  assert (q0 * T == C) as Hq0 by (unfold q0; field; lra).
  assert (0 < q0) as Hq0pos.
  { unfold q0. apply Qlt_shift_div_l; lra. }
  unfold percentQ, mul, div. fold C T q0.
  destruct (binary64_error q0 Hq0pos) as [H1lo H1hi].
  set (x1 := binary64 q0) in *.
  assert (0 < x1 * 100) as Hx1pos.
  { unfold ulp_half in H1lo.
    assert (0 < q0 * (1 - (1 # 9007199254740992))); [|lra].
    apply Qmult_lt_0_compat; lra. }
  destruct (binary64_error (x1 * 100) Hx1pos) as [H2lo H2hi].
  set (x2 := binary64 (x1 * 100)) in *.
  pose proof (Qfloor_le (x2 * 10 + (1 # 2))) as Hnlo.
  pose proof (Qlt_floor (x2 * 10 + (1 # 2))) as Hnhi.
  set (n := Qfloor (x2 * 10 + (1 # 2))) in *.
  rewrite inject_Z_plus in Hnhi. change (inject_Z 1) with 1 in Hnhi.
  set (Nq := inject_Z n) in *.
  unfold ulp_half in *.
  assert (Nq * T <= (x2 * 10 + (1 # 2)) * T) as Ha
    by (apply Qmult_le_compat_r; lra).
  assert ((x2 * 10 + (1 # 2)) * T <= (Nq + 1) * T) as Hb
    by (apply Qmult_le_compat_r; lra).
  assert (x2 * T <= x1 * 100 * (1 + (1 # 9007199254740992)) * T) as Hc1
    by (apply Qmult_le_compat_r; lra).
  assert (x1 * 100 * (1 - (1 # 9007199254740992)) * T <= x2 * T) as Hc2
    by (apply Qmult_le_compat_r; lra).
  assert (x1 * T <= q0 * (1 + (1 # 9007199254740992)) * T) as Hd1
    by (apply Qmult_le_compat_r; lra).
  assert (q0 * (1 - (1 # 9007199254740992)) * T <= x1 * T) as Hd2
    by (apply Qmult_le_compat_r; lra).
  assert (Nq * T * 2 < 2000 * C + 1 + T) as Hup.
  { clearbody Nq x2 x1 q0 C T. lra. }
  assert (2000 * C < Nq * T * 2 + T + 1) as Hdown.
  { clearbody Nq x2 x1 q0 C T. lra. }
  assert (n * t * 2 < 2000 * c + 1 + t)%Z.
  { rewrite Zlt_Qlt, !inject_Z_plus, !inject_Z_mult. exact Hup. }
  assert (2000 * c < n * t * 2 + t + 1)%Z.
  { rewrite Zlt_Qlt, !inject_Z_plus, !inject_Z_mult. exact Hdown. }
  lia.
Qed.

(** The argument of [toFixed] stays far below 10^21, where the decimal
    notation would give way to the exponential one. *)
Lemma percentQ_below_limit c t :
  (0 <= c <= 2 ^ 53)%Z -> (0 < t)%Z -> percentQ c t < 1000000000000000000000.
Proof.
  intros [Hc0 Hc] Ht.
  destruct (Z.eq_dec c 0%Z) as [->|Hne]; [by rewrite percentQ_zero|].
  set (C := inject_Z c). set (T := inject_Z t).
  assert (1 <= T) as HT by (unfold T; change 1 with (inject_Z 1); rewrite <-Zle_Qle; lia).
  assert (1 <= C) as HC1 by (unfold C; change 1 with (inject_Z 1); rewrite <-Zle_Qle; lia).
  assert (C <= 9007199254740992) as HC2.
  { unfold C. change 9007199254740992 with (inject_Z 9007199254740992).
    rewrite <-Zle_Qle. lia. }
  set (q0 := C / T).
  assert (q0 * T == C) as Hq0 by (unfold q0; field; lra).
  assert (0 < q0) as Hq0pos by (unfold q0; apply Qlt_shift_div_l; lra).
  assert (0 <= q0 * (T - 1)) as Hq1 by (apply Qmult_le_0_compat; lra).
  unfold percentQ, mul, div. fold C T q0.
  destruct (binary64_error q0 Hq0pos) as [H1lo H1hi].
  set (x1 := binary64 q0) in *. unfold ulp_half in *.
  assert (0 < x1 * 100) as Hx1pos.
  { assert (0 < q0 * (1 - (1 # 9007199254740992))); [|lra].
    apply Qmult_lt_0_compat; lra. }
  destruct (binary64_error (x1 * 100) Hx1pos) as [_ H2hi].
  set (x2 := binary64 (x1 * 100)) in *. unfold ulp_half in *.
  clearbody x2 x1 q0 C T. lra.
Qed.
End binary64.

(* ===================================================================== *)
(** * Properties                                                          *)
(* ===================================================================== *)

(** ** Decimal strings: printing and reading back *)

Section decimal.
Import JS.

Lemma string_app_cons c s t : String c s +:+ t = String c (s +:+ t).
Proof. reflexivity. Qed.

Lemma string_app_assoc s t u : (s +:+ t) +:+ u = s +:+ (t +:+ u).
Proof.
  induction s as [|c s IH]; [done|].
  by rewrite !string_app_cons, IH.
Qed.

Lemma string_length_app s t :
  String.length (s +:+ t) = String.length s + String.length t.
Proof.
  induction s as [|c s IH]; [done|].
  rewrite string_app_cons. simpl. by rewrite IH.
Qed.

Lemma digit_value_pretty d :
  (d < 10)%N → digit_value (pretty_N_char d) = Some d.
Proof.
  intros Hd.
  assert (d = 0 ∨ d = 1 ∨ d = 2 ∨ d = 3 ∨ d = 4 ∨ d = 5 ∨ d = 6 ∨ d = 7
          ∨ d = 8 ∨ d = 9)%N as Hc by lia.
  repeat (destruct Hc as [->|Hc]; [reflexivity|]). by subst.
Qed.

(** Reading the digits of [x] in front of [s] shifts the accumulator by
    as many places as [x] has digits. *)
Lemma scan_pretty_go x : ∀ s acc k,
  ∃ j, scan_digits (pretty_N_go x s) acc k
       = scan_digits s (acc * 10 ^ N.of_nat j + x)%N (k + j)
     ∧ ((0 < x)%N → 0 < j).
Proof.
  induction (N.lt_wf_0 x) as [x _ IH]; intros s acc k.
  destruct (decide (x = 0%N)) as [->|Hx].
  - exists 0. rewrite pretty_N_go_0. split; [|lia].
    f_equal; [|lia]. simpl. lia.
  - rewrite pretty_N_go_step by lia.
    destruct (IH (x `div` 10)%N) with
      (s := String (pretty_N_char (x `mod` 10)) s) (acc := acc) (k := k)
      as (j & Hj & _).
    { apply N.div_lt; lia. }
    exists (S j). split; [|lia]. rewrite Hj. simpl.
    rewrite digit_value_pretty by (apply N.mod_lt; lia).
    f_equal; [|lia].
    rewrite Nat2N.inj_succ, N.pow_succ_r'.
    pose proof (N.div_mod x 10). lia.
Qed.

Lemma pretty_N_go_app x : ∀ s, pretty_N_go x s = pretty_N_go x "" +:+ s.
Proof.
  induction (N.lt_wf_0 x) as [x _ IH]; intros s.
  destruct (decide (x = 0%N)) as [->|Hx]; [by rewrite !pretty_N_go_0|].
  rewrite (pretty_N_go_step x s), (pretty_N_go_step x "") by lia.
  assert (x `div` 10 < x)%N as Hlt by (apply N.div_lt; lia).
  rewrite (IH _ Hlt (String _ s)), (IH _ Hlt (String _ "")).
  by rewrite string_app_assoc.
Qed.

Lemma scan_pretty (a : N) s acc k :
  ∃ j, scan_digits (pretty a +:+ s) acc k
       = scan_digits s (acc * 10 ^ N.of_nat j + a)%N (k + j) ∧ 0 < j.
Proof.
  unfold pretty, pretty_N. case_decide as Ha.
  - subst. exists 1. split; [|lia]. simpl. f_equal; lia.
  - rewrite <-pretty_N_go_app.
    destruct (scan_pretty_go a s acc k) as (j & Hj & Hpos).
    exists j. split; [done|]. apply Hpos. lia.
Qed.

Lemma all_digits_pretty_go x : ∀ s, all_digits s → all_digits (pretty_N_go x s).
Proof.
  induction (N.lt_wf_0 x) as [x _ IH]; intros s Hs.
  destruct (decide (x = 0%N)) as [->|Hx]; [by rewrite pretty_N_go_0|].
  rewrite pretty_N_go_step by lia. apply IH; [apply N.div_lt; lia|].
  constructor; [|done].
  rewrite digit_value_pretty by (apply N.mod_lt; lia). by eexists.
Qed.

Lemma all_digits_pretty (a : N) : all_digits (pretty a) ∧ pretty a ≠ "".
Proof.
  unfold pretty, pretty_N. case_decide as Ha.
  - split; [|done]. repeat constructor. by eexists.
  - split; [apply all_digits_pretty_go; constructor|].
    rewrite pretty_N_go_step by lia. intros Heq.
    generalize (f_equal String.length Heq).
    rewrite pretty_N_go_app, string_length_app. simpl. lia.
Qed.

(** The digits [toFixed(1)] writes read back as that many tenths. *)
Lemma parse_toFixed1_digits n :
  parse_unsigned (toFixed1_digits n) = Some (Z.of_N n # 10)%Q.
Proof.
  unfold parse_unsigned, toFixed1_digits.
  destruct (scan_pretty (n `div` 10) ("." +:+ digit (n `mod` 10)) 0 0)
    as (j & -> & Hj).
  simpl. rewrite digit_value_pretty by (apply N.mod_lt; lia). simpl.
  destruct j as [|j]; [lia|]. simpl.
  do 2 f_equal. pose proof (N.div_mod n 10). lia.
Qed.

Lemma toFixed1_digits_head n :
  ∃ c rest, toFixed1_digits n = String c rest ∧ is_Some (digit_value c).
Proof.
  unfold toFixed1_digits.
  destruct (all_digits_pretty (n `div` 10)) as [Hall Hne].
  destruct (pretty (n `div` 10)%N) as [|c rest]; [done|].
  exists c, (rest +:+ "." +:+ digit (n `mod` 10)). split; [done|].
  by inversion Hall.
Qed.

Lemma parseFloat_toFixed1_digits n :
  parseFloat (Str (toFixed1_digits n)) = Some (Z.of_N n # 10)%Q.
Proof.
  unfold parseFloat. simpl.
  destruct (toFixed1_digits_head n) as (c & rest & Heq & [d Hd]).
  rewrite <-parse_toFixed1_digits, Heq.
  unfold digit_value in Hd.
  destruct c as [[] [] [] [] [] [] [] []]; try done.
Qed.
Lemma pretty_N_digit (d : N) : (d < 10)%N → pretty d = digit d.
Proof.
  intros Hd.
  assert (d = 0 ∨ d = 1 ∨ d = 2 ∨ d = 3 ∨ d = 4 ∨ d = 5 ∨ d = 6 ∨ d = 7
          ∨ d = 8 ∨ d = 9)%N as Hc by lia.
  repeat (destruct Hc as [->|Hc]; [reflexivity|]). by subst.
Qed.

Lemma string_snoc_inj s t c : s +:+ String c "" = t +:+ String c "" → s = t.
Proof.
  revert t. induction s as [|a s IH]; intros [|b t] Heq; simpl in Heq.
  - done.
  - injection Heq as _ Heq. by destruct t.
  - injection Heq as _ Heq. by destruct s.
  - injection Heq as -> Heq. f_equal. by apply IH.
Qed.

(** The cell text of [n] tenths, and what it determines. *)
Lemma toFixed1_digits_text n : toFixed1_digits n +:+ "%" = tenthsText n.
Proof.
  unfold toFixed1_digits, tenthsText.
  rewrite (pretty_N_digit (n `mod` 10)) by (apply N.mod_lt; lia).
  by rewrite !string_app_assoc.
Qed.

Lemma toFixed1_digits_inj m n : toFixed1_digits m = toFixed1_digits n → m = n.
Proof.
  intros Heq. apply (f_equal (λ s, parseFloat (Str s))) in Heq.
  rewrite !parseFloat_toFixed1_digits in Heq. injection Heq. lia.
Qed.

Lemma tenthsText_inj m n : tenthsText m = tenthsText n → m = n.
Proof.
  rewrite <-!toFixed1_digits_text. intros Heq.
  by apply toFixed1_digits_inj, (string_snoc_inj _ _ "%"%char).
Qed.
End decimal.

(** ** The coverage percentage as a number of tenths *)

Section percentage.
Import JS excelGenerator.

Lemma percentOf_nonneg c t : 0 < t → (0 <= percentOf c t)%Q.
Proof. intros Ht. apply percentQ_nonneg; lia. Qed.

(** The displayed value is a nearest tenth of the exact percentage,
    whatever binary64 did to the quotient on the way. *)
Lemma displayedTenths_nearest c t :
  0 < t → (c < 2 ^ 40)%N →
  (2 * Z.abs (Z.of_N (displayedTenths c t) * Z.of_nat t - 1000 * Z.of_N c)
   <= Z.of_nat t)%Z.
Proof.
  intros Ht Hc. unfold displayedTenths, tenths, percentOf.
  fold (percentQ (Z.of_N c) (Z.of_nat t)).
  assert (0 <= Z.of_N c < 2 ^ 40)%Z as Hc' by lia.
  pose proof (percentQ_nearest (Z.of_N c) (Z.of_nat t) Hc') as Hn.
  pose proof (percentQ_nonneg (Z.of_N c) (Z.of_nat t)) as Hnn.
  rewrite Z2N.id; [apply Hn; lia|].
  assert (0 <= percentQ (Z.of_N c) (Z.of_nat t) * 10 + (1 # 2))%Q as Hq.
  { specialize (Hnn ltac:(lia) ltac:(lia)). lra. }
  apply Qfloor_resp_le in Hq. exact Hq.
Qed.

Lemma displayedTenths_le c t :
  0 < t → (c < 2 ^ 40)%N → (c <= N.of_nat t)%N →
  (displayedTenths c t <= 1000)%N.
Proof.
  intros Ht Hb Hc. pose proof (displayedTenths_nearest c t Ht Hb). nia.
Qed.

Lemma displayedTenths_zero t : displayedTenths 0 t = 0%N.
Proof.
  unfold displayedTenths, percentOf. simpl Z.of_N.
  fold (percentQ 0 (Z.of_nat t)). by rewrite percentQ_zero.
Qed.

Lemma displayedTenths_all t :
  0 < t → (N.of_nat t < 2 ^ 40)%N → displayedTenths (N.of_nat t) t = 1000%N.
Proof.
  intros Ht Hb. pose proof (displayedTenths_nearest (N.of_nat t) t Ht Hb). nia.
Qed.

Lemma coveragePercentOf_pos c t :
  0 < t → coveragePercentOf c t = Str (toFixed1_digits (displayedTenths c t)).
Proof.
  intros Ht. unfold coveragePercentOf, toFixed1.
  destruct (Nat.ltb_spec 0 t) as [_|]; [|lia].
  pose proof (percentOf_nonneg c t Ht) as Hnn.
  apply Qle_bool_iff in Hnn. unfold percentOf in Hnn. by rewrite Hnn.
Qed.

Lemma coveragePercentOf_zero c : coveragePercentOf c 0 = Num 0.
Proof. reflexivity. Qed.

Lemma coverageFontOf_digits n :
  coverageFontOf (Str (toFixed1_digits n)) = bandOfTenths n.
Proof.
  unfold coverageFontOf, bandOfTenths.
  rewrite parseFloat_toFixed1_digits. unfold strict_eq, ge, gt.
  destruct (N.eqb_spec n 1000) as [->|Hne]; [done|].
  destruct (Qeq_bool (Z.of_N n # 10) 100) eqn:Heq.
  { apply Qeq_bool_iff in Heq. unfold Qeq in Heq. simpl in Heq. lia. }
  destruct (N.leb_spec 750 n).
  { assert (Qle_bool 75 (Z.of_N n # 10) = true) as ->; [|done].
    apply Qle_bool_iff. unfold Qle. simpl. lia. }
  destruct (Qle_bool 75 (Z.of_N n # 10)) eqn:H75.
  { apply Qle_bool_iff in H75. unfold Qle in H75. simpl in H75. lia. }
  destruct (N.leb_spec 500 n).
  { assert (Qle_bool 50 (Z.of_N n # 10) = true) as ->; [|done].
    apply Qle_bool_iff. unfold Qle. simpl. lia. }
  destruct (Qle_bool 50 (Z.of_N n # 10)) eqn:H50.
  { apply Qle_bool_iff in H50. unfold Qle in H50. simpl in H50. lia. }
  destruct (N.ltb_spec 0 n).
  - destruct (Qle_bool (Z.of_N n # 10) 0) eqn:Hz; [|done].
    apply Qle_bool_iff in Hz. unfold Qle in Hz. simpl in Hz. lia.
  - assert (Qle_bool (Z.of_N n # 10) 0 = true) as ->; [|done].
    apply Qle_bool_iff. unfold Qle. simpl. lia.
Qed.

Lemma coverageFontOf_zero_regions c :
  coverageFontOf (coveragePercentOf c 0) = GRAY_ITALIC.
Proof. reflexivity. Qed.
End percentage.

(** ** Counting the regions that offer a service *)

Section counting.
Import JS excelGenerator.

Lemma occurrences_empty code : occurrences ∅ code = 0.
Proof. apply map_fold_empty. Qed.

Lemma occurrences_insert (m : gmap string (list string)) k l code :
  m !! k = None →
  occurrences (<[k:=l]> m) code = occurrencesIn l code + occurrences m code.
Proof.
  intros Hk. unfold occurrences.
  rewrite map_fold_insert_L; [done| |done]. intros. lia.
Qed.

Lemma occurrences_delete (m : gmap string (list string)) k l code :
  m !! k = Some l →
  occurrences m code = occurrencesIn l code + occurrences (delete k m) code.
Proof.
  intros Hk. rewrite <-(insert_delete_id m k l Hk) at 1.
  apply occurrences_insert, lookup_delete_eq.
Qed.

Lemma occurrencesIn_NoDup l code :
  NoDup l → occurrencesIn l code = if decide (code ∈ l) then 1 else 0.
Proof.
  unfold occurrencesIn. induction 1 as [|x l Hx _ IH]; [done|].
  rewrite filter_cons. destruct (decide (x = code)) as [->|Hne].
  - simpl. rewrite IH, (decide_False (P := code ∈ l)) by done.
    rewrite decide_True; [done|]. apply list_elem_of_here.
  - rewrite IH. destruct (decide (code ∈ l)).
    + rewrite decide_True; [done|by apply list_elem_of_further].
    + rewrite decide_False; [done|]. rewrite elem_of_cons. intros [?|?]; [congruence|done].
Qed.

Lemma incr_min (v : N) : (v <= MAX_EXACT)%N → incr v = N.min (v + 1) MAX_EXACT.
Proof.
  intros Hv. unfold incr. destruct (N.ltb_spec v MAX_EXACT); lia.
Qed.

Lemma count_region_lookup l : ∀ (counts : gmap string N) (code : string),
  (default 0%N (counts !! code) <= MAX_EXACT)%N →
  default 0%N (count_region counts l !! code)
  = N.min (default 0%N (counts !! code) + N.of_nat (occurrencesIn l code)) MAX_EXACT.
Proof.
  unfold occurrencesIn, count_region.
  induction l as [|c l IH]; intros counts code Hle; simpl.
  { lia. }
  rewrite filter_cons. unfold count_service at 2.
  destruct (decide (c = code)) as [->|Hne].
  - rewrite IH; rewrite lookup_insert_eq; simpl.
    + rewrite incr_min by done. lia.
    + rewrite incr_min by done. lia.
  - rewrite IH; rewrite lookup_insert_ne by done; done.
Qed.

(** The counter the Services sheet reads is the number of times the code
    is listed in the mapping, as long as that stays below 2^53. *)
Lemma serviceRegionCounts_lookup (m : gmap string (list string)) code :
  default 0%N (serviceRegionCounts m !! code)
  = N.min (N.of_nat (occurrences m code)) MAX_EXACT.
Proof.
  unfold serviceRegionCounts.
  apply (map_fold_weak_ind
           (λ r m, default 0%N (r !! code)
                   = N.min (N.of_nat (occurrences m code)) MAX_EXACT)).
  - rewrite occurrences_empty, lookup_empty. simpl. unfold MAX_EXACT. lia.
  - intros k l m' r Hk IH.
    rewrite count_region_lookup by lia.
    rewrite occurrences_insert by done. lia.
Qed.

Lemma serviceRegionCounts_bound (m : gmap string (list string)) code :
  (default 0%N (serviceRegionCounts m !! code) <= MAX_EXACT)%N.
Proof. rewrite serviceRegionCounts_lookup. lia. Qed.

Lemma filter_iff_on {A} (P1 P2 : A → Prop)
    `{!∀ x, Decision (P1 x), !∀ x, Decision (P2 x)} (l : list A) :
  (∀ x, x ∈ l → P1 x ↔ P2 x) → filter P1 l = filter P2 l.
Proof.
  induction l as [|a l IH]; intros Hiff; [done|].
  rewrite !filter_cons, IH.
  - apply decide_ext, Hiff, list_elem_of_here.
  - intros x Hx. by apply Hiff, list_elem_of_further.
Qed.

Lemma occurrences_regions code : ∀ (rs : list Region.t) (m : gmap string (list string)),
  NoDup (region_code <$> rs) →
  (∀ k, is_Some (m !! k) → k ∈ region_code <$> rs) →
  (∀ k l, m !! k = Some l → NoDup l) →
  occurrences m code = length (filter (offers m code) rs).
Proof.
  induction rs as [|r rs IH]; intros m Hnd Hkeys Hsets.
  - assert (m = ∅) as ->; [|by rewrite occurrences_empty].
    apply map_eq. intros k. rewrite lookup_empty.
    apply eq_None_not_Some. intros Hk. apply Hkeys in Hk. set_solver.
  - rewrite fmap_cons in Hnd. apply NoDup_cons in Hnd as [Hr Hnd].
    assert (filter (offers m code) rs
            = filter (offers (delete (region_code r) m) code) rs) as Hrest.
    { apply filter_iff_on. intros r' Hr'.
      unfold offers, coverageSet.
      rewrite lookup_delete_ne; [done|].
      intros Heq. apply Hr. rewrite Heq. by apply list_elem_of_fmap_2. }
    assert (occurrences (delete (region_code r) m) code
            = length (filter (offers (delete (region_code r) m) code) rs)) as Hocc.
    { apply IH; [done| |].
      - intros k [l Hl]. apply lookup_delete_Some in Hl as [Hne Hl].
        specialize (Hkeys k (ex_intro _ l Hl)).
        rewrite fmap_cons, elem_of_cons in Hkeys.
        destruct Hkeys as [?|?]; [congruence|done].
      - intros k l Hl. apply lookup_delete_Some in Hl as [_ Hl]. eauto. }
    rewrite filter_cons.
    destruct (decide (offers m code r)) as [Hoff|Hoff]; simpl;
      rewrite Hrest, <-Hocc; unfold offers, coverageSet in Hoff;
      destruct (m !! region_code r) as [l|] eqn:Hl; simpl in Hoff.
    + rewrite (occurrences_delete m _ l) by done.
      rewrite occurrencesIn_NoDup by eauto. by rewrite decide_True.
    + by apply elem_of_nil in Hoff.
    + rewrite (occurrences_delete m _ l) by done.
      rewrite occurrencesIn_NoDup by eauto. by rewrite decide_False.
    + by rewrite delete_id.
Qed.

Lemma occurrences_valid data code :
  valid data → occurrences (coverage data) code = regionsOffering data code.
Proof.
  intros (Hnd & Hkeys & Hsets). apply occurrences_regions; [done| |done].
  intros k [l Hl]. by apply (Hkeys k l).
Qed.

Lemma occurrencesIn_absent l code : code ∉ l → occurrencesIn l code = 0.
Proof.
  unfold occurrencesIn. induction l as [|c l IH]; intros Hl; [done|].
  apply not_elem_of_cons in Hl as [Hne Hl].
  rewrite filter_cons, decide_False by done. by apply IH.
Qed.

Lemma occurrences_absent (m : gmap string (list string)) code :
  map_Forall (λ _ l, code ∉ l) m → occurrences m code = 0.
Proof.
  induction m as [|k l m Hk IH] using map_ind; intros Hall.
  { apply occurrences_empty. }
  apply map_Forall_insert in Hall as [Hl Hall]; [|done].
  by rewrite occurrences_insert, occurrencesIn_absent, IH.
Qed.

(** A code that no listed region offers is listed nowhere, once every
    key of the mapping is a listed region. *)
Lemma occurrences_unoffered data code :
  keysListed data → regionsOffering data code = 0 →
  occurrences (coverage data) code = 0.
Proof.
  unfold keysListed, regionsOffering, regionCodes. intros Hkeys Hoff.
  apply length_zero_iff_nil in Hoff.
  apply occurrences_absent. intros k l Hl Hin.
  specialize (Hkeys k l Hl). simpl in Hkeys.
  apply list_elem_of_fmap in Hkeys as (r & -> & Hr).
  assert (r ∈ filter (offers (coverage data) code) (default [] (regions data)))
    as Hr'; [|rewrite Hoff in Hr'; by apply elem_of_nil in Hr'].
  apply list_elem_of_filter. split; [|done].
  unfold offers, coverageSet. by rewrite Hl.
Qed.

Lemma regionsOffering_le data code :
  (regionsOffering data code ≤ length (default [] (regions data)))%nat.
Proof. apply length_filter. Qed.
End counting.

(** ** Sorting with a comparator *)

Section sorting.
Import JS.
Context {A : Type} (cmp : A → A → Z).

Lemma sort_insert_perm x l : sort_insert cmp x l ≡ₚ x :: l.
Proof.
  induction l as [|y l IH]; simpl; [done|].
  destruct (cmp x y <=? 0)%Z; [done|].
  rewrite IH. apply Permutation_swap.
Qed.

Lemma sort_perm l : sort cmp l ≡ₚ l.
Proof.
  induction l as [|x l IH]; simpl; [done|].
  by rewrite sort_insert_perm, IH.
Qed.

Lemma sort_elem_of x l : x ∈ sort cmp l ↔ x ∈ l.
Proof. by rewrite sort_perm. Qed.

Section consistent.
Context `{!Consistent cmp}.

Lemma cmp_total a b : notGreater cmp a b ∨ notGreater cmp b a.
Proof. unfold notGreater. pose proof (cmp_antisym a b). lia. Qed.

Lemma cmp_gt_flip a b : ¬ notGreater cmp a b → notGreater cmp b a.
Proof. destruct (cmp_total a b); tauto. Qed.

Lemma sameRank_not_greater w x z :
  sameRank cmp w x → sameRank cmp w z → notGreater cmp x z.
Proof.
  unfold sameRank, notGreater. intros Hwx Hwz.
  apply (cmp_trans x w z); [|lia].
  pose proof (cmp_antisym w x). lia.
Qed.

Lemma sort_insert_sorted x l :
  StronglySorted (notGreater cmp) l → StronglySorted (notGreater cmp) (sort_insert cmp x l).
Proof.
  induction 1 as [|y l Hl IH Hy]; simpl.
  { repeat constructor. }
  destruct (Z.leb_spec (cmp x y) 0) as [Hxy|Hxy].
  - constructor; [by constructor|].
    constructor; [done|].
    eapply Forall_impl; [exact Hy|]. intros z Hz.
    by apply (cmp_trans x y z).
  - constructor; [done|].
    rewrite sort_insert_perm. constructor; [|done].
    apply cmp_gt_flip. unfold notGreater. lia.
Qed.

Lemma sort_sorted l : StronglySorted (notGreater cmp) (sort cmp l).
Proof.
  induction l as [|x l IH]; simpl; [constructor|].
  by apply sort_insert_sorted.
Qed.

(** Elements of one rank keep the order they came in. *)
Lemma sort_insert_stable w x l :
  filter (sameRank cmp w) (sort_insert cmp x l) = filter (sameRank cmp w) (x :: l).
Proof.
  induction l as [|y l IH]; simpl; [done|].
  destruct (Z.leb_spec (cmp x y) 0) as [Hxy|Hxy]; [done|].
  rewrite filter_cons, IH, !filter_cons.
  destruct (decide (sameRank cmp w y)) as [Hy|]; [|done].
  destruct (decide (sameRank cmp w x)) as [Hx|]; [|done].
  pose proof (sameRank_not_greater w x y Hx Hy). unfold notGreater in *. lia.
Qed.

Lemma sort_stable w l :
  filter (sameRank cmp w) (sort cmp l) = filter (sameRank cmp w) l.
Proof.
  induction l as [|x l IH]; simpl; [done|].
  by rewrite sort_insert_stable, !filter_cons, IH.
Qed.
End consistent.
End sorting.

Section sort_ext.
Import JS.
Context {A : Type} (cmp1 cmp2 : A → A → Z).

Lemma sort_insert_ext x l :
  (∀ y, y ∈ l → cmp1 x y = cmp2 x y) →
  sort_insert cmp1 x l = sort_insert cmp2 x l.
Proof.
  induction l as [|y l IH]; intros Heq; simpl; [done|].
  rewrite (Heq y) by apply list_elem_of_here.
  destruct (cmp2 x y <=? 0)%Z; [done|].
  rewrite IH; [done|]. intros z Hz. by apply Heq, list_elem_of_further.
Qed.

(** Two comparators that agree on the elements sort them alike. *)
Lemma sort_ext l :
  (∀ x y, x ∈ l → y ∈ l → cmp1 x y = cmp2 x y) →
  sort cmp1 l = sort cmp2 l.
Proof.
  induction l as [|x l IH]; intros Heq; simpl; [done|].
  rewrite IH.
  - apply sort_insert_ext. intros y Hy%sort_elem_of.
    apply Heq; [apply list_elem_of_here|by apply list_elem_of_further].
  - intros y z Hy Hz. by apply Heq; apply list_elem_of_further.
Qed.
End sort_ext.

(** The comparators of the two sheets are consistent when the collation is. *)
Section collation.
Import JS excelGenerator.
Context `{CollationLaws}.

#[global] Instance compare_by_consistent key : Consistent (compare_by key).
Proof.
  split; unfold compare_by; intros.
  - apply localeCompare_antisym.
  - by eapply localeCompare_trans.
Qed.

Lemma canonical_sort_name s :
  Service.canonical s → services_sort_name s = service_name s.
Proof.
  intros [Hs HS]. unfold services_sort_name, service_name. rewrite Hs, HS.
  unfold or, or_lit, truthy. simpl.
  destruct (Service.name s) as [n|]; [|done]. simpl.
  destruct (String.eqb n "") eqn:Hn; simpl; rewrite ?Hn; simpl; by rewrite ?Hn.
Qed.
End collation.

(** ** The Services sheet *)

Section services_sheet.
Import JS excelGenerator.
Context `{Collation}.

Lemma createServicesSheet_rows data :
  createServicesSheet data
  = rowOf data <$> sort (compare_by services_sort_name) (default [] (services data)).
Proof. reflexivity. Qed.

Lemma createServicesSheet_elem_of data row :
  row ∈ createServicesSheet data →
  ∃ service, service ∈ default [] (services data) ∧ row = rowOf data service.
Proof.
  rewrite createServicesSheet_rows. intros (s & -> & Hs)%list_elem_of_fmap.
  exists s. split; [|done]. by apply sort_elem_of in Hs.
Qed.

Lemma rowOf_availableRegions data service :
  availableRegions (rowOf data service)
  = N.min (N.of_nat (occurrences (coverage data) (service_code service))) MAX_EXACT.
Proof. apply serviceRegionCounts_lookup. Qed.

Lemma rowOf_coveragePercent data service :
  coveragePercent (rowOf data service)
  = to_string (coveragePercentOf (availableRegions (rowOf data service))
                                 (totalRegions data)) +:+ "%".
Proof. reflexivity. Qed.

Lemma rowOf_coverageFont data service :
  coverageFont (rowOf data service)
  = coverageFontOf (coveragePercentOf (availableRegions (rowOf data service))
                                      (totalRegions data)).
Proof. reflexivity. Qed.

(** [toFixed] is only ever asked for a number it writes in decimal
    notation. *)
Lemma toFixed_argument_in_range data service :
  0 < totalRegions data →
  (0 <= percentOf (availableRegions (rowOf data service)) (totalRegions data)
   < 1000000000000000000000)%Q.
Proof.
  intros Ht. split; [by apply percentOf_nonneg|].
  apply percentQ_below_limit; [|lia].
  pose proof (serviceRegionCounts_bound (coverage data) (service_code service)) as Hb.
  unfold MAX_EXACT in Hb. change (availableRegions (rowOf data service)) with
    (default 0%N (serviceRegionCounts (coverage data) !! service_code service)).
  lia.
Qed.
End services_sheet.

Section services_sheet_claims.
Import JS excelGenerator.
Context `{Collation}.

(** C1, as the code has it. In a well-formed canonical model (region
    codes are distinct, every key of the coverage mapping is the code of
    a listed region, no array lists a code twice) whose region array
    respects the length limit of arrays, every row of the Services sheet
    counts the regions whose coverage set contains the service's code.
    Without regions the percentage cell is "0%": nothing is divided.
    With regions the cell shows [n] tenths of a percent, where [n / 10]
    is a nearest one-decimal value of 100 * offering / total, and it
    lies between 0 and 100. *)
Theorem services_coverage_percentage data row :
  valid data →
  (Z.of_nat (totalRegions data) < 2 ^ 32)%Z →
  row ∈ createServicesSheet data →
  let total := totalRegions data in
  let offering := regionsOffering data (serviceCode row) in
  availableRegions row = N.of_nat offering
  ∧ (total = 0 → coveragePercent row = "0%")
  ∧ (0 < total →
     ∃ n : N,
       coveragePercent row = tenthsText n
       ∧ (2 * Z.abs (Z.of_N n * Z.of_nat total - 1000 * Z.of_nat offering)
          <= Z.of_nat total)%Z
       ∧ (0 <= n <= 1000)%N).
Proof.
  intros Hvalid Hlen (service & _ & ->)%createServicesSheet_elem_of total offering.
  change (2 ^ 32)%Z with 4294967296%Z in Hlen.
  change (serviceCode (rowOf data service)) with (service_code service) in offering.
  assert (offering ≤ total)%nat as Hle by apply regionsOffering_le.
  assert (availableRegions (rowOf data service) = N.of_nat offering) as Hcount.
  { rewrite rowOf_availableRegions, occurrences_valid by done.
    fold offering. unfold MAX_EXACT. fold total in Hlen.
    change (2 ^ 53)%N with 9007199254740992%N. lia. }
  split; [done|]. rewrite rowOf_coveragePercent, Hcount. fold total. split.
  - by intros ->.
  - intros Ht. exists (displayedTenths (N.of_nat offering) total).
    assert (N.of_nat offering < 2 ^ 40)%N as Hb.
    { fold total in Hlen. change (2 ^ 40)%N with 1099511627776%N. lia. }
    rewrite coveragePercentOf_pos by done. simpl to_string.
    split; [apply toFixed1_digits_text|].
    pose proof (displayedTenths_nearest _ _ Ht Hb) as Hn.
    pose proof (displayedTenths_le (N.of_nat offering) total Ht Hb) as Hmax.
    rewrite nat_N_Z in Hn. split; [done|]. lia.
Qed.

(** C2, as the code has it. The style of the percentage cell follows the
    value the cell displays: when it shows [n] tenths of a percent,
    100.0 is green and bold, 75.0 and above is light green, 50.0 to 74.9
    is orange, 0.1 to 49.9 is red and 0.0 is gray and italic; with
    regions the cell does show a number of tenths. Without regions the
    cell is "0%" in gray italic. When every key of the coverage mapping
    is a listed region, a service that no region offers is gray italic,
    never red. *)
Theorem coverage_style_follows_display data row :
  row ∈ createServicesSheet data →
  let total := totalRegions data in
  (∀ n : N,
     coveragePercent row = tenthsText n →
     (n = 1000%N → coverageFont row = GREEN_BOLD)
     ∧ ((750 <= n)%N → n ≠ 1000%N → coverageFont row = LIGHT_GREEN)
     ∧ ((500 <= n < 750)%N → coverageFont row = ORANGE)
     ∧ ((0 < n < 500)%N → coverageFont row = RED)
     ∧ (n = 0%N → coverageFont row = GRAY_ITALIC))
  ∧ (0 < total → ∃ n : N, coveragePercent row = tenthsText n)
  ∧ (total = 0 →
     coveragePercent row = "0%" ∧ coverageFont row = GRAY_ITALIC)
  ∧ (keysListed data → regionsOffering data (serviceCode row) = 0 →
     coverageFont row = GRAY_ITALIC ∧ coverageFont row ≠ RED).
Proof.
  intros (service & _ & ->)%createServicesSheet_elem_of total.
  rewrite rowOf_coveragePercent, rowOf_coverageFont. fold total.
  set (c := availableRegions (rowOf data service)).
  split; [|split; [|split]].
  - intros n Htext. destruct total as [|t].
    { rewrite coveragePercentOf_zero in Htext. simpl in Htext.
      apply (f_equal String.length) in Htext. unfold tenthsText in Htext.
      rewrite !string_length_app in Htext. simpl in Htext.
      destruct (all_digits_pretty (n `div` 10)%N) as [_ Hne].
      destruct (all_digits_pretty (n `mod` 10)%N) as [_ Hne'].
      destruct (pretty (n `div` 10)%N); [done|].
      destruct (pretty (n `mod` 10)%N); [done|]. simpl in Htext. lia. }
    rewrite coveragePercentOf_pos in Htext |- * by lia. simpl to_string in Htext.
    rewrite toFixed1_digits_text in Htext. apply tenthsText_inj in Htext.
    rewrite coverageFontOf_digits, Htext. unfold bandOfTenths.
    destruct (N.eqb_spec n 1000); [repeat split; intros; try done; lia|].
    destruct (N.leb_spec 750 n); [repeat split; intros; try done; lia|].
    destruct (N.leb_spec 500 n); [repeat split; intros; try done; lia|].
    destruct (N.ltb_spec 0 n); repeat split; intros; try done; lia.
  - intros Ht. exists (displayedTenths c total).
    rewrite coveragePercentOf_pos by done. apply toFixed1_digits_text.
  - by intros ->.
  - intros Hkeys Hoff.
    assert (c = 0%N) as ->.
    { unfold c. rewrite rowOf_availableRegions.
      rewrite (occurrences_unoffered data (service_code service) Hkeys Hoff).
      done. }
    assert (coverageFontOf (coveragePercentOf 0 total) = GRAY_ITALIC) as ->; [|done].
    destruct total as [|t]; [done|].
    rewrite coveragePercentOf_pos, coverageFontOf_digits by lia.
    by rewrite displayedTenths_zero.
Qed.

(** C10. The percentage cell always ends in "%". With at least one region
    it is a non-empty run of digits, a point, exactly one digit and "%";
    a service no region lists shows "0.0%". Without regions the cell is
    exactly "0%", with no decimal digit. *)
Theorem coverage_cell_format data row :
  row ∈ createServicesSheet data →
  let total := totalRegions data in
  (∃ body, coveragePercent row = body +:+ "%")
  ∧ (0 < total →
     ∃ whole d,
       all_digits whole ∧ whole ≠ "" ∧ (d < 10)%N
       ∧ coveragePercent row = whole +:+ "." +:+ digit d +:+ "%")
  ∧ (0 < total → occurrences (coverage data) (serviceCode row) = 0 →
     coveragePercent row = "0.0%")
  ∧ (total = 0 → coveragePercent row = "0%").
Proof.
  intros (service & _ & ->)%createServicesSheet_elem_of total.
  rewrite rowOf_coveragePercent. fold total.
  set (c := availableRegions (rowOf data service)).
  split; [by eexists|]. split; [|split].
  - intros Ht. rewrite coveragePercentOf_pos by done. simpl.
    set (n := displayedTenths c total).
    destruct (all_digits_pretty (n `div` 10)%N) as [Hall Hne].
    exists (pretty (n `div` 10)%N), (n `mod` 10)%N.
    split; [done|]. split; [done|]. split; [apply N.mod_lt; lia|].
    unfold toFixed1_digits. by rewrite !string_app_assoc.
  - intros Ht Hocc.
    assert (c = 0%N) as ->.
    { unfold c. rewrite rowOf_availableRegions.
      change (service_code service) with (serviceCode (rowOf data service)).
      rewrite Hocc. done. }
    rewrite coveragePercentOf_pos by done. by rewrite displayedTenths_zero.
  - by intros ->.
Qed.
End services_sheet_claims.

(** ** The reference host is a lawful one *)

Section host.
Import JS Host.

Lemma ordinalCompare_le a b : (ordinalCompare a b <= 0)%Z ↔ String.le a b.
Proof.
  unfold ordinalCompare, String.le, String.leb.
  destruct (String.compare a b); simpl; split; intros; try done; lia.
Qed.

#[global] Instance host_collation_laws : CollationLaws.
Proof.
  split; simpl.
  - intros a b. unfold ordinalCompare.
    rewrite (String.compare_antisym a b).
    by destruct (String.compare b a).
  - intros a b c. rewrite !ordinalCompare_le. apply transitivity.
Qed.
End host.

(** ** The Services sheet on the sample models *)

Section services_sheet_samples.
Import JS excelGenerator Host Sample.

Ltac by_computation := refine (bool_decide_unpack _ _); vm_compute; exact I.

Lemma twoRegions_valid : valid twoRegions.
Proof. by_computation. Qed.

#[local] Instance numberedCode_inj : Inj (=) (=) numberedCode.
Proof.
  intros i j Heq. unfold numberedCode in Heq.
  apply (inj (String.app "r")) in Heq. by apply (inj pretty) in Heq.
Qed.

Lemma regionCodes_spread total offering :
  regionCodes (spread total offering) = numberedCode <$> seq 0 total.
Proof.
  unfold regionCodes, spread, numbered. simpl.
  rewrite <-list_fmap_compose. by apply list_fmap_ext.
Qed.

(** The numbered models are well formed. *)
Lemma spread_valid total offering :
  (offering ≤ total)%nat → valid (spread total offering).
Proof.
  intros Hle. unfold valid. rewrite regionCodes_spread.
  split; [|split].
  - apply (NoDup_fmap_2 _), NoDup_seq.
  - intros k l Hk. simpl in Hk.
    apply elem_of_list_to_map_2, list_elem_of_fmap in Hk as (i & [= -> ->] & Hi).
    apply list_elem_of_fmap_2, elem_of_seq.
    apply elem_of_seq in Hi. lia.
  - intros k l Hk. simpl in Hk.
    apply elem_of_list_to_map_2, list_elem_of_fmap in Hk as (i & [= -> ->] & Hi).
    apply NoDup_singleton.
Qed.

Lemma manyRegions_valid : valid manyRegions.
Proof. apply spread_valid. lia. Qed.

Lemma twoRegions_sheet :
  createServicesSheet twoRegions
  = [ ec2Row;
      {| serviceCode := "lambda"; serviceName := "lambda"; availableRegions := 1;
         coveragePercent := "50.0%"; coverageFont := ORANGE |};
      {| serviceCode := "s3"; serviceName := "s3"; availableRegions := 2;
         coveragePercent := "100.0%"; coverageFont := GREEN_BOLD |} ].
Proof. vm_compute. reflexivity. Qed.

Lemma noRegions_sheet : createServicesSheet noRegions = [s3WithoutRegions].
Proof. vm_compute. reflexivity. Qed.

Lemma manyRegions_sheet : createServicesSheet manyRegions = [s3InManyRegions].
Proof. vm_compute. reflexivity. Qed.

Lemma services_coverage_percentage_witness :
  valid twoRegions
  ∧ (Z.of_nat (totalRegions twoRegions) < 2 ^ 32)%Z
  ∧ ec2Row ∈ createServicesSheet twoRegions
  ∧ 0 < totalRegions twoRegions
  ∧ availableRegions ec2Row
    = N.of_nat (regionsOffering twoRegions (serviceCode ec2Row))
  ∧ ∃ n : N,
      coveragePercent ec2Row = tenthsText n
      ∧ (2 * Z.abs (Z.of_N n * Z.of_nat (totalRegions twoRegions)
                    - 1000 * Z.of_nat (regionsOffering twoRegions
                                         (serviceCode ec2Row)))
         <= Z.of_nat (totalRegions twoRegions))%Z
      ∧ (0 <= n <= 1000)%N.
Proof.
  assert (valid twoRegions) as Hvalid by by_computation.
  assert (Z.of_nat (totalRegions twoRegions) < 2 ^ 32)%Z as Hlen by done.
  assert (ec2Row ∈ createServicesSheet twoRegions) as Hrow
    by (vm_compute; apply list_elem_of_here).
  assert (0 < totalRegions twoRegions) as Hpos by (vm_compute; lia).
  pose proof (services_coverage_percentage twoRegions ec2Row Hvalid Hlen Hrow)
    as (Hcount & _ & Hshown).
  exact (conj Hvalid (conj Hlen (conj Hrow (conj Hpos
           (conj Hcount (Hshown Hpos)))))).
Defined.

Lemma coverage_style_follows_display_witness :
  ec2Row ∈ createServicesSheet twoRegions
  ∧ coveragePercent ec2Row = tenthsText 500
  ∧ coverageFont ec2Row = ORANGE
  ∧ glacierRow ∈ createServicesSheet oneUnoffered
  ∧ keysListed oneUnoffered
  ∧ regionsOffering oneUnoffered (serviceCode glacierRow) = 0
  ∧ coverageFont glacierRow = GRAY_ITALIC
  ∧ coverageFont glacierRow ≠ RED.
Proof.
  assert (ec2Row ∈ createServicesSheet twoRegions) as Hrow
    by (vm_compute; apply list_elem_of_here).
  assert (coveragePercent ec2Row = tenthsText 500) as Htext
    by (vm_compute; reflexivity).
  assert (glacierRow ∈ createServicesSheet oneUnoffered) as Hrow'
    by (vm_compute; apply list_elem_of_here).
  assert (keysListed oneUnoffered) as Hkeys by by_computation.
  assert (regionsOffering oneUnoffered (serviceCode glacierRow) = 0) as Hoff
    by (vm_compute; reflexivity).
  pose proof (coverage_style_follows_display twoRegions ec2Row Hrow)
    as (Hbands & _).
  destruct (Hbands 500%N Htext) as (_ & _ & Horange & _).
  pose proof (coverage_style_follows_display oneUnoffered glacierRow Hrow')
    as (_ & _ & _ & Hgray).
  exact (conj Hrow (conj Htext (conj (Horange ltac:(lia))
           (conj Hrow' (conj Hkeys (conj Hoff (Hgray Hkeys Hoff))))))).
Defined.

Lemma coverage_cell_format_witness :
  s3WithoutRegions ∈ createServicesSheet noRegions
  ∧ ∃ body, coveragePercent s3WithoutRegions = body +:+ "%".
Proof.
  assert (s3WithoutRegions ∈ createServicesSheet noRegions) as Hrow
    by (vm_compute; apply list_elem_of_here).
  split; [done|].
  exact (proj1 (coverage_cell_format noRegions s3WithoutRegions Hrow)).
Defined.

(** C1 fails as stated. The counter counts listings under the keys of
    the mapping: a key that is no listed region adds to it, a code
    listed twice counts twice, and two regions under one code are served
    by one key. In each case the cell does not show the share of the
    regions whose coverage set contains the code. *)
Lemma percentage_counts_listings :
  (totalRegions unlistedRegion = 1
   ∧ regionsOffering unlistedRegion "s3" = 1
   ∧ s3CountedTwice ∈ createServicesSheet unlistedRegion
   ∧ ¬ showsCoverage unlistedRegion)
  ∧ (totalRegions listedTwice = 1
     ∧ regionsOffering listedTwice "s3" = 1
     ∧ s3CountedTwice ∈ createServicesSheet listedTwice
     ∧ ¬ showsCoverage listedTwice)
  ∧ (totalRegions sameCodeTwice = 2
     ∧ regionsOffering sameCodeTwice "s3" = 2
     ∧ s3CountedOnce ∈ createServicesSheet sameCodeTwice
     ∧ ¬ showsCoverage sameCodeTwice).
Proof.
  assert (∀ data row total offering,
            totalRegions data = total →
            regionsOffering data (serviceCode row) = offering →
            row ∈ createServicesSheet data →
            0 < total → total = offering →
            coveragePercent row ≠ tenthsText 1000 →
            ¬ showsCoverage data) as Hrefute.
  { intros data row total offering Htotal Hoff Hrow Hpos Hall Htext Hclaim.
    destruct (Hclaim row Hrow) as [_ Hshown].
    rewrite Htotal, Hoff in Hshown.
    destruct (Hshown Hpos) as (n & Hn & Hnear & _).
    assert (n = 1000%N) as -> by nia. done. }
  split; [|split].
  - assert (s3CountedTwice ∈ createServicesSheet unlistedRegion) as Hrow
      by (vm_compute; apply list_elem_of_here).
    split; [reflexivity|]. split; [vm_compute; reflexivity|]. split; [done|].
    refine (Hrefute _ s3CountedTwice 1 1 _ _ Hrow _ _ _);
      [reflexivity|vm_compute; reflexivity|lia|reflexivity|vm_compute; discriminate].
  - assert (s3CountedTwice ∈ createServicesSheet listedTwice) as Hrow
      by (vm_compute; apply list_elem_of_here).
    split; [reflexivity|]. split; [vm_compute; reflexivity|]. split; [done|].
    refine (Hrefute _ s3CountedTwice 1 1 _ _ Hrow _ _ _);
      [reflexivity|vm_compute; reflexivity|lia|reflexivity|vm_compute; discriminate].
  - assert (s3CountedOnce ∈ createServicesSheet sameCodeTwice) as Hrow
      by (vm_compute; apply list_elem_of_here).
    split; [reflexivity|]. split; [vm_compute; reflexivity|]. split; [done|].
    refine (Hrefute _ s3CountedOnce 2 2 _ _ Hrow _ _ _);
      [reflexivity|vm_compute; reflexivity|lia|reflexivity|vm_compute; discriminate].
Qed.

(** C2 fails as stated. With 1001 regions of which 500 offer the
    service, the exact coverage is below 50 percent, yet the cell shows
    "50.0%" in the style of the 50-to-74 band. And a service that none
    of three listed regions offers, listed under a key that is no
    listed region, shows "33.3%" in red. *)
Lemma coverage_style_not_on_true_fraction :
  (valid manyRegions
   ∧ totalRegions manyRegions = 1001
   ∧ regionsOffering manyRegions "s3" = 500
   ∧ s3InManyRegions ∈ createServicesSheet manyRegions
   ∧ coverageFont s3InManyRegions = ORANGE
   ∧ ¬ styledByTrueFraction manyRegions)
  ∧ (totalRegions offeredElsewhere = 3
     ∧ regionsOffering offeredElsewhere "s3" = 0
     ∧ s3Elsewhere ∈ createServicesSheet offeredElsewhere
     ∧ coverageFont s3Elsewhere = RED
     ∧ ¬ styledByTrueFraction offeredElsewhere).
Proof.
  split.
  - assert (s3InManyRegions ∈ createServicesSheet manyRegions) as Hrow.
    { rewrite manyRegions_sheet. apply list_elem_of_here. }
    assert (regionsOffering manyRegions "s3" = 500) as Hoff
      by (vm_compute; reflexivity).
    split; [exact manyRegions_valid|]. split; [reflexivity|].
    split; [done|]. split; [done|]. split; [done|].
    intros Hclaim. destruct (Hclaim _ Hrow) as (_ & _ & _ & Hred & _).
    simpl serviceCode in Hred. rewrite Hoff in Hred.
    change (totalRegions manyRegions) with 1001 in Hred.
    discriminate Hred. lia.
  - assert (s3Elsewhere ∈ createServicesSheet offeredElsewhere) as Hrow
      by (vm_compute; apply list_elem_of_here).
    assert (regionsOffering offeredElsewhere "s3" = 0) as Hoff
      by (vm_compute; reflexivity).
    split; [reflexivity|]. split; [done|]. split; [done|]. split; [done|].
    intros Hclaim. destruct (Hclaim _ Hrow) as (_ & _ & _ & _ & Hgray).
    simpl serviceCode in Hgray. rewrite Hoff in Hgray.
    discriminate Hgray. done.
Qed.
End services_sheet_samples.

(** ** Row order of the Services and Service Coverage sheets *)

Section row_order.
Import JS excelGenerator.

Lemma filter_fmap {A B} (f : A → B) (P : B → Prop) `{!∀ y, Decision (P y)}
    (l : list A) :
  filter P (f <$> l) = f <$> filter (λ x, P (f x)) l.
Proof.
  induction l as [|x l IH]; [done|].
  rewrite fmap_cons, !filter_cons, IH. by destruct (decide (P (f x))).
Qed.

(** On canonical records the two sheets sort by the same key. *)
Lemma canonical_sort `{Collation} (l : list Service.t) :
  Forall Service.canonical l →
  sort (compare_by services_sort_name) l = sort (compare_by service_name) l.
Proof.
  intros Hcan. apply sort_ext. intros x y Hx Hy.
  rewrite Forall_forall in Hcan. unfold compare_by.
  by rewrite !canonical_sort_name by auto.
Qed.

Lemma service_name_make c n : service_name (Service.make c n) = n.
Proof.
  unfold service_name, or, or_lit, truthy. simpl.
  destruct (String.eqb n "") eqn:Hn; simpl; rewrite ?Hn; simpl; rewrite ?Hn; [|done].
  apply String.eqb_eq in Hn. by subst.
Qed.

(** Services whose lower-cased names rank with a given name keep their
    order. *)
Lemma sort_stable_by_name `{CollationLaws} name (l : list Service.t) :
  filter (λ s, localeCompare (toLowerCase name) (toLowerCase (service_name s)) = 0%Z)
         (sort (compare_by service_name) l)
  = filter (λ s, localeCompare (toLowerCase name) (toLowerCase (service_name s)) = 0%Z) l.
Proof.
  set (w := Service.make "" name).
  assert (∀ s, localeCompare (toLowerCase name) (toLowerCase (service_name s)) = 0%Z
               ↔ sameRank (compare_by service_name) w s) as Hiff.
  { intros s. unfold sameRank, compare_by, w. by rewrite service_name_make. }
  rewrite !(list_filter_iff _ _ _ Hiff). apply sort_stable, _.
Qed.

(** C3. For every list of canonical service records the rows of the
    Services sheet are the services, one row each, in ascending order of
    the lower-cased display name under the collation, which compares any
    two names; rows whose names rank equal keep the order of the input;
    rendering again gives the same rows. *)
Theorem services_sheet_order `{CollationLaws} data :
  Forall Service.canonical (default [] (services data)) →
  let rows := createServicesSheet data in
  let key := λ row, toLowerCase (serviceName row) in
  rows ≡ₚ rowOf data <$> default [] (services data)
  ∧ StronglySorted (λ r1 r2, (localeCompare (key r1) (key r2) <= 0)%Z) rows
  ∧ (∀ a b, (localeCompare a b <= 0)%Z ∨ (localeCompare b a <= 0)%Z)
  ∧ (∀ name,
       filter (λ row, localeCompare (toLowerCase name) (key row) = 0%Z) rows
       = rowOf data
           <$> filter (λ s, localeCompare (toLowerCase name)
                              (toLowerCase (service_name s)) = 0%Z)
                      (default [] (services data)))
  ∧ createServicesSheet data = rows.
Proof.
  intros Hcan rows key. unfold rows.
  rewrite createServicesSheet_rows, canonical_sort by done.
  set (cmp := compare_by service_name).
  split; [|split; [|split; [|split]]].
  - by rewrite sort_perm.
  - eapply StronglySorted_fmap; [|apply (sort_sorted cmp)].
    intros x y Hxy. exact Hxy.
  - intros a b. pose proof (localeCompare_antisym a b). lia.
  - intros name. rewrite filter_fmap. f_equal.
    exact (sort_stable_by_name name _).
  - done.
Qed.

(** *** Reads of the coverage mapping and the loops over them *)

Lemma forEach_returns {A B} (body : A → result B) (f : A → B) (array : list A) :
  (∀ x, x ∈ array → body x = inr (f x)) → forEach body array = inr (f <$> array).
Proof.
  induction array as [|x array IH]; intros Hbody; [done|].
  simpl. rewrite (Hbody x) by apply list_elem_of_here.
  rewrite IH; [done|]. intros y Hy. by apply Hbody, list_elem_of_further.
Qed.

Lemma forEach_throws {A B} (body : A → result B) (array : list A) e :
  (∀ x, x ∈ array → body x = inl e ∨ ∃ y, body x = inr y) →
  (∃ x, x ∈ array ∧ body x = inl e) →
  forEach body array = inl e.
Proof.
  induction array as [|x array IH]; intros Hbody (x' & Hin & Hx').
  { by apply elem_of_nil in Hin. }
  simpl. destruct (Hbody x) as [->|[y Hy]]; [apply list_elem_of_here|done|].
  rewrite Hy, IH; [done| |].
  - intros z Hz. by apply Hbody, list_elem_of_further.
  - apply elem_of_cons in Hin as [->|Hin]; [congruence|]. by exists x'.
Qed.

Lemma forEach_inv {A B} (body : A → result B) (array : list A) ys :
  forEach body array = inr ys → Forall2 (λ x y, body x = inr y) array ys.
Proof.
  revert ys. induction array as [|x array IH]; intros ys Heq; simpl in Heq.
  { injection Heq as <-. constructor. }
  destruct (body x) as [e|y] eqn:Hx; [done|].
  destruct (forEach body array) as [e|ys'] eqn:Hrest; [done|].
  injection Heq as <-. constructor; [done|]. by apply IH.
Qed.

Lemma servicesInRegion_array m regionCode :
  readsArray m regionCode →
  servicesInRegion m regionCode = Array (coverageSet m regionCode).
Proof.
  unfold readsArray, servicesInRegion, get, coverageSet.
  intros [[l ->]| ->]; [done|]. by destruct (m !! regionCode).
Qed.

Lemma servicesInRegion_inherited m regionCode :
  ¬ readsArray m regionCode → ∃ p, servicesInRegion m regionCode = Inherited p.
Proof.
  unfold readsArray, servicesInRegion, get. intros Hnot.
  destruct (m !! regionCode) as [l|]; [destruct Hnot; eauto|].
  destruct (Object_prototype !! regionCode) as [p|]; [by exists p|].
  destruct Hnot. by right.
Qed.

Lemma coverageMark_cases m serviceCode regionCode :
  (readsArray m regionCode
   ∧ coverageMark m serviceCode regionCode = inr (markOf m serviceCode regionCode))
  ∨ (¬ readsArray m regionCode
     ∧ coverageMark m serviceCode regionCode = inl NOT_AN_ARRAY).
Proof.
  unfold coverageMark, markOf.
  destruct (decide (readsArray m regionCode)) as [Hyes|Hno]; [left|right].
  - by rewrite servicesInRegion_array.
  - destruct (servicesInRegion_inherited m regionCode Hno) as [p ->]. done.
Qed.

Lemma coverageRow_returns data service :
  readsArrays data →
  coverageRow (coverage data) (regionCodes data) service
  = inr (matrixRowOf data service).
Proof.
  intros Hreads. unfold coverageRow, matrixRowOf.
  rewrite (forEach_returns _ (markOf (coverage data) (service_code service)));
    [done|].
  intros code Hcode. unfold readsArrays in Hreads. rewrite Forall_forall in Hreads.
  destruct (coverageMark_cases (coverage data) (service_code service) code)
    as [[_ ->]|[Hno _]]; [done|]. destruct Hno. by apply Hreads.
Qed.

Lemma coverageRow_throws data service :
  ¬ readsArrays data →
  coverageRow (coverage data) (regionCodes data) service = inl NOT_AN_ARRAY.
Proof.
  intros Hno. unfold coverageRow.
  rewrite (forEach_throws _ _ NOT_AN_ARRAY); [done| |].
  - intros code _.
    destruct (coverageMark_cases (coverage data) (service_code service) code)
      as [[_ ->]|[_ ->]]; eauto.
  - unfold readsArrays in Hno. apply not_Forall_Exists in Hno; [|apply _].
    apply Exists_exists in Hno as (code & Hin & Hcode). exists code.
    split; [done|].
    by destruct (coverageMark_cases (coverage data) (service_code service) code)
      as [[? _]|[_ ->]].
Qed.

Lemma coverageRow_name m codes service row :
  coverageRow m codes service = inr row → rowName row = service_name service.
Proof.
  unfold coverageRow. destruct (forEach _ codes); [done|].
  by intros [= <-].
Qed.

(** The sheet of a model with a coverage mapping: the matrix when every
    listed region reads an array or there is no service to look up, a
    throw otherwise. *)
Lemma createServiceCoverageSheet_matrix `{Collation} data :
  hasCoverage data = true →
  readsArrays data →
  createServiceCoverageSheet data
  = inr (Matrix ("Service" :: regionCodes data)
           (matrixRowOf data
              <$> sort (compare_by service_name) (default [] (services data)))).
Proof.
  intros Hcov Hreads. unfold createServiceCoverageSheet. rewrite Hcov. simpl.
  fold (regionCodes data). fold (coverage data).
  rewrite (forEach_returns _ (matrixRowOf data)); [done|].
  intros service _. by apply coverageRow_returns.
Qed.

Lemma createServiceCoverageSheet_throws `{Collation} data :
  hasCoverage data = true →
  ¬ readsArrays data →
  default [] (services data) ≠ [] →
  createServiceCoverageSheet data = inl NOT_AN_ARRAY.
Proof.
  intros Hcov Hno Hsome. unfold createServiceCoverageSheet. rewrite Hcov. simpl.
  fold (regionCodes data). fold (coverage data).
  rewrite (forEach_throws _ _ NOT_AN_ARRAY); [done| |].
  - intros service _. left. by apply coverageRow_throws.
  - destruct (sort (compare_by service_name) (default [] (services data)))
      as [|service rest] eqn:Hsorted.
    { apply (f_equal length) in Hsorted.
      rewrite (Permutation_length (sort_perm _ _)) in Hsorted.
      by destruct (default [] (services data)). }
    exists service. split; [apply list_elem_of_here|]. by apply coverageRow_throws.
Qed.

Lemma createServiceCoverageSheet_inv `{Collation} data sheet :
  hasCoverage data = true →
  createServiceCoverageSheet data = inr sheet →
  ∃ rows,
    sheet = Matrix ("Service" :: regionCodes data) rows
    ∧ Forall2 (λ service row,
                 coverageRow (coverage data) (regionCodes data) service = inr row)
              (sort (compare_by service_name) (default [] (services data))) rows.
Proof.
  intros Hcov. unfold createServiceCoverageSheet. rewrite Hcov. simpl.
  fold (regionCodes data). fold (coverage data).
  destruct (forEach _ _) as [e|rows] eqn:Hrows; [done|].
  intros [= <-]. exists rows. split; [done|]. by apply forEach_inv.
Qed.

(** C4. For every canonical model with a non-empty coverage mapping:
    whenever the Service Coverage sheet is built, it is a matrix whose
    rows run over the services in the very order of the rows of the
    Services sheet. It is built when every listed region reads an array
    from the mapping; when one does not and there is a service to look
    up, the sheet throws and no workbook is generated. *)
Theorem coverage_rows_follow_services_sheet `{Collation} data :
  Forall Service.canonical (default [] (services data)) →
  hasCoverage data = true →
  (∀ sheet,
     createServiceCoverageSheet data = inr sheet →
     ∃ rows,
       sheet = Matrix ("Service" :: regionCodes data) rows
       ∧ rowName <$> rows = serviceName <$> createServicesSheet data)
  ∧ (readsArrays data →
     ∃ sorted,
       createServiceCoverageSheet data
       = inr (Matrix ("Service" :: regionCodes data) (matrixRowOf data <$> sorted))
       ∧ createServicesSheet data = rowOf data <$> sorted)
  ∧ (¬ readsArrays data → default [] (services data) ≠ [] →
     createServiceCoverageSheet data = inl NOT_AN_ARRAY).
Proof.
  intros Hcan Hcov. split; [|split].
  - intros sheet Hsheet.
    destruct (createServiceCoverageSheet_inv data sheet Hcov Hsheet)
      as (rows & -> & Hrows).
    exists rows. split; [done|].
    rewrite createServicesSheet_rows, canonical_sort by done.
    rewrite <-list_fmap_compose. clear Hsheet.
    induction Hrows as [|service row sorted rows Hrow _ IH]; [done|].
    rewrite !fmap_cons, IH. f_equal. by apply coverageRow_name in Hrow.
  - intros Hreads.
    exists (sort (compare_by service_name) (default [] (services data))).
    split; [by apply createServiceCoverageSheet_matrix|].
    by rewrite createServicesSheet_rows, canonical_sort.
  - by apply createServiceCoverageSheet_throws.
Qed.
End row_order.

Section row_order_samples.
Import JS excelGenerator Host Sample.

Lemma twoRegions_canonical :
  Forall Service.canonical (default [] (services twoRegions)).
Proof. repeat constructor. Qed.

Lemma services_sheet_order_witness :
  Forall Service.canonical (default [] (services twoRegions))
  ∧ createServicesSheet twoRegions
    ≡ₚ rowOf twoRegions <$> default [] (services twoRegions).
Proof.
  split; [exact twoRegions_canonical|].
  exact (proj1 (services_sheet_order twoRegions twoRegions_canonical)).
Defined.

Lemma twoRegions_readsArrays : readsArrays twoRegions.
Proof. refine (bool_decide_unpack _ _). vm_compute. exact I. Qed.

Lemma coverage_rows_follow_services_sheet_witness :
  Forall Service.canonical (default [] (services twoRegions))
  ∧ hasCoverage twoRegions = true
  ∧ readsArrays twoRegions
  ∧ ∃ sorted,
      createServiceCoverageSheet twoRegions
      = inr (Matrix ("Service" :: regionCodes twoRegions)
               (matrixRowOf twoRegions <$> sorted))
      ∧ createServicesSheet twoRegions = rowOf twoRegions <$> sorted.
Proof.
  assert (hasCoverage twoRegions = true) as Hcov by (vm_compute; reflexivity).
  split; [exact twoRegions_canonical|]. split; [exact Hcov|].
  split; [exact twoRegions_readsArrays|].
  exact (proj1 (proj2 (coverage_rows_follow_services_sheet twoRegions
                         twoRegions_canonical Hcov))
           twoRegions_readsArrays).
Defined.

(** Outside canonical records the two sheets can disagree: a record
    that carries both [name] and [serviceName] is sorted by the latter
    on the Services sheet and by the former on the coverage sheet. *)
Remark two_spellings_sort_apart :
  service_name <$> sort (compare_by services_sort_name) twoSpellings = ["B"; "A"]
  ∧ service_name <$> sort (compare_by service_name) twoSpellings = ["A"; "B"].
Proof. split; vm_compute; reflexivity. Qed.
End row_order_samples.

(** ** Normalization of the source document *)

Section normalization.
Import JS excelGenerator index.

Lemma hasNull_insert (raw : gmap string coverage_entry) k e :
  raw !! k = None → hasNull (<[k:=e]> raw) ↔ e = ENull ∨ hasNull raw.
Proof.
  intros Hk. unfold hasNull. split.
  - intros [j Hj]. destruct (decide (k = j)) as [->|Hne].
    + rewrite lookup_insert_eq in Hj. left. congruence.
    + rewrite lookup_insert_ne in Hj by done. right. by exists j.
  - intros [->|[j Hj]].
    + exists k. by rewrite lookup_insert_eq.
    + exists j. rewrite lookup_insert_ne; [done|]. intros ->. congruence.
Qed.

(** The loop either meets a [null] entry and throws, or keeps exactly
    the entries that carry an array. *)
Lemma flattenCoverage_spec (raw : gmap string coverage_entry) :
  (flattenCoverage raw = inl NULL_ENTRY ∧ hasNull raw)
  ∨ (flattenCoverage raw = inr (omap flat raw) ∧ ¬ hasNull raw).
Proof.
  unfold flattenCoverage.
  apply (map_fold_weak_ind
           (λ r m, (r = inl NULL_ENTRY ∧ hasNull m)
                   ∨ (r = inr (omap flat m) ∧ ¬ hasNull m))).
  - right. rewrite omap_empty. split; [done|].
    intros [k Hk]. by rewrite lookup_empty in Hk.
  - intros k e m r Hk [[-> Hnull]|[-> Hnone]].
    + left. split; [done|]. apply hasNull_insert; auto.
    + destruct e as [codes|[codes|]|]; simpl.
      * right. rewrite (omap_insert_Some _ _ _ _ codes) by done.
        split; [done|]. rewrite hasNull_insert by done. by intros [?|?].
      * right. rewrite (omap_insert_Some _ _ _ _ codes) by done.
        split; [done|]. rewrite hasNull_insert by done. by intros [?|?].
      * right. rewrite omap_insert_None by done.
        rewrite delete_id by (by rewrite lookup_omap, Hk).
        split; [done|]. rewrite hasNull_insert by done. by intros [?|?].
      * left. split; [done|]. apply hasNull_insert; auto.
Qed.

Lemma flattenCoverage_empty : flattenCoverage ∅ = inr ∅.
Proof. apply map_fold_empty. Qed.



End normalization.

(** ** archiveManager.js: uploads, retention, distribution *)

Section archive.
Import JS Run archiveManager.
Context (s3Client : S3).

Lemma uploadToS3_succeeds bucket key tr :
  uploadable s3Client bucket key →
  uploadToS3 s3Client bucket key 3 tr = (inr tt, (tr ++ [Uploaded bucket key])%list).
Proof.
  intros (attempt & u & Hrange & Hput). unfold uploadToS3. simpl.
  destruct (putObject s3Client bucket key 1) as [e1|[]] eqn:H1; [|done].
  destruct (putObject s3Client bucket key 2) as [e2|[]] eqn:H2; [|done].
  destruct (putObject s3Client bucket key 3) as [e3|[]] eqn:H3; [|done].
  assert (attempt = 1 ∨ attempt = 2 ∨ attempt = 3)%nat as [->|[->| ->]] by lia;
    congruence.
Qed.

Lemma uploadToS3_gives_up bucket key tr :
  (∀ attempt, (1 ≤ attempt ≤ 3)%nat →
     ∃ e, putObject s3Client bucket key attempt = inl e) →
  ∃ e, uploadToS3 s3Client bucket key 3 tr = (inl e, tr).
Proof.
  intros Hfail. unfold uploadToS3. simpl.
  destruct (Hfail 1%nat ltac:(lia)) as [e1 ->].
  destruct (Hfail 2%nat ltac:(lia)) as [e2 ->].
  destruct (Hfail 3%nat ltac:(lia)) as [e3 ->].
  by eexists.
Qed.

Lemma uploadReports_succeeds bucket reportPrefix archivePrefix latestReportName tr :
  uploadable s3Client bucket (reportPrefix +:+ latestReportName) →
  uploadable s3Client bucket (archiveKeyOf s3Client archivePrefix) →
  uploadReports s3Client bucket reportPrefix archivePrefix latestReportName tr
  = (inr {| latestReportKey := reportPrefix +:+ latestReportName;
            archiveReportKey := archiveKeyOf s3Client archivePrefix |},
     (tr ++ [Uploaded bucket (reportPrefix +:+ latestReportName);
             Uploaded bucket (archiveKeyOf s3Client archivePrefix)])%list).
Proof.
  intros H1 H2. unfold uploadReports, mbind, M_bind, bind.
  rewrite uploadToS3_succeeds by done.
  fold (archiveKeyOf s3Client archivePrefix).
  rewrite uploadToS3_succeeds by done.
  unfold mret, M_ret, ret. by rewrite <-app_assoc.
Qed.

(** *** The retention sweep *)

Lemma deleteExpired_spec bucket expired : ∀ deletedCount tr,
  deleteExpired s3Client bucket expired deletedCount tr
  = (inr (deletedCount + length (List.filter (deletionSucceeds s3Client bucket) expired))%nat,
     (tr ++ (deletionEvent s3Client bucket <$> expired))%list).
Proof.
  induction expired as [|obj rest IH]; intros n tr; simpl.
  { unfold ret. by rewrite Nat.add_0_r, app_nil_r. }
  unfold deletionEvent, deletionSucceeds.
  destruct (deleteObject s3Client bucket (Key obj)) as [e|u];
    unfold mbind, M_bind, bind, emit; rewrite IH; simpl;
    rewrite <-app_assoc; simpl; rewrite ?Nat.add_succ_r; reflexivity.
Qed.

Lemma List_filter_as_filter {A} (f : A → bool) (P : A → Prop)
    `{!∀ x, Decision (P x)} (l : list A) :
  (∀ x, f x = true ↔ P x) → List.filter f l = filter P l.
Proof.
  intros Hiff. induction l as [|x l IH]; [done|].
  simpl. rewrite filter_cons, IH.
  destruct (f x) eqn:Hfx, (decide (P x)) as [HP|HP]; try done.
  - by apply Hiff in Hfx.
  - apply Hiff in HP. congruence.
Qed.

Lemma partition_Permutation {A} (f : A → bool) (l : list A) :
  l ≡ₚ List.filter (λ x, negb (f x)) l ++ List.filter f l.
Proof.
  induction l as [|x l IH]; [done|]. simpl.
  destruct (f x); simpl.
  - by rewrite <-Permutation_middle, <-IH.
  - by rewrite <-IH.
Qed.

Lemma retainedObjects_filter cutoff objects :
  retainedObjects (Some cutoff) objects = notOlderThan cutoff objects.
Proof.
  apply List_filter_as_filter. intros obj. unfold isExpired.
  destruct (Z.ltb_spec (LastModified obj) cutoff); simpl; split; intros; lia || done.
Qed.

Lemma expiredObjects_filter cutoff objects :
  expiredObjects (Some cutoff) objects = olderThan cutoff objects.
Proof.
  apply List_filter_as_filter. intros obj. unfold isExpired.
  destruct (Z.ltb_spec (LastModified obj) cutoff); split; intros; lia || done.
Qed.

(** Against the invalid date nothing is expired. *)
Lemma retainedObjects_invalid objects : retainedObjects None objects = objects.
Proof. induction objects as [|obj objects IH]; [done|]. simpl. by rewrite IH. Qed.

Lemma expiredObjects_invalid objects : expiredObjects None objects = [].
Proof. by induction objects. Qed.

(** The cutoff of a process at a fixed offset from UTC. *)
Lemma cutoffDate_fixedOffset retentionDays :
  fixedOffset s3Client →
  cutoffDate s3Client retentionDays
  = TimeClip (now s3Client - retentionDays * 86400000).
Proof.
  intros [offset Hzone]. unfold cutoffDate, UTC, LocalTime, MS_PER_DAY.
  rewrite !Hzone. f_equal. lia.
Qed.

(** The sweep on a listing that came back. *)
Lemma manageArchiveRetention_listed bucket archivePrefix retentionDays objects tr :
  listObjectsV2 s3Client bucket archivePrefix = inr objects →
  let cutoff := cutoffDate s3Client retentionDays in
  let expired := expiredObjects cutoff objects in
  manageArchiveRetention s3Client bucket archivePrefix retentionDays tr
  = (inr {| retained := length (retainedObjects cutoff objects);
            deleted := length (filter (λ obj, deletionSucceeds s3Client bucket obj = true)
                                      expired) |},
     (tr ++ (deletionEvent s3Client bucket <$> expired))%list).
Proof.
  intros Hlist cutoff expired.
  unfold manageArchiveRetention, catch, mbind, M_bind, bind, lift.
  rewrite Hlist.
  destruct objects as [|obj objects'].
  { unfold ret. simpl. by rewrite app_nil_r. }
  change (Nat.eqb (length (obj :: objects')) 0) with false. cbv beta iota.
  fold cutoff. fold expired.
  rewrite deleteExpired_spec.
  unfold mret, M_ret, ret. simpl.
  do 3 f_equal. by apply (f_equal length), List_filter_as_filter.
Qed.

(** C8. In a process at a fixed offset from UTC, whatever the listing
    of the archive prefix returns: when [now - retentionDays] days is a
    date, the sweep splits the listing at that cutoff into the objects
    modified at or after it and the older ones, sends one deletion per
    older object in turn, goes on past a deletion that fails, and
    returns the number of objects within the window and the number of
    deletions that went through. When the cutoff falls outside the
    range of dates, every object is retained and nothing is deleted. *)
Theorem retention_sweep bucket archivePrefix retentionDays objects tr :
  listObjectsV2 s3Client bucket archivePrefix = inr objects →
  fixedOffset s3Client →
  let cutoff := (now s3Client - retentionDays * 86400000)%Z in
  let kept := notOlderThan cutoff objects in
  let expired := olderThan cutoff objects in
  ((Z.abs cutoff <= MAX_TIME)%Z →
   objects ≡ₚ kept ++ expired
   ∧ manageArchiveRetention s3Client bucket archivePrefix retentionDays tr
     = (inr {| retained := length kept;
               deleted := length (filter (λ obj, deletionSucceeds s3Client bucket obj = true)
                                         expired) |},
        (tr ++ (deletionEvent s3Client bucket <$> expired))%list))
  ∧ ((MAX_TIME < Z.abs cutoff)%Z →
     manageArchiveRetention s3Client bucket archivePrefix retentionDays tr
     = (inr {| retained := length objects; deleted := 0 |}, tr)).
Proof.
  intros Hlist Hzone cutoff kept expired.
  pose proof (manageArchiveRetention_listed bucket archivePrefix retentionDays
                objects tr Hlist) as Hsweep. simpl in Hsweep.
  rewrite cutoffDate_fixedOffset in Hsweep by done. fold cutoff in Hsweep.
  unfold TimeClip in Hsweep. split.
  - intros Hrange. destruct (Z.leb_spec (Z.abs cutoff) MAX_TIME); [|lia].
    rewrite retainedObjects_filter, expiredObjects_filter in Hsweep.
    split; [|done]. unfold kept, expired.
    rewrite <-retainedObjects_filter, <-expiredObjects_filter.
    apply partition_Permutation.
  - intros Hrange. destruct (Z.leb_spec (Z.abs cutoff) MAX_TIME); [lia|].
    rewrite retainedObjects_invalid, expiredObjects_invalid in Hsweep.
    by rewrite app_nil_r in Hsweep.
Qed.

(** The only error the sweep throws is the one it wraps itself, and it
    comes from the listing. *)
Lemma manageArchiveRetention_throws bucket archivePrefix retentionDays e tr :
  listObjectsV2 s3Client bucket archivePrefix = inl e →
  manageArchiveRetention s3Client bucket archivePrefix retentionDays tr
  = (inl (Error ("Archive retention management failed: " +:+ message e)), tr).
Proof.
  intros Hlist. unfold manageArchiveRetention, catch, mbind, M_bind, bind, lift.
  by rewrite Hlist.
Qed.

(** *** Distribution *)

Lemma distributeReports_copy_fails sourceBucket sourceKey distributionBucket
    distributionKey e tr :
  truthy distributionBucket = true →
  truthy distributionKey = true →
  copyObject s3Client (or_lit distributionBucket "")
    (sourceBucket +:+ "/" +:+ sourceKey) (or_lit distributionKey "") = inl e →
  distributeReports s3Client sourceBucket sourceKey distributionBucket
    distributionKey tr
  = (inr (copyFailure e), tr).
Proof.
  intros Hb Hk Hcopy. unfold distributeReports. rewrite Hb, Hk. simpl.
  unfold catch, mbind, M_bind, bind, lift. by rewrite Hcopy.
Qed.

(** Distribution never throws. *)
Lemma distributeReports_returns sourceBucket sourceKey distributionBucket
    distributionKey tr :
  ∃ result events,
    distributeReports s3Client sourceBucket sourceKey distributionBucket
      distributionKey tr
    = (inr result, (tr ++ events)%list)
    ∧ ∀ n, Notified n ∉ events.
Proof.
  unfold distributeReports.
  destruct (negb (truthy distributionBucket) || negb (truthy distributionKey)).
  { eexists _, []. rewrite app_nil_r. split; [done|]. intros n. apply not_elem_of_nil. }
  unfold catch, mbind, M_bind, bind, lift, emit.
  destruct (copyObject _ _ _ _) as [e|u]; simpl.
  - eexists _, []. rewrite app_nil_r. split; [done|]. intros n. apply not_elem_of_nil.
  - eexists _, [_]. split; [done|]. intros n Hn.
    apply list_elem_of_singleton in Hn. discriminate.
Qed.
End archive.

(** ** index.js: the run *)

Section run.
Import JS Run archiveManager index.
Context `{Collation, DateParser, utils.Intl, excelGenerator.SummaryHost}.
Context (env : Env) (config : Config).

Lemma or_lit_truthy s d : truthy (Some s) = true → or_lit (Some s) d = s.
Proof. unfold truthy, or_lit. by destruct (String.eqb s ""). Qed.

(** Whatever the sweep throws carries its own prefix, so the warning
    text is never empty. *)
Lemma manageArchiveRetention_error bucket archivePrefix retentionDays tr e tr' :
  manageArchiveRetention (s3Client env) bucket archivePrefix retentionDays tr
  = (inl e, tr') →
  truthy (Some (message e)) = true.
Proof.
  unfold manageArchiveRetention, catch, mbind, M_bind, bind, lift, throw.
  destruct (listObjectsV2 (s3Client env) bucket archivePrefix) as [e0|objects].
  { by intros [= <- _]. }
  destruct (Nat.eqb (length objects) 0); [done|].
  rewrite deleteExpired_spec. done.
Qed.

(** A run whose document is read and normalized, whose workbook is
    built and serialized and whose two uploads go through, ends with
    status 200,
    whatever distribution and retention do; it notifies a warning when
    the sweep threw and success otherwise. *)
Lemma generate_completes doc normalizedData report reportSize distribution tr2
    retention tr3 :
  readSourceData env = inr doc →
  normalize doc (readServicesData env) = inr normalizedData →
  excelGenerator.generateExcelReport normalizedData = inr report →
  writeBuffer env report = inr reportSize →
  uploadable (s3Client env) (reportBucket config) (latestKey config) →
  uploadable (s3Client env) (reportBucket config) (archiveKey env config) →
  distributeReports (s3Client env) (reportBucket config) (latestKey config)
    (distributionBucket config) (distributionKey config) (uploads env config)
  = (inr distribution, tr2) →
  manageArchiveRetention (s3Client env) (reportBucket config) (archivePrefix config)
    (archiveRetentionDays config) tr2
  = (retention, tr3) →
  generate env config []
  = (inr {| statusCode := 200;
            body := ReportGenerated
                      (successMetricsOf env config doc normalizedData reportSize
                                        distribution retention) |},
     (tr3 ++ [Notified (closingNotification retention)])%list).
Proof.
  intros Hsrc Hnorm Hgen Hbuf Hup1 Hup2 Hdist Hret.
  unfold generate, mbind, M_bind, bind, lift.
  rewrite Hsrc, Hnorm, Hgen, Hbuf.
  rewrite (uploadReports_succeeds _ _ _ _ _ _ Hup1 Hup2).
  change ([] ++ _)%list with (uploads env config). cbn [archiveManager.latestReportKey].
  fold (latestKey config). rewrite Hdist.
  unfold catch, mbind, M_bind, bind. rewrite Hret.
  destruct retention as [e|r].
  - unfold mret, M_ret, ret.
    pose proof (manageArchiveRetention_error _ _ _ _ _ _ Hret) as Htruthy.
    rewrite Htruthy, (or_lit_truthy _ _ Htruthy).
    unfold sendWarningNotification, emit. done.
  - unfold mret, M_ret, ret. simpl truthy. cbv iota.
    unfold sendSuccessNotification, emit. done.
Qed.

Lemma handler_of_generate response trace :
  generate env config [] = (inr response, trace) →
  handler env config = (response, trace).
Proof. intros Hgen. unfold handler, catch. by rewrite Hgen. Qed.

(** A run that throws before the uploads notifies the failure and
    answers 500. *)
Lemma handler_of_failure e trace :
  generate env config [] = (inl e, trace) →
  handler env config
  = ({| statusCode := 500; body := ReportFailed (message e) (name e) |},
     (trace ++ [Notified (FailureNotification (message e))])%list).
Proof. intros Hgen. unfold handler, catch. by rewrite Hgen. Qed.

Lemma generate_invalid doc e :
  readSourceData env = inr doc →
  normalize doc (readServicesData env) = inl e →
  generate env config [] = (inl e, []).
Proof.
  intros Hsrc Hnorm. unfold generate, mbind, M_bind, bind, lift.
  by rewrite Hsrc, Hnorm.
Qed.
End run.

Section run_claims.
Import JS Run archiveManager index.

Lemma validate_fails doc :
  validate doc = inl INVALID_STRUCTURE
  ↔ metadata doc = None ∨ regions doc = None ∨ services doc = None.
Proof.
  unfold validate.
  destruct (metadata doc), (regions doc), (services doc);
    (split; [try discriminate; auto|intros [?|[?|?]]; done]).
Qed.

Lemma normalize_fails doc names :
  (∃ e, normalize doc names = inl e)
  ↔ metadata doc = None ∨ regions doc = None ∨ services doc = None
    ∨ hasNull (servicesByRegionRaw doc).
Proof.
  unfold normalize.
  destruct (validate doc) as [e|[]] eqn:Hv.
  - assert (e = INVALID_STRUCTURE) as ->.
    { unfold validate in Hv.
      destruct (metadata doc), (regions doc), (services doc); congruence. }
    apply validate_fails in Hv. split; [tauto|by eexists].
  - assert (¬ (metadata doc = None ∨ regions doc = None ∨ services doc = None))
      as Hpresent.
    { rewrite <-validate_fails. congruence. }
    destruct (flattenCoverage_spec (servicesByRegionRaw doc)) as [[-> Hn]|[-> Hn]].
    + split; [tauto|by eexists].
    + split; [by intros [e [=]]|tauto].
Qed.

(** The validation step throws one error. *)
Lemma validate_error doc e : validate doc = inl e → e = INVALID_STRUCTURE.
Proof.
  unfold validate.
  destruct (metadata doc), (regions doc), (services doc); congruence.
Qed.

(** With the two uploads through, the run answers 200 whatever
    distribution and retention do. *)
Lemma handler_completes
    `{Collation, DateParser, utils.Intl, excelGenerator.SummaryHost}
    env config doc normalizedData report reportSize :
  readSourceData env = inr doc →
  normalize doc (readServicesData env) = inr normalizedData →
  excelGenerator.generateExcelReport normalizedData = inr report →
  writeBuffer env report = inr reportSize →
  uploadable (s3Client env) (reportBucket config) (latestKey config) →
  uploadable (s3Client env) (reportBucket config) (archiveKey env config) →
  ∃ metrics trace,
    handler env config
    = ({| statusCode := 200; body := ReportGenerated metrics |}, trace).
Proof.
  intros Hsrc Hnorm Hgen Hbuf Hup1 Hup2.
  destruct (distributeReports_returns (s3Client env) (reportBucket config)
              (latestKey config) (distributionBucket config)
              (distributionKey config) (uploads env config))
    as (distribution & events & Hdist & _).
  destruct (manageArchiveRetention (s3Client env) (reportBucket config)
              (archivePrefix config) (archiveRetentionDays config)
              (uploads env config ++ events)%list) as [retention tr3] eqn:Hret.
  eexists _, _. apply handler_of_generate.
  by eapply generate_completes.
Qed.

(** The workbook of a model without coverage mapping carries the
    placeholder. *)
Lemma generateExcelReport_coverage
    `{Collation, DateParser, utils.Intl, excelGenerator.SummaryHost}
    normalizedData report sheet :
  excelGenerator.createServiceCoverageSheet normalizedData = inr sheet →
  excelGenerator.generateExcelReport normalizedData = inr report →
  excelGenerator.coverageSheet report = sheet.
Proof.
  unfold excelGenerator.generateExcelReport. intros ->.
  destruct (excelGenerator.createSummarySheet normalizedData); [done|].
  by intros [= <-].
Qed.

(** C7, as the code has it. The validation step throws only when
    [metadata], [regions] or [services] is missing, and then its one
    error. When the three are there and the coverage mapping is not,
    normalization goes through, the Service Coverage sheet is built as
    the one centered placeholder, the workbook carries it, and a run
    whose workbook is written and uploaded answers 200. *)
Theorem validation_and_missing_coverage
    `{Collation, DateParser, utils.Intl, excelGenerator.SummaryHost} doc names :
  (∀ e, validate doc = inl e →
        e = INVALID_STRUCTURE
        ∧ (metadata doc = None ∨ regions doc = None ∨ services doc = None))
  ∧ (is_Some (metadata doc) → is_Some (regions doc) → is_Some (services doc) →
     servicesByRegion doc = None →
     ∃ normalizedData,
       normalize doc names = inr normalizedData
       ∧ excelGenerator.createServiceCoverageSheet normalizedData
         = inr NOT_AVAILABLE
       ∧ ∀ env config report reportSize,
           readSourceData env = inr doc →
           readServicesData env = names →
           excelGenerator.generateExcelReport normalizedData = inr report →
           writeBuffer env report = inr reportSize →
           uploadable (s3Client env) (reportBucket config) (latestKey config) →
           uploadable (s3Client env) (reportBucket config) (archiveKey env config) →
           excelGenerator.coverageSheet report = NOT_AVAILABLE
           ∧ statusCode (handler env config).1 = 200%Z).
Proof.
  split.
  { intros e He. pose proof (validate_error doc e He) as ->.
    split; [done|]. by apply validate_fails. }
  intros [md Hmd] [rs Hrs] [ss Hss] Hcov.
  unfold normalize, validate, servicesByRegionRaw.
  rewrite Hmd, Hrs, Hss, Hcov, flattenCoverage_empty.
  eexists. split; [reflexivity|]. split; [reflexivity|].
  intros env config report reportSize Hsrc <- Hgen Hbuf Hup1 Hup2.
  split; [by eapply generateExcelReport_coverage; [|exact Hgen]|].
  edestruct (handler_completes env config doc) as (metrics & trace & ->); try done.
  unfold normalize, validate, servicesByRegionRaw.
  by rewrite Hmd, Hrs, Hss, Hcov, flattenCoverage_empty.
Qed.

(** C9, as the code has it. When only the mirror copy fails, the run
    answers 200, its result records the failure under
    [distributionResult] (not distributed, with the message and the name
    of the error), both uploads are in the trace, and the one
    notification it dispatches is the success notification: no warning
    and no failure notification is sent. *)
Theorem mirror_failure_is_recorded
    `{Collation, DateParser, utils.Intl, excelGenerator.SummaryHost} env config e :
  onlyMirrorFails env config e →
  ∃ metrics deletions,
    handler env config
    = ({| statusCode := 200; body := ReportGenerated metrics |},
       (uploads env config ++ deletions ++ [Notified SuccessNotification])%list)
    ∧ distributionResult metrics = copyFailure e
    ∧ distributed (distributionResult metrics) = false
    ∧ error (distributionResult metrics) = Some (message e)
    ∧ (∀ n, Notified n ∉ deletions)
    ∧ (∀ warning,
         Notified (WarningNotification warning) ∉ (handler env config).2).
Proof.
  intros [(doc & nd & report & size & Hsrc & Hnorm & Hbook & Hbuf) Hup1 Hup2
            [Hb Hk] Hcopy [objects Hlist]].
  pose proof (distributeReports_copy_fails (s3Client env) _ _ _ _ e
                (uploads env config) Hb Hk Hcopy) as Hdist.
  pose proof (manageArchiveRetention_listed (s3Client env) _ _
                (archiveRetentionDays config) objects (uploads env config) Hlist)
    as Hret.
  pose proof (generate_completes env config doc nd report size _ _ _ _
                Hsrc Hnorm Hbook Hbuf Hup1 Hup2 Hdist Hret) as Hgen.
  apply handler_of_generate in Hgen. rewrite <-app_assoc in Hgen.
  eexists _, _. rewrite Hgen. split; [reflexivity|].
  split; [reflexivity|]. split; [reflexivity|]. split; [reflexivity|].
  assert (∀ n, Notified n ∉
            deletionEvent (s3Client env) (reportBucket config) <$>
              expiredObjects
                (cutoffDate (s3Client env) (archiveRetentionDays config)) objects)
    as Hdel.
  { intros n (obj & Hev & _)%list_elem_of_fmap.
    unfold deletionEvent in Hev. by destruct (deletionSucceeds _ _ obj). }
  split; [exact Hdel|].
  intros warning Hin. simpl in Hin.
  rewrite !elem_of_cons, elem_of_app, list_elem_of_singleton in Hin.
  destruct Hin as [?|[?|[Hin|?]]]; try done. by apply Hdel in Hin.
Qed.
End run_claims.

Section run_samples.
Import JS Run archiveManager index Host Sample.

Lemma healthy_uploadable objects bucket key :
  uploadable (healthyS3 objects) bucket key.
Proof. exists 1%nat, tt. split; [lia|done]. Qed.

Lemma mirrorDown_uploadable objects bucket key :
  uploadable (mirrorDownS3 objects) bucket key.
Proof. exists 1%nat, tt. split; [lia|done]. Qed.

Lemma healthy_fixedOffset objects : fixedOffset (healthyS3 objects).
Proof. by exists 0%Z. Qed.

(** The sweep of the specification: archives of 1, 5, 8 and 10 days
    under a window of 7 days. *)
Lemma retention_sweep_witness :
  listObjectsV2 (healthyS3 fourArchives) "aws-service-reports" "archive/"
  = inr fourArchives
  ∧ fixedOffset (healthyS3 fourArchives)
  ∧ (Z.abs (now (healthyS3 fourArchives) - 7 * 86400000) <= MAX_TIME)%Z
  ∧ manageArchiveRetention (healthyS3 fourArchives) "aws-service-reports"
      "archive/" 7 []
    = (inr {| retained := 2; deleted := 2 |},
       [Deleted "aws-service-reports" "archive/c.xlsx";
        Deleted "aws-service-reports" "archive/d.xlsx"]).
Proof.
  assert (Z.abs (now (healthyS3 fourArchives) - 7 * 86400000) <= MAX_TIME)%Z
    as Hrange by (vm_compute; discriminate).
  split; [reflexivity|]. split; [apply healthy_fixedOffset|].
  split; [exact Hrange|].
  rewrite (proj2 (proj1 (retention_sweep (healthyS3 fourArchives)
                           "aws-service-reports" "archive/" 7 fourArchives []
                           eq_refl (healthy_fixedOffset fourArchives))
                    Hrange)).
  reflexivity.
Defined.

(** The sample document without its coverage mapping: the run goes
    through and the workbook carries the placeholder. *)
Lemma validation_and_missing_coverage_witness :
  is_Some (metadata withoutCoverage)
  ∧ is_Some (regions withoutCoverage)
  ∧ is_Some (services withoutCoverage)
  ∧ servicesByRegion withoutCoverage = None
  ∧ ∃ normalizedData report,
      normalize withoutCoverage (readServicesData (env (healthyS3 []) withoutCoverage))
      = inr normalizedData
      ∧ excelGenerator.generateExcelReport normalizedData = inr report
      ∧ excelGenerator.coverageSheet report = NOT_AVAILABLE
      ∧ statusCode (handler (env (healthyS3 []) withoutCoverage) config).1 = 200%Z.
Proof.
  assert (is_Some (metadata withoutCoverage)) as Hmd by (by eexists).
  assert (is_Some (regions withoutCoverage)) as Hrs by (by eexists).
  assert (is_Some (services withoutCoverage)) as Hss by (by eexists).
  split; [exact Hmd|]. split; [exact Hrs|]. split; [exact Hss|].
  split; [reflexivity|].
  destruct (proj2 (validation_and_missing_coverage withoutCoverage
                     (readServicesData (env (healthyS3 []) withoutCoverage)))
              Hmd Hrs Hss eq_refl) as (normalizedData & Hnorm & _ & Hrun).
  destruct (excelGenerator.generateExcelReport normalizedData) as [e|report] eqn:Hgen.
  { exfalso. injection Hnorm as <-. vm_compute in Hgen. discriminate Hgen. }
  exists normalizedData, report. split; [exact Hnorm|]. split; [exact Hgen|].
  exact (Hrun (env (healthyS3 []) withoutCoverage) config report 8192%N
           eq_refl eq_refl eq_refl eq_refl
           (healthy_uploadable [] _ _) (healthy_uploadable [] _ _)).
Defined.

(** C7 fails as stated: a document with its regions and services, but
    without [metadata], is rejected and the run answers 500. *)
Lemma missing_metadata_aborts :
  is_Some (regions withoutMetadata)
  ∧ is_Some (services withoutMetadata)
  ∧ servicesByRegion withoutMetadata = None
  ∧ normalize withoutMetadata [] = inl INVALID_STRUCTURE
  ∧ handler (env (healthyS3 fourArchives) withoutMetadata) config
    = ({| statusCode := 500;
          body := ReportFailed (message INVALID_STRUCTURE) "Error" |},
       [Notified (FailureNotification (message INVALID_STRUCTURE))])
  ∧ ¬ abortsOnlyWithoutContainers.
Proof.
  split; [by eexists|]. split; [by eexists|]. split; [done|].
  split; [done|]. split; [vm_compute; reflexivity|].
  intros Hclaim.
  destruct (Hclaim withoutMetadata [] INVALID_STRUCTURE eq_refl); discriminate.
Qed.

Lemma mirrorDown_onlyMirrorFails :
  onlyMirrorFails (env (mirrorDownS3 fourArchives) document) config
    (Error "Access Denied").
Proof.
  split.
  - eexists document, _, _, _. split; [reflexivity|].
    split; [vm_compute; reflexivity|]. split; [vm_compute; reflexivity|reflexivity].
  - apply mirrorDown_uploadable.
  - apply mirrorDown_uploadable.
  - by split.
  - reflexivity.
  - by eexists.
Defined.

Lemma mirror_failure_is_recorded_witness :
  onlyMirrorFails (env (mirrorDownS3 fourArchives) document) config
    (Error "Access Denied")
  ∧ ∀ warning,
      Notified (WarningNotification warning)
      ∉ (handler (env (mirrorDownS3 fourArchives) document) config).2.
Proof.
  split; [exact mirrorDown_onlyMirrorFails|].
  destruct (mirror_failure_is_recorded _ _ _ mirrorDown_onlyMirrorFails)
    as (metrics & deletions & _ & _ & _ & _ & _ & Hnone).
  exact Hnone.
Defined.

(** C9 fails as stated: with the copy denied and everything else in
    order, the run dispatches the success notification and no warning. *)
Lemma mirror_failure_sends_success :
  onlyMirrorFails (env (mirrorDownS3 fourArchives) document) config
    (Error "Access Denied")
  ∧ (handler (env (mirrorDownS3 fourArchives) document) config).2
    = [Uploaded "aws-service-reports" "reports/aws-service-report-latest.xlsx";
       Uploaded "aws-service-reports"
         "archive/aws-service-report-2025-10-16-020000.xlsx";
       Deleted "aws-service-reports" "archive/c.xlsx";
       Deleted "aws-service-reports" "archive/d.xlsx";
       Notified SuccessNotification]
  ∧ ¬ mirrorFailureWarns.
Proof.
  assert ((handler (env (mirrorDownS3 fourArchives) document) config).2
          = [Uploaded "aws-service-reports" "reports/aws-service-report-latest.xlsx";
             Uploaded "aws-service-reports"
               "archive/aws-service-report-2025-10-16-020000.xlsx";
             Deleted "aws-service-reports" "archive/c.xlsx";
             Deleted "aws-service-reports" "archive/d.xlsx";
             Notified SuccessNotification]) as Htrace
    by (vm_compute; reflexivity).
  split; [exact mirrorDown_onlyMirrorFails|]. split; [exact Htrace|].
  intros Hclaim.
  destruct (Hclaim _ _ _ _ _ _ _ mirrorDown_onlyMirrorFails) as [warning Hin].
  rewrite Htrace in Hin.
  repeat (apply elem_of_cons in Hin as [Hin|Hin]; [discriminate|]).
  by apply elem_of_nil in Hin.
Qed.
End run_samples.

(** ** The launch date column of the Regions sheet *)

Section launch_date.
Import JS excelGenerator.
Context `{DateParser}.

(** [new Date] does not throw, so the [catch] branch that would keep the
    original text is never taken. *)
Lemma formatLaunchDate_spec text :
  formatLaunchDate text
  = if String.eqb text "" then "N/A"
    else match Date_parse text with
         | Some tv => toISOString_date tv
         | None => "N/A"
         end.
Proof.
  unfold formatLaunchDate, new_Date, try_catch.
  destruct (String.eqb text ""); [done|]. by destruct (Date_parse text).
Qed.

Lemma launch_date_absent servicesByRegion region :
  launchDateOf region = "" →
  launchDateCell (regionRow servicesByRegion region) = "N/A"
  ∧ launchDateFont (regionRow servicesByRegion region) = Some GRAY_ITALIC.
Proof.
  intros Habsent. unfold regionRow. simpl. fold (launchDateOf region).
  by rewrite formatLaunchDate_spec, Habsent.
Qed.

Lemma launch_date_parsed servicesByRegion region tv :
  launchDateOf region ≠ "" →
  Date_parse (launchDateOf region) = Some tv →
  launchDateCell (regionRow servicesByRegion region) = toISOString_date tv.
Proof.
  intros Hpresent Hparse. unfold regionRow. simpl. fold (launchDateOf region).
  rewrite formatLaunchDate_spec, Hparse.
  apply String.eqb_neq in Hpresent. by rewrite Hpresent.
Qed.

(** C6, on the code. A launch date that is present but does not parse is
    rendered "N/A" in gray italic, like an absent one: the original text
    is not passed through. *)
Theorem unparseable_launch_date_is_not_available servicesByRegion region :
  launchDateOf region ≠ "" →
  Date_parse (launchDateOf region) = None →
  launchDateCell (regionRow servicesByRegion region) = "N/A"
  ∧ launchDateFont (regionRow servicesByRegion region) = Some GRAY_ITALIC.
Proof.
  intros Hpresent Hparse. unfold regionRow. simpl. fold (launchDateOf region).
  rewrite formatLaunchDate_spec, Hparse.
  apply String.eqb_neq in Hpresent. by rewrite Hpresent.
Qed.
End launch_date.

Section launch_date_samples.
Import JS excelGenerator Host Sample.

Lemma unparseable_launch_date_witness :
  launchDateOf unparseable = "not-a-date"
  ∧ Date_parse "not-a-date" = None
  ∧ launchDateCell (regionRow ∅ unparseable) = "N/A"
  ∧ launchDateCell (regionRow ∅ unparseable) ≠ "not-a-date".
Proof.
  assert (launchDateOf unparseable ≠ "") as Hpresent by done.
  assert (Date_parse (launchDateOf unparseable) = None) as Hparse by reflexivity.
  destruct (unparseable_launch_date_is_not_available ∅ unparseable Hpresent Hparse)
    as [Hcell _].
  split; [reflexivity|]. split; [reflexivity|]. split; [exact Hcell|].
  rewrite Hcell. discriminate.
Defined.
End launch_date_samples.

(* ===================================================================== *)
(** * More of the code                                                    *)
(* ===================================================================== *)

(** ** Numbers that binary64 holds exactly *)

Section binary64_exact.
Import JS.
Local Open Scope Q_scope.

Lemma round_half_even_Z y (m : Z) : y == inject_Z m -> round_half_even y = m.
Proof.
  intros Hy. unfold round_half_even.
  rewrite (Qfloor_comp _ _ Hy), Qfloor_Z.
  assert ((y - inject_Z m ?= 1 # 2) = Lt) as ->; [|done].
  apply Qlt_alt.
  assert (y - inject_Z m == 0) as -> by (rewrite Hy; ring). reflexivity.
Qed.

Lemma inject_Z_lt_pow z (k : Z) :
  (z < 2 ^ 53)%Z -> inject_Z z * 2 ^ k < 2 ^ (53 + k).
Proof.
  intros Hz. rewrite Qpower_plus by discriminate.
  apply Qmult_lt_compat_r; [by apply Qpower_0_lt|].
  change (2 ^ 53) with (inject_Z (2 ^ 53)). by rewrite <-Zlt_Qlt.
Qed.

(** A positive number [z * 2^k] with [z < 2^53] is its own rounding. *)
Lemma binary64_pos_exact x (z k : Z) :
  0 < x -> x == inject_Z z * 2 ^ k -> (z < 2 ^ 53)%Z -> binary64_pos x == x.
Proof.
  intros Hx Hxz Hz. unfold binary64_pos.
  pose proof (log2_floor_le x Hx) as He.
  set (e := log2_floor x) in *.
  assert (e < 53 + k)%Z as Hek.
  { apply (Qpower_lt_compat_l_inv 2); [|reflexivity].
    eapply Qle_lt_trans; [exact He|]. rewrite Hxz. by apply inject_Z_lt_pow. }
  set (j := (52 - e + k)%Z).
  assert (x * 2 ^ (52 - e) == inject_Z (z * 2 ^ j)) as Hint.
  { rewrite inject_Z_mult, Zpower_Qpower by (unfold j; lia).
    change (inject_Z 2) with 2. rewrite Hxz, <-Qmult_assoc.
    rewrite <-Qpower_plus by discriminate.
    by replace (k + (52 - e))%Z with j by (unfold j; lia). }
  rewrite (round_half_even_Z _ _ Hint).
  rewrite inject_Z_mult, Zpower_Qpower by (unfold j; lia).
  change (inject_Z 2) with 2. rewrite Hxz, <-Qmult_assoc.
  rewrite <-Qpower_plus by discriminate.
  by replace (j + (e - 52))%Z with k by (unfold j; lia).
Qed.

Lemma binary64_exact x (z k : Z) :
  x == inject_Z z * 2 ^ k -> (Z.abs z < 2 ^ 53)%Z -> binary64 x == x.
Proof.
  intros Hxz Hz. unfold binary64.
  destruct (Qnum x) as [|p|p] eqn:Hn.
  - destruct x as [a b]. simpl in Hn. subst a. reflexivity.
  - apply (binary64_pos_exact x z k); [|done|lia].
    destruct x as [a b]. simpl in Hn. subst a. reflexivity.
  - assert (0 < - x) as Hneg.
    { destruct x as [a b]. simpl in Hn. subst a. reflexivity. }
    rewrite (binary64_pos_exact (- x) (- z) k); [ring|done| |lia].
    rewrite Hxz, inject_Z_opp. ring.
Qed.

(** Integers below 2^53 are numbers. *)
Lemma binary64_Z (z : Z) :
  (Z.abs z < 2 ^ 53)%Z -> binary64 (inject_Z z) == inject_Z z.
Proof.
  intros Hz. apply (binary64_exact _ z 0); [|done].
  change (2 ^ 0) with 1. ring.
Qed.
End binary64_exact.

(** ** [toFixed] with any number of decimals *)

Section fixed_notation.
Import JS.

Lemma pretty_N_snoc (n : N) :
  (10 <= n)%N → pretty n = pretty (n / 10)%N +:+ digit (n mod 10)%N.
Proof.
  intros Hn. unfold pretty, pretty_N.
  assert (n `div` 10 ≠ 0)%N as Hq.
  { intros Hq. apply N.div_small_iff in Hq; lia. }
  rewrite !decide_False by lia.
  rewrite pretty_N_go_step by lia. by rewrite pretty_N_go_app.
Qed.

Lemma pretty_Z_of_N (n : N) : pretty (Z.of_N n) = pretty n.
Proof. by destruct n. Qed.

Lemma substring_app_l a b : substring 0 (String.length a) (a +:+ b) = a.
Proof.
  induction a as [|c a IH]; simpl.
  - by destruct b.
  - by rewrite IH.
Qed.

Lemma substring_all b : substring 0 (String.length b) b = b.
Proof. induction b as [|c b IH]; simpl; [done|by rewrite IH]. Qed.

Lemma substring_app_r a b :
  substring (String.length a) (String.length b) (a +:+ b) = b.
Proof.
  induction a as [|c a IH]; simpl; [apply substring_all|done].
Qed.

Lemma digit_length d : String.length (digit d) = 1.
Proof. reflexivity. Qed.

(** With two decimals: the hundreds and above, a point, the tens and
    the units. *)
Lemma toFixed_digits_2 n : toFixed_digits 2 n = twoDecimals n.
Proof.
  unfold toFixed_digits, twoDecimals.
  destruct (decide (n < 10)%N) as [H1|H1].
  { rewrite pretty_N_digit by done.
    rewrite (N.div_small n 100), (N.div_small n 10), (N.mod_small n 10) by lia.
    reflexivity. }
  rewrite (pretty_N_snoc n) by lia.
  destruct (decide (n < 100)%N) as [H2|H2].
  { assert (n `div` 10 < 10)%N as Hq by (apply N.Div0.div_lt_upper_bound; lia).
    rewrite (pretty_N_digit (n `div` 10)) by done.
    rewrite (N.div_small n 100), (N.mod_small (n `div` 10) 10) by lia.
    reflexivity. }
  assert (10 <= n `div` 10)%N as Hq by (apply N.div_le_lower_bound; lia).
  rewrite (pretty_N_snoc (n `div` 10)) by done.
  rewrite N.Div0.div_div. change (10 * 10)%N with 100%N.
  set (w := pretty (n `div` 100)%N).
  set (d1 := digit ((n `div` 10) `mod` 10)). set (d0 := digit (n `mod` 10)).
  rewrite string_app_assoc.
  assert (String.length (w +:+ d1 +:+ d0) = String.length w + 2) as Hlen
    by (by rewrite !string_length_app).
  rewrite Hlen.
  replace (Nat.leb (String.length w + 2) 2) with false.
  2:{ symmetry. apply Nat.leb_gt.
      destruct (all_digits_pretty (n `div` 100)) as [_ Hne]. fold w in Hne.
      destruct w; [done|simpl; lia]. }
  rewrite Hlen. replace (String.length w + 2 - 2) with (String.length w) by lia.
  rewrite substring_app_l.
  change 2 with (String.length (d1 +:+ d0)) at 1.
  by rewrite substring_app_r.
Qed.

Lemma toFixed_digits_0 n : toFixed_digits 0 n = pretty n.
Proof. reflexivity. Qed.

(** The general notation agrees with the one-decimal one of the
    Services sheet. *)
Lemma toFixed_digits_1 n : toFixed_digits 1 n = toFixed1_digits n.
Proof.
  unfold toFixed_digits, toFixed1_digits.
  destruct (decide (n < 10)%N) as [H1|H1].
  { rewrite pretty_N_digit by done.
    rewrite (N.div_small n 10), (N.mod_small n 10) by lia. reflexivity. }
  rewrite (pretty_N_snoc n) by lia.
  set (w := pretty (n `div` 10)%N). set (d0 := digit (n `mod` 10)).
  assert (String.length (w +:+ d0) = String.length w + 1) as Hlen
    by (by rewrite !string_length_app).
  rewrite Hlen.
  replace (Nat.leb (String.length w + 1) 1) with false.
  2:{ symmetry. apply Nat.leb_gt.
      destruct (all_digits_pretty (n `div` 10)) as [_ Hne]. fold w in Hne.
      destruct w; [done|simpl; lia]. }
  rewrite Hlen. replace (String.length w + 1 - 1) with (String.length w) by lia.
  rewrite substring_app_l.
  change 1 with (String.length d0) at 1.
  by rewrite substring_app_r.
Qed.

Lemma toFixed_1 x : toFixed 1 x = toFixed1 x.
Proof.
  unfold toFixed, toFixed1. rewrite !toFixed_digits_1. reflexivity.
Qed.
End fixed_notation.

(** ** utils.js: durations, sizes and days *)

Section utils_numbers.
Import JS utils.
Local Open Scope Q_scope.

Lemma Qfloor_unique x (q : Z) :
  inject_Z q <= x -> x < inject_Z q + 1 -> Qfloor x = q.
Proof.
  intros Hlo Hhi.
  pose proof (Qfloor_le x) as H1. pose proof (Qlt_floor x) as H2.
  rewrite inject_Z_plus in H2. change (inject_Z 1) with 1 in H2.
  assert (inject_Z (Qfloor x) < inject_Z (q + 1)) as H3
    by (rewrite inject_Z_plus; change (inject_Z 1) with 1; lra).
  assert (inject_Z q < inject_Z (Qfloor x + 1)) as H4
    by (rewrite inject_Z_plus; change (inject_Z 1) with 1; lra).
  rewrite <-Zlt_Qlt in H3, H4. lia.
Qed.

Lemma Qceiling_unique x (c : Z) :
  inject_Z c - 1 < x -> x <= inject_Z c -> Qceiling x = c.
Proof.
  intros Hlo Hhi.
  pose proof (Qle_ceiling x) as H1. pose proof (Qceiling_lt x) as H2.
  unfold Z.sub in H2. rewrite inject_Z_plus, inject_Z_opp in H2.
  change (inject_Z 1) with 1 in H2.
  assert (inject_Z (c - 1) < inject_Z (Qceiling x)) as H3
    by (unfold Z.sub; rewrite inject_Z_plus, inject_Z_opp;
        change (inject_Z 1) with 1; lra).
  assert (inject_Z (Qceiling x - 1) < inject_Z c) as H4
    by (unfold Z.sub; rewrite inject_Z_plus, inject_Z_opp;
        change (inject_Z 1) with 1; lra).
  rewrite <-Zlt_Qlt in H3, H4. lia.
Qed.

Lemma nearest_of_ratio f x (a b : Z) :
  x * inject_Z (10 ^ Z.of_nat f) + (1 # 2) == inject_Z a / inject_Z b ->
  nearest f x = Z.to_N (a / b).
Proof.
  intros Hx. unfold nearest. by rewrite (Qfloor_comp _ _ Hx), <-Zdiv_Qdiv.
Qed.

(** Dividing an integer below 2^53 by a power of two loses nothing. *)
Lemma div_pow2_exact (z k : Z) :
  (Z.abs z < 2 ^ 53)%Z -> (0 <= k)%Z ->
  div (inject_Z z) (inject_Z (2 ^ k)) == inject_Z z / inject_Z (2 ^ k).
Proof.
  intros Hz Hk. unfold div. apply (binary64_exact _ z (- k)); [|done].
  rewrite Qpower_opp, Zpower_Qpower by done. reflexivity.
Qed.

Lemma toFixed_2_exact x (z b h : Z) :
  (0 <= z)%Z -> (0 < h)%Z -> b = (2 * h)%Z ->
  x == inject_Z z / inject_Z b ->
  toFixed 2 x = twoDecimals (Z.to_N ((100 * z + h) / b)).
Proof.
  intros Hz Hh -> Hx.
  assert (0 < inject_Z h) as HH
    by (change 0 with (inject_Z 0); rewrite <-Zlt_Qlt; lia).
  assert (0 <= inject_Z z) as HZ
    by (change 0 with (inject_Z 0); rewrite <-Zle_Qle; lia).
  unfold toFixed.
  assert (Qle_bool 0 x = true) as ->.
  { apply Qle_bool_iff. rewrite Hx, inject_Z_mult.
    apply Qle_shift_div_l; [|lra]. change (inject_Z 2) with 2. lra. }
  rewrite toFixed_digits_2. f_equal. apply nearest_of_ratio.
  rewrite Hx, inject_Z_plus, !inject_Z_mult.
  change (inject_Z (10 ^ Z.of_nat 2)) with 100.
  change (inject_Z 100) with 100. change (inject_Z 2) with 2.
  field. lra.
Qed.

(** X1. The size is the exact quotient, rounded to the nearest hundredth,
    a half going up. *)
Theorem formatFileSize_exact bytes :
  (0 <= bytes < 2 ^ 53)%Z ->
  formatFileSize bytes
  = if (bytes <? 1024)%Z then pretty bytes +:+ " bytes"
    else if (bytes <? 1048576)%Z
    then twoDecimals (Z.to_N ((100 * bytes + 512) / 1024)) +:+ " KB"
    else twoDecimals (Z.to_N ((100 * bytes + 524288) / 1048576)) +:+ " MB".
Proof.
  intros [H0 Hmax]. unfold formatFileSize.
  destruct (bytes <? 1024)%Z; [done|].
  destruct (bytes <? 1048576)%Z.
  - rewrite (toFixed_2_exact _ bytes 1024 512); [done|lia|lia|done|].
    apply (div_pow2_exact bytes 10); lia.
  - rewrite (toFixed_2_exact _ bytes 1048576 524288); [done|lia|lia|done|].
    apply (div_pow2_exact bytes 20); lia.
Qed.

(** What a quotient of two positive integers is rounded to. *)
Lemma div_error (a b : Z) :
  (0 < a)%Z -> (0 < b)%Z ->
  let x := div (inject_Z a) (inject_Z b) in
  inject_Z a * (1 - ulp_half) <= x * inject_Z b
  /\ x * inject_Z b <= inject_Z a * (1 + ulp_half).
Proof.
  intros Ha Hb x.
  assert (0 < inject_Z a) as HA
    by (change 0 with (inject_Z 0); rewrite <-Zlt_Qlt; lia).
  assert (0 < inject_Z b) as HB
    by (change 0 with (inject_Z 0); rewrite <-Zlt_Qlt; lia).
  set (q0 := inject_Z a / inject_Z b).
  assert (q0 * inject_Z b == inject_Z a) as Hq0 by (unfold q0; field; lra).
  assert (0 < q0) as Hpos by (unfold q0; apply Qlt_shift_div_l; lra).
  destruct (binary64_error q0 Hpos) as [Hlo Hhi].
  unfold x, div. fold q0. set (y := binary64 q0) in *.
  assert (q0 * (1 - ulp_half) * inject_Z b <= y * inject_Z b) as H1
    by (apply Qmult_le_compat_r; lra).
  assert (y * inject_Z b <= q0 * (1 + ulp_half) * inject_Z b) as H2
    by (apply Qmult_le_compat_r; lra).
  unfold ulp_half in *. clearbody y q0. split; lra.
Qed.

Lemma div_nonneg (a b : Z) :
  (0 <= a)%Z -> (0 < b)%Z -> 0 <= div (inject_Z a) (inject_Z b).
Proof.
  intros Ha Hb. unfold div. apply binary64_nonneg.
  assert (0 <= inject_Z a) as HA
    by (change 0 with (inject_Z 0); rewrite <-Zle_Qle; lia).
  assert (0 < inject_Z b) as HB
    by (change 0 with (inject_Z 0); rewrite <-Zlt_Qlt; lia).
  apply Qle_shift_div_l; lra.
Qed.

(** [Math.floor(ms / 60000)] is the integer quotient. *)
Lemma minutes_floor ms :
  (60000 <= ms < 2 ^ 53)%Z -> Qfloor (div (inject_Z ms) 60000) = (ms / 60000)%Z.
Proof.
  intros [Hlo Hhi].
  pose proof (Z.div_mod ms 60000 ltac:(lia)) as Hdm.
  pose proof (Z.mod_pos_bound ms 60000 ltac:(lia)) as Hr.
  set (q := (ms / 60000)%Z) in *. set (r := (ms mod 60000)%Z) in *.
  assert (inject_Z ms == 60000 * inject_Z q + inject_Z r) as HM.
  { rewrite Hdm at 1. by rewrite inject_Z_plus, inject_Z_mult. }
  assert (0 <= inject_Z r) as HR0
    by (change 0 with (inject_Z 0); rewrite <-Zle_Qle; lia).
  assert (inject_Z r <= 59999) as HR1
    by (change 59999 with (inject_Z 59999); rewrite <-Zle_Qle; lia).
  assert (inject_Z ms < 9007199254740992) as HM1
    by (change 9007199254740992 with (inject_Z (2 ^ 53)); rewrite <-Zlt_Qlt; lia).
  destruct (Z.eq_dec r 0%Z) as [Hr0|Hr0].
  - assert (div (inject_Z ms) 60000 == inject_Z q) as Hx.
    { unfold div. rewrite (binary64_exact _ q 0); [|change (2 ^ 0) with 1|lia].
      - rewrite HM, Hr0. change (inject_Z 0) with 0. field.
      - rewrite HM, Hr0. change (inject_Z 0) with 0. field. }
    by rewrite (Qfloor_comp _ _ Hx), Qfloor_Z.
  - assert (1 <= inject_Z r) as HR2
      by (change 1 with (inject_Z 1); rewrite <-Zle_Qle; lia).
    destruct (div_error ms 60000) as [H1 H2]; [lia|lia|].
    change (inject_Z 60000) with 60000 in H1, H2.
    set (x := div (inject_Z ms) 60000) in *. unfold ulp_half in *.
    apply Qfloor_unique; clearbody x; lra.
Qed.

(** [(r / 1000).toFixed(0)] rounds to the nearest second, a half going
    up: at a half, the quotient is a number and nothing is lost. *)
Lemma seconds_nearest r :
  (0 <= r < 60000)%Z ->
  nearest 0 (div (inject_Z r) 1000) = Z.to_N ((r + 500) / 1000).
Proof.
  intros [Hlo Hhi]. unfold nearest. f_equal.
  change (inject_Z (10 ^ Z.of_nat 0)) with 1.
  destruct (Z.eq_dec r 0%Z) as [->|Hr0]; [reflexivity|].
  pose proof (Z.div_mod r 1000 ltac:(lia)) as Hdm.
  pose proof (Z.mod_pos_bound r 1000 ltac:(lia)) as Ht.
  set (s := (r / 1000)%Z) in *. set (t := (r mod 1000)%Z) in *.
  assert (inject_Z r == 1000 * inject_Z s + inject_Z t) as HR.
  { rewrite Hdm at 1. by rewrite inject_Z_plus, inject_Z_mult. }
  assert (0 <= s < 60)%Z as Hs by lia.
  destruct (Z.eq_dec t 500%Z) as [Ht5|Ht5].
  - assert ((r + 500) / 1000 = s + 1)%Z as ->.
    { symmetry. apply (Z.div_unique _ _ _ 0); lia. }
    assert (div (inject_Z r) 1000 == inject_Z s + (1 # 2)) as Hx.
    { unfold div. rewrite (binary64_exact _ (2 * s + 1) (-1)); [| |lia].
      - rewrite HR, Ht5. change (inject_Z 500) with 500. field.
      - rewrite HR, Ht5, inject_Z_plus, inject_Z_mult.
        change (inject_Z 500) with 500. change (inject_Z 2) with 2.
        change (inject_Z 1) with 1. change (2 ^ (-1)) with (1 # 2). field. }
    apply Qfloor_unique; rewrite Hx, inject_Z_plus; change (inject_Z 1) with 1; lra.
  - assert (1 <= inject_Z r) as HR1
      by (change 1 with (inject_Z 1); rewrite <-Zle_Qle; lia).
    assert (inject_Z r <= 59999) as HR2
      by (change 59999 with (inject_Z 59999); rewrite <-Zle_Qle; lia).
    assert (0 <= inject_Z t) as HT0
      by (change 0 with (inject_Z 0); rewrite <-Zle_Qle; lia).
    destruct (div_error r 1000) as [H1 H2]; [lia|lia|].
    change (inject_Z 1000) with 1000 in H1, H2.
    set (x := div (inject_Z r) 1000) in *. unfold ulp_half in *.
    destruct (Z.lt_ge_cases t 500%Z) as [Hlt|Hge].
    + assert ((r + 500) / 1000 = s)%Z as ->.
      { symmetry. apply (Z.div_unique _ _ _ (t + 500)); lia. }
      assert (inject_Z t <= 499) as HT1
        by (change 499 with (inject_Z 499); rewrite <-Zle_Qle; lia).
      apply Qfloor_unique; clearbody x; lra.
    + assert ((r + 500) / 1000 = s + 1)%Z as ->.
      { symmetry. apply (Z.div_unique _ _ _ (t - 500)); lia. }
      assert (501 <= inject_Z t) as HT1
        by (change 501 with (inject_Z 501); rewrite <-Zle_Qle; lia).
      assert (inject_Z t <= 999) as HT2
        by (change 999 with (inject_Z 999); rewrite <-Zle_Qle; lia).
      apply Qfloor_unique; rewrite inject_Z_plus; change (inject_Z 1) with 1;
        clearbody x; lra.
Qed.

(** X2. From a minute on: whole minutes, and the rest rounded to the nearest
    second, a half going up. The seconds run from 0 to 60. *)
Theorem formatDuration_minutes ms :
  (60000 <= ms < 2 ^ 53)%Z ->
  let seconds := ((ms mod 60000 + 500) / 1000)%Z in
  formatDuration ms
  = pretty (ms / 60000)%Z +:+ "m " +:+ pretty seconds +:+ "s"
  /\ (0 <= seconds <= 60)%Z
  /\ (seconds = 60%Z <-> (59500 <= ms mod 60000)%Z).
Proof.
  intros [Hlo Hhi] seconds.
  pose proof (Z.mod_pos_bound ms 60000 ltac:(lia)) as Hr.
  split; [|unfold seconds; split].
  - unfold formatDuration.
    destruct (Z.ltb_spec ms 1000); [lia|].
    destruct (Z.ltb_spec ms 60000); [lia|].
    rewrite minutes_floor by done.
    rewrite Z.rem_mod_nonneg by lia.
    unfold toFixed. rewrite toFixed_digits_0.
    assert (Qle_bool 0 (div (inject_Z (ms mod 60000)) 1000) = true) as ->.
    { apply Qle_bool_iff. apply (div_nonneg _ 1000); lia. }
    rewrite seconds_nearest by done.
    rewrite <-pretty_Z_of_N, Z2N.id; [done|].
    apply Z.div_pos; lia.
  - split; [apply Z.div_pos; lia|].
    assert ((ms mod 60000 + 500) / 1000 < 61)%Z
      by (apply Z.div_lt_upper_bound; lia).
    lia.
  - split.
    + intros Heq.
      pose proof (Z.mul_div_le (ms mod 60000 + 500) 1000 ltac:(lia)). lia.
    + intros Hge. symmetry. apply (Z.div_unique _ _ _ (ms mod 60000 - 59500)); lia.
Qed.

(** X3. Between a second and a minute: seconds with two decimals, the
    nearest hundredth; the one place where the quotient decides is a
    duration that ends in 5 ms. *)
Theorem formatDuration_seconds ms :
  (1000 <= ms < 60000)%Z ->
  exists n : Z,
    formatDuration ms = twoDecimals (Z.to_N n) +:+ "s"
    /\ (Z.abs (10 * n - ms) <= 5)%Z
    /\ (ms mod 10 <> 5 -> n = (ms + 5) / 10)%Z.
Proof.
  intros [Hlo Hhi].
  set (x := div (inject_Z ms) 1000).
  exists (Qfloor (x * 100 + (1 # 2))).
  assert (0 <= x) as Hx0 by (apply (div_nonneg _ 1000); lia).
  pose proof (Qfloor_le (x * 100 + (1 # 2))) as Hn1.
  pose proof (Qlt_floor (x * 100 + (1 # 2))) as Hn2.
  set (n := Qfloor (x * 100 + (1 # 2))) in *.
  rewrite inject_Z_plus in Hn2. change (inject_Z 1) with 1 in Hn2.
  destruct (div_error ms 1000) as [H1 H2]; [lia|lia|].
  change (inject_Z 1000) with 1000 in H1, H2. fold x in H1, H2.
  assert (1000 <= inject_Z ms) as HM0
    by (change 1000 with (inject_Z 1000); rewrite <-Zle_Qle; lia).
  assert (inject_Z ms <= 59999) as HM1
    by (change 59999 with (inject_Z 59999); rewrite <-Zle_Qle; lia).
  unfold ulp_half in *.
  assert (inject_Z (10 * n) < inject_Z (ms + 6)) as Hup.
  { rewrite inject_Z_mult, inject_Z_plus.
    change (inject_Z 10) with 10. change (inject_Z 6) with 6.
    clearbody x n. lra. }
  assert (inject_Z (ms - 6) < inject_Z (10 * n)) as Hdown.
  { unfold Z.sub. rewrite inject_Z_mult, inject_Z_plus, inject_Z_opp.
    change (inject_Z 10) with 10. change (inject_Z 6) with 6.
    clearbody x n. lra. }
  rewrite <-Zlt_Qlt in Hup, Hdown.
  split; [|split].
  - unfold formatDuration.
    destruct (Z.ltb_spec ms 1000); [lia|].
    destruct (Z.ltb_spec ms 60000); [|lia].
    fold x. unfold toFixed.
    assert (Qle_bool 0 x = true) as -> by (by apply Qle_bool_iff).
    by rewrite toFixed_digits_2.
  - lia.
  - intros Hne. pose proof (Z.div_mod ms 10 ltac:(lia)) as Hdm.
    pose proof (Z.mod_pos_bound ms 10 ltac:(lia)) as Hb.
    destruct (Z.lt_ge_cases (ms mod 10) 5%Z).
    + apply (Z.div_unique _ _ _ (ms + 5 - 10 * n)); lia.
    + apply (Z.div_unique _ _ _ (ms + 5 - 10 * n)); lia.
Qed.

(** The milliseconds of a day are a product of small integers, exact at
    every step. *)
Lemma day_exact : mul (mul (mul 1000 60) 60) 24 == 86400000.
Proof.
  unfold mul.
  assert (binary64 (1000 * 60) == 60000) as H1.
  { rewrite (binary64_exact _ 60000 0); [reflexivity|reflexivity|lia]. }
  assert (binary64 (binary64 (1000 * 60) * 60) == 3600000) as H2.
  { rewrite (binary64_exact _ 3600000 0); [|rewrite H1; reflexivity|lia].
    rewrite H1. reflexivity. }
  rewrite (binary64_exact _ 86400000 0); [|rewrite H2; reflexivity|lia].
  rewrite H2. reflexivity.
Qed.

(** X4. Whole days between two dates, a started day counting as one. *)
Theorem daysDifference_ceiling date1 date2 :
  (Z.abs (date2 - date1) < 2 ^ 53)%Z ->
  daysDifference date1 date2
  = ((Z.abs (date2 - date1) + 86399999) / 86400000)%Z
  /\ daysDifference date1 date2 = daysDifference date2 date1
  /\ (daysDifference date1 date2 = 0%Z <-> date1 = date2).
Proof.
  assert (forall d1 d2, (Z.abs (d2 - d1) < 2 ^ 53)%Z ->
            daysDifference d1 d2
            = ((Z.abs (d2 - d1) + 86399999) / 86400000)%Z) as Hformula.
  { intros d1 d2 Hd. unfold daysDifference, sub.
    pose proof day_exact as Hday. set (day := mul (mul (mul 1000 60) 60) 24) in *.
    set (n := Z.abs (d2 - d1)) in *.
    assert (Qabs (binary64 (inject_Z d2 - inject_Z d1)) == inject_Z n) as Hn.
    { rewrite (binary64_exact _ (d2 - d1) 0); [| |done].
      - unfold n. change (inject_Z (Z.abs (d2 - d1))) with (Qabs (inject_Z (d2 - d1))).
        apply Qabs_wd.
        unfold Z.sub. rewrite inject_Z_plus, inject_Z_opp. reflexivity.
      - unfold Z.sub. rewrite inject_Z_plus, inject_Z_opp.
        change (2 ^ 0) with 1. ring. }
    set (a := Qabs (binary64 (inject_Z d2 - inject_Z d1))) in *.
    pose proof (Z.div_mod n 86400000 ltac:(lia)) as Hdm.
    pose proof (Z.mod_pos_bound n 86400000 ltac:(lia)) as Hr.
    assert (0 <= n)%Z as Hn0 by (unfold n; lia).
    set (q := (n / 86400000)%Z) in *. set (r := (n mod 86400000)%Z) in *.
    assert (inject_Z n == 86400000 * inject_Z q + inject_Z r) as HN.
    { rewrite Hdm at 1. by rewrite inject_Z_plus, inject_Z_mult. }
    assert (inject_Z n < 9007199254740992) as HN1
      by (change 9007199254740992 with (inject_Z (2 ^ 53)); rewrite <-Zlt_Qlt; lia).
    destruct (Z.eq_dec r 0%Z) as [Hr0|Hr0].
    - assert ((n + 86399999) / 86400000 = q)%Z as ->.
      { symmetry. apply (Z.div_unique _ _ _ 86399999); lia. }
      assert (div a day == inject_Z q) as Hx.
      { unfold div. rewrite (binary64_exact _ q 0); [| |lia].
        - rewrite Hday, Hn, HN, Hr0. change (inject_Z 0) with 0. field.
        - rewrite Hday, Hn, HN, Hr0. change (inject_Z 0) with 0.
          change (2 ^ 0) with 1. field. }
      by rewrite (Qceiling_comp _ _ Hx), Qceiling_Z.
    - assert ((n + 86399999) / 86400000 = q + 1)%Z as ->.
      { symmetry. apply (Z.div_unique _ _ _ (r - 1)); lia. }
      assert (1 <= inject_Z r) as HR1
        by (change 1 with (inject_Z 1); rewrite <-Zle_Qle; lia).
      assert (inject_Z r <= 86399999) as HR2
        by (change 86399999 with (inject_Z 86399999); rewrite <-Zle_Qle; lia).
      assert (0 <= inject_Z q) as HQ0
        by (change 0 with (inject_Z 0); rewrite <-Zle_Qle; lia).
      set (y := a / day).
      assert (y * 86400000 == inject_Z n) as Hy
        by (unfold y; rewrite Hday, <-Hn; field).
      assert (0 < y) as Hypos by (unfold y; apply Qlt_shift_div_l; lra).
      destruct (binary64_error y Hypos) as [H1 H2].
      unfold div. fold y. set (x := binary64 y) in *. unfold ulp_half in *.
      apply Qceiling_unique; rewrite inject_Z_plus; change (inject_Z 1) with 1;
        clearbody x y a day; lra. }
  intros Hd.
  assert (Z.abs (date1 - date2) = Z.abs (date2 - date1)) as Hsym by lia.
  split; [by apply Hformula|]. split.
  - rewrite !Hformula by lia. by rewrite Hsym.
  - rewrite Hformula by done. split.
    + intros Hz.
      pose proof (Z.mul_div_le (Z.abs (date2 - date1) + 86399999) 86400000 ltac:(lia)).
      pose proof (Z.mul_succ_div_gt (Z.abs (date2 - date1) + 86399999) 86400000 ltac:(lia)).
      lia.
    + intros ->. by rewrite Z.sub_diag.
Qed.
End utils_numbers.

(** ** excelGenerator.js: the sheets against each other *)

Section sheet_sums.
Import JS excelGenerator.

(** Adding up a weight over the keys of the coverage mapping, or over
    the regions that carry those keys, comes to the same. *)
Lemma mapping_sum (w : list string → nat) :
  w [] = 0 →
  ∀ (rs : list Region.t) (m : gmap string (list string)),
    NoDup (region_code <$> rs) →
    (∀ k, is_Some (m !! k) → k ∈ region_code <$> rs) →
    map_fold (λ _ services acc, acc + w services) 0 m
    = sum_list ((λ r, w (coverageSet m (region_code r))) <$> rs).
Proof.
  intros Hw. induction rs as [|r rs IH]; intros m Hnd Hkeys.
  - assert (m = ∅) as ->; [|by rewrite map_fold_empty].
    apply map_eq. intros k. rewrite lookup_empty.
    apply eq_None_not_Some. intros Hk. apply Hkeys in Hk. set_solver.
  - rewrite fmap_cons in Hnd. apply NoDup_cons in Hnd as [Hr Hnd].
    rewrite fmap_cons. simpl.
    assert ((λ r', w (coverageSet m (region_code r'))) <$> rs
            = (λ r', w (coverageSet (delete (region_code r) m) (region_code r')))
              <$> rs) as ->.
    { apply list_fmap_ext. intros i r' Hr'. unfold coverageSet.
      rewrite lookup_delete_ne; [done|].
      intros Heq. apply Hr. rewrite Heq.
      apply list_elem_of_fmap_2. by eapply list_elem_of_lookup_2. }
    rewrite <-IH; [|done|].
    2:{ intros k [l Hl]. apply lookup_delete_Some in Hl as [Hne Hl].
        specialize (Hkeys k (ex_intro _ l Hl)).
        rewrite fmap_cons, elem_of_cons in Hkeys.
        destruct Hkeys as [?|?]; [congruence|done]. }
    unfold coverageSet.
    destruct (m !! region_code r) as [l|] eqn:Hl; simpl.
    + rewrite <-(insert_delete_id m (region_code r) l Hl) at 1.
      rewrite map_fold_insert_L; [lia| |apply lookup_delete_eq].
      intros. lia.
    + rewrite delete_id by done. lia.
Qed.

Lemma length_sort {A} (cmp : A → A → Z) (l : list A) :
  length (sort cmp l) = length l.
Proof. apply Permutation_length, sort_perm. Qed.

(** In a model whose listed regions read arrays, the Service Count
    column holds the sizes of the coverage sets. *)
Lemma createRegionsSheet_counts `{DateParser} data :
  readsArrays data →
  serviceCounts (createRegionsSheet data)
    ((λ r, length (coverageSet (coverage data) (region_code r)))
       <$> default [] (regions data)).
Proof.
  unfold readsArrays, regionCodes, serviceCounts, createRegionsSheet.
  fold (coverage data). rewrite Forall_fmap. intros Hreads.
  rewrite <-!list_fmap_compose. apply list_fmap_ext. intros i r Hr.
  rewrite Forall_forall in Hreads.
  assert (readsArray (coverage data) (region_code r)) as Hread
    by (by eapply Hreads, list_elem_of_lookup_2).
  unfold compose. cbn [serviceCount regionRow].
  by rewrite servicesInRegion_array.
Qed.

Lemma coverageSet_sum data :
  valid data →
  sum_list ((λ r, length (coverageSet (coverage data) (region_code r)))
              <$> default [] (regions data))
  = map_fold (λ _ services acc, acc + length services) 0 (coverage data).
Proof.
  intros (Hnd & Hkeys & _).
  rewrite (mapping_sum length eq_refl (default [] (regions data)) (coverage data));
    [done|done|].
  intros k [l Hl]. by apply (Hkeys k l).
Qed.

Lemma createSummarySheet_rows `{DateParser, utils.Intl, SummaryHost} data summary :
  createSummarySheet data = inr summary →
  ∃ reportGenerated dataTimestamp,
    summary
    = [ ("", Str ""); ("Field", Str "Value");
        ("Report Generated", Str reportGenerated);
        ("Data Source",
         Str ("s3://" +:+ interpolate SOURCE_BUCKET +:+ "/"
              +:+ interpolate SOURCE_KEY));
        ("Schema Version", Str (schemaVersionOf (metadata data)));
        ("Data Timestamp", Str dataTimestamp);
        ("", Str "");
        ("Total AWS Regions", Num (Z.of_nat (length (default [] (regions data)))));
        ("Total AWS Services", Num (Z.of_nat (length (default [] (services data)))));
        ("Service-by-Region Mappings", mappingsOf (servicesByRegion data)) ].
Proof.
  unfold createSummarySheet.
  destruct (utils.formatDateEST _) as [e|reportGenerated]; [done|].
  destruct (utils.formatDateEST _) as [e|dataTimestamp]; [done|].
  intros [= <-]. by eexists _, _.
Qed.

(** X5. When the Summary sheet is built, its totals are the numbers of
    rows of the Regions and the Services sheet; in a well-formed model
    with a coverage mapping whose listed regions read arrays, the
    Service Count column of the Regions sheet holds numbers and the
    number of mappings is what they add up to; without a mapping the
    cell reads "N/A". *)
Theorem summary_matches_sheets `{Collation, DateParser, utils.Intl, SummaryHost}
    data summary :
  createSummarySheet data = inr summary →
  ("Total AWS Regions", Num (Z.of_nat (length (createRegionsSheet data)))) ∈ summary
  ∧ ("Total AWS Services", Num (Z.of_nat (length (createServicesSheet data))))
    ∈ summary
  ∧ (valid data → readsArrays data → is_Some (servicesByRegion data) →
     ∃ counts,
       serviceCounts (createRegionsSheet data) counts
       ∧ ("Service-by-Region Mappings", Num (Z.of_nat (sum_list counts))) ∈ summary)
  ∧ (servicesByRegion data = None →
     ("Service-by-Region Mappings", Str "N/A") ∈ summary).
Proof.
  intros (reportGenerated & dataTimestamp & ->)%createSummarySheet_rows.
  split; [|split; [|split]].
  - unfold createRegionsSheet. rewrite length_fmap.
    do 7 apply list_elem_of_further. apply list_elem_of_here.
  - unfold createServicesSheet. rewrite length_fmap, length_sort.
    do 8 apply list_elem_of_further. apply list_elem_of_here.
  - intros Hvalid Hreads [m Hm]. eexists. split; [by apply createRegionsSheet_counts|].
    rewrite coverageSet_sum by done. unfold coverage. rewrite Hm. simpl.
    do 9 apply list_elem_of_further. apply list_elem_of_here.
  - intros ->. do 9 apply list_elem_of_further. apply list_elem_of_here.
Qed.
End sheet_sums.

Section matrix.
Import JS excelGenerator.

Lemma mark_is_check (b : bool) : (if b then "✓" else "✗") = "✓" ↔ b = true.
Proof. by destruct b. Qed.

Lemma checks_regionsOffering data service :
  checks (matrixRowOf data service) = regionsOffering data (service_code service).
Proof.
  unfold checks, matrixRowOf, markOf, regionsOffering, regionCodes. simpl.
  rewrite filter_fmap, length_fmap, filter_fmap, length_fmap.
  f_equal. apply filter_iff_on. intros r _. unfold offers.
  rewrite mark_is_check. apply bool_decide_eq_true.
Qed.

Lemma matrixRowOf_marks data service :
  length (marks (matrixRowOf data service)) = totalRegions data.
Proof.
  unfold matrixRowOf, regionCodes, totalRegions. simpl.
  by rewrite !length_fmap.
Qed.

(** X6. In a well-formed canonical model with a coverage mapping whose
    listed regions read arrays, the matrix is built with the region
    codes for headers and a row for every row of the Services sheet, in
    its order and under its name, one mark per region, and as many
    check marks as the Services sheet counts available regions. *)
Theorem matrix_matches_services_sheet `{Collation} data :
  valid data →
  (Z.of_nat (totalRegions data) < 2 ^ 32)%Z →
  Forall Service.canonical (default [] (services data)) →
  hasCoverage data = true →
  readsArrays data →
  ∃ rows,
    createServiceCoverageSheet data
    = inr (Matrix ("Service" :: regionCodes data) rows)
    ∧ length rows = length (createServicesSheet data)
    ∧ ∀ i crow row,
        rows !! i = Some crow →
        createServicesSheet data !! i = Some row →
        rowName crow = serviceName row
        ∧ length (marks crow) = totalRegions data
        ∧ N.of_nat (checks crow) = availableRegions row.
Proof.
  intros Hvalid Hlen Hcan Hcov Hreads.
  rewrite createServiceCoverageSheet_matrix by done.
  eexists. split; [reflexivity|].
  rewrite createServicesSheet_rows, canonical_sort by done.
  set (sorted := sort (compare_by service_name) (default [] (services data))).
  split; [by rewrite !length_fmap|].
  intros i crow row Hcrow Hrow.
  apply list_lookup_fmap_Some in Hcrow as (s & -> & Hs).
  apply list_lookup_fmap_Some in Hrow as (s' & -> & Hs').
  assert (s' = s) as -> by congruence.
  split; [done|]. split; [apply matrixRowOf_marks|].
  rewrite checks_regionsOffering.
  rewrite rowOf_availableRegions, occurrences_valid by done.
  pose proof (regionsOffering_le data (service_code s)) as Hle.
  fold (totalRegions data) in Hle.
  change (2 ^ 32)%Z with 4294967296%Z in Hlen.
  unfold MAX_EXACT. change (2 ^ 53)%N with 9007199254740992%N. lia.
Qed.

(** X7. Whatever the model, the Available Regions column counts how often
    the code is listed in the coverage mapping: under keys that are
    not listed regions as well, and twice when a region lists it
    twice. *)
Theorem available_regions_counts_listings `{Collation} data row :
  row ∈ createServicesSheet data →
  (Z.of_nat (occurrences (coverage data) (serviceCode row)) <= 2 ^ 53)%Z →
  availableRegions row = N.of_nat (occurrences (coverage data) (serviceCode row)).
Proof.
  intros (service & _ & ->)%createServicesSheet_elem_of Hb.
  rewrite rowOf_availableRegions.
  change (serviceCode (rowOf data service)) with (service_code service) in *.
  change (2 ^ 53)%Z with 9007199254740992%Z in Hb.
  unfold MAX_EXACT. change (2 ^ 53)%N with 9007199254740992%N. lia.
Qed.
End matrix.

(** ** The filter range of the coverage matrix *)

Section filter_range.
Import JS excelGenerator.

Lemma columnLetters_go_0 fuel : columnLetters_go fuel 0 = "".
Proof. by destruct fuel. Qed.

Lemma columnLetters_go_step fuel n :
  (0 < n)%N →
  columnLetters_go (S fuel) n
  = columnLetters_go fuel ((n - 1) / 26)
    +:+ String (ascii_of_N (65 + (n - 1) mod 26)) "".
Proof. intros Hn. simpl. destruct (N.eqb_spec n 0); [lia|done]. Qed.

(** Column letters start with a capital letter. *)
Lemma columnLetters_go_head fuel : ∀ n,
  (0 < n)%N → (N.to_nat n ≤ fuel)%nat →
  ∃ c rest, columnLetters_go fuel n = String c rest
            ∧ (65 <= N_of_ascii c <= 90)%N.
Proof.
  induction fuel as [|fuel IH]; intros n Hn Hfuel; [lia|].
  rewrite columnLetters_go_step by done.
  assert (∃ m, n = m + 1)%N as [m ->] by (exists (n - 1)%N; lia).
  replace (m + 1 - 1)%N with m by lia.
  pose proof (N.mod_lt m 26 ltac:(lia)) as Hmod.
  pose proof (N.Div0.div_le_upper_bound m 26 m ltac:(lia)) as Hdiv.
  set (x := (m `mod` 26)%N) in *. set (q := (m / 26)%N) in *.
  clearbody x q.
  destruct (decide (q = 0)%N) as [->|Hq].
  - rewrite columnLetters_go_0. eexists _, _. split; [reflexivity|].
    rewrite N_ascii_embedding by lia. lia.
  - destruct (IH q) as (c & rest & -> & Hc); [lia|lia|].
    by eexists _, _.
Qed.

Lemma columnLetters_go_long fuel n :
  (27 <= n)%N → (N.to_nat n ≤ fuel)%nat →
  (2 ≤ String.length (columnLetters_go fuel n))%nat.
Proof.
  intros Hn Hfuel. destruct fuel as [|fuel]; [lia|].
  rewrite columnLetters_go_step, string_length_app by lia. simpl.
  assert (∃ m, n = m + 1)%N as [m ->] by (exists (n - 1)%N; lia).
  replace (m + 1 - 1)%N with m by lia.
  assert (1 <= m / 26)%N as Hq by (apply N.div_le_lower_bound; lia).
  pose proof (N.Div0.div_le_upper_bound m 26 m ltac:(lia)) as Hdiv.
  set (q := (m / 26)%N) in *. clearbody q.
  destruct (columnLetters_go_head fuel q) as (c & rest & -> & _);
    [lia|lia|simpl; lia].
Qed.

Lemma columnLetters_single k :
  (k <= 25)%N → columnLetters (k + 1) = String (ascii_of_N (65 + k)) "".
Proof.
  intros Hk. unfold columnLetters.
  destruct (N.to_nat (k + 1)) as [|fuel] eqn:Hfuel; [lia|].
  rewrite columnLetters_go_step by lia.
  replace (k + 1 - 1)%N with k by lia.
  by rewrite (N.div_small k 26), (N.mod_small k 26), columnLetters_go_0 by lia.
Qed.

(** The code unit after [Z] is no capital letter. *)
Lemma fromCharCode_long n :
  (128 <= n mod 65536)%N →
  ∃ c rest, fromCharCode n = String c rest ∧ (192 <= N_of_ascii c)%N.
Proof.
  intros Hn. unfold fromCharCode.
  pose proof (N.mod_lt n 65536 ltac:(lia)) as Hc.
  set (c := (n mod 65536)%N) in *. clearbody c.
  destruct (N.ltb_spec c 128); [lia|].
  destruct (N.ltb_spec c 2048).
  - eexists _, _. split; [reflexivity|].
    assert (c / 64 < 32)%N by (apply N.Div0.div_lt_upper_bound; lia).
    set (q := (c / 64)%N) in *. clearbody q.
    rewrite N_ascii_embedding by lia. lia.
  - eexists _, _. split; [reflexivity|].
    assert (c / 4096 < 16)%N by (apply N.Div0.div_lt_upper_bound; lia).
    set (q := (c / 4096)%N) in *. clearbody q.
    rewrite N_ascii_embedding by lia. lia.
Qed.

(** X8. The range of the filter starts at [A1]. It ends at the last cell of
    the header row as long as the columns have one letter, that is with
    25 regions at most; from 26 regions on, it ends elsewhere. *)
Theorem coverage_filter_range data range :
  coverageAutoFilter data = Some range →
  range.1 = "A1" ∧ (range.2 = lastHeaderCell data ↔ (totalRegions data ≤ 25)%nat).
Proof.
  unfold coverageAutoFilter.
  destruct (negb (hasCoverage data)); [done|]. intros [= <-]. simpl.
  split; [done|]. unfold lastHeaderCell.
  rewrite length_fmap. fold (totalRegions data).
  set (k := totalRegions data).
  replace (65 + N.of_nat (S k) - 1)%N with (65 + N.of_nat k)%N by lia.
  replace (N.of_nat (S k)) with (N.of_nat k + 1)%N by lia.
  split.
  - intros Heq. destruct (decide (k ≤ 25)%nat) as [|Hk]; [done|]. exfalso.
    assert (27 <= N.of_nat k + 1)%N as Hn by lia.
    pose proof (columnLetters_go_long _ _ Hn (Nat.le_refl _)) as Hlong.
    fold (columnLetters (N.of_nat k + 1)) in Hlong.
    destruct (columnLetters_go_head (N.to_nat (N.of_nat k + 1)) (N.of_nat k + 1))
      as (c & rest & Hletters & Hc); [lia|done|].
    fold (columnLetters (N.of_nat k + 1)) in Hletters.
    destruct (decide ((65 + N.of_nat k) mod 65536 < 128)%N) as [Hsmall|Hbig].
    + apply (f_equal String.length) in Heq.
      rewrite !string_length_app in Heq. unfold fromCharCode in Heq.
      destruct (N.ltb_spec ((65 + N.of_nat k) mod 65536) 128); [|lia].
      simpl in Heq. lia.
    + destruct (fromCharCode_long (65 + N.of_nat k)) as (c' & rest' & Hcode & Hc');
        [lia|].
      rewrite Hcode, Hletters in Heq. simpl in Heq.
      injection Heq as Heq _. subst c'. lia.
  - intros Hk. rewrite columnLetters_single by lia.
    unfold fromCharCode. rewrite N.mod_small by lia.
    destruct (N.ltb_spec (65 + N.of_nat k) 128); [done|lia].
Qed.
End filter_range.

(** ** archiveManager.js: retries, partial uploads, distribution *)

Section archive_more.
Import JS Run archiveManager.
Context (s3Client : S3).

Lemma uploadToS3_loop_succeeds bucket key maxRetries tr :
  ∀ remaining attempt lastError,
    (∃ a u, (attempt ≤ a < attempt + remaining)%nat
            ∧ putObject s3Client bucket key a = inr u) →
    uploadToS3_loop s3Client bucket key maxRetries attempt remaining lastError tr
    = (inr tt, (tr ++ [Uploaded bucket key])%list).
Proof.
  induction remaining as [|remaining IH]; intros attempt lastError (a & u & Ha & Hput).
  { lia. }
  simpl. destruct (putObject s3Client bucket key attempt) as [e|[]] eqn:Hhere; [|done].
  apply IH. exists a, u. split; [|done].
  destruct (decide (a = attempt)) as [->|]; [congruence|lia].
Qed.

Lemma uploadToS3_loop_gives_up bucket key maxRetries tr :
  ∀ remaining attempt lastError,
    (∀ a, (attempt ≤ a < attempt + remaining)%nat →
          ∃ e, putObject s3Client bucket key a = inl e) →
    ∃ final,
      uploadToS3_loop s3Client bucket key maxRetries attempt remaining lastError tr
      = (inl final, tr)
      ∧ (remaining = 0 →
         final = match lastError with
                 | Some e => giveUp key maxRetries e
                 | None => NO_LAST_ERROR
                 end)
      ∧ (∀ last, (0 < remaining)%nat →
           putObject s3Client bucket key (attempt + remaining - 1) = inl last →
           final = giveUp key maxRetries last).
Proof.
  induction remaining as [|remaining IH]; intros attempt lastError Hfail.
  { simpl. destruct lastError; (eexists; split; [reflexivity|]; split; [done|lia]). }
  simpl. destruct (Hfail attempt ltac:(lia)) as [e He]. rewrite He.
  destruct (IH (S attempt) (Some e)) as (final & -> & Hzero & Hlast).
  { intros a Ha. apply Hfail. lia. }
  exists final. split; [done|]. split; [lia|].
  intros last _ Hput.
  destruct remaining as [|remaining'].
  - rewrite Hzero by done.
    replace (attempt + 1 - 1) with attempt in Hput by lia. congruence.
  - apply Hlast; [lia|].
    by replace (S attempt + S remaining' - 1) with (attempt + S (S remaining') - 1) by lia.
Qed.

(** X9. An upload is sent up to [maxRetries] times. It returns as soon as
    one attempt goes through, leaving one upload in the trace; when none
    does, it throws an error that names the key, the number of attempts
    and the message of the last failure, and leaves no trace. Asked for
    no attempt at all, it fails on the missing last error. *)
Theorem uploadToS3_retries bucket key maxRetries tr :
  ((∃ attempt u, (1 ≤ attempt ≤ maxRetries)%nat
                 ∧ putObject s3Client bucket key attempt = inr u) →
   uploadToS3 s3Client bucket key maxRetries tr
   = (inr tt, (tr ++ [Uploaded bucket key])%list))
  ∧ ((∀ attempt, (1 ≤ attempt ≤ maxRetries)%nat →
        ∃ e, putObject s3Client bucket key attempt = inl e) →
     ∃ final,
       uploadToS3 s3Client bucket key maxRetries tr = (inl final, tr)
       ∧ (maxRetries = 0 → final = NO_LAST_ERROR)
       ∧ (∀ last, (0 < maxRetries)%nat →
            putObject s3Client bucket key maxRetries = inl last →
            final = giveUp key maxRetries last)).
Proof.
  unfold uploadToS3. split.
  - intros (attempt & u & Hrange & Hput).
    apply uploadToS3_loop_succeeds. exists attempt, u. split; [lia|done].
  - intros Hfail.
    destruct (uploadToS3_loop_gives_up bucket key maxRetries tr maxRetries 1 None)
      as (final & Hrun & Hzero & Hlast).
    { intros a Ha. apply Hfail. lia. }
    exists final. split; [done|]. split; [done|].
    intros last Hpos Hput. apply Hlast; [done|].
    by replace (1 + maxRetries - 1) with maxRetries by lia.
Qed.
End archive_more.

Section uploads_more.
Import JS Run archiveManager.
Context (s3Client : S3).

Lemma uploadable_or_rejected bucket key :
  uploadable s3Client bucket key ∨ rejected s3Client bucket key.
Proof.
  unfold uploadable, rejected.
  destruct (putObject s3Client bucket key 1) as [e1|u1] eqn:H1;
    [|left; exists 1, u1; split; [lia|done]].
  destruct (putObject s3Client bucket key 2) as [e2|u2] eqn:H2;
    [|left; exists 2, u2; split; [lia|done]].
  destruct (putObject s3Client bucket key 3) as [e3|u3] eqn:H3;
    [|left; exists 3, u3; split; [lia|done]].
  right. intros attempt Ha.
  assert (attempt = 1 ∨ attempt = 2 ∨ attempt = 3) as [->|[->| ->]] by lia;
    by eexists.
Qed.

Lemma rejected_not_uploadable bucket key :
  rejected s3Client bucket key → ¬ uploadable s3Client bucket key.
Proof.
  intros Hrej (attempt & u & Ha & Hput).
  destruct (Hrej attempt Ha) as [e He]. congruence.
Qed.

Lemma uploadToS3_rejected bucket key tr :
  rejected s3Client bucket key →
  ∃ last,
    putObject s3Client bucket key 3 = inl last
    ∧ uploadToS3 s3Client bucket key 3 tr = (inl (giveUp key 3 last), tr).
Proof.
  intros Hrej. destruct (Hrej 3 ltac:(lia)) as [last Hlast].
  exists last. split; [done|].
  destruct (uploadToS3_loop_gives_up s3Client bucket key 3 tr 3 1 None)
    as (final & Hrun & _ & Hfinal).
  { intros a Ha. apply Hrej. lia. }
  unfold uploadToS3. rewrite Hrun. by rewrite (Hfinal last) by (done || lia).
Qed.
End uploads_more.

(** ** index.js: what ends a run, and how *)

Section uploads_of_a_run.
Import JS Run archiveManager.
Context (s3Client : S3).

Lemma uploadReports_latest_rejected bucket reportPrefix archivePrefix
    latestReportName tr :
  rejected s3Client bucket (reportPrefix +:+ latestReportName) →
  ∃ last,
    putObject s3Client bucket (reportPrefix +:+ latestReportName) 3 = inl last
    ∧ uploadReports s3Client bucket reportPrefix archivePrefix latestReportName tr
      = (inl (giveUp (reportPrefix +:+ latestReportName) 3 last), tr).
Proof.
  intros Hrej.
  destruct (uploadToS3_rejected s3Client _ _ tr Hrej) as (last & Hlast & Hrun).
  exists last. split; [done|].
  unfold uploadReports, mbind, M_bind, bind. by rewrite Hrun.
Qed.

Lemma uploadReports_archive_rejected bucket reportPrefix archivePrefix
    latestReportName tr :
  uploadable s3Client bucket (reportPrefix +:+ latestReportName) →
  rejected s3Client bucket (archiveKeyOf s3Client archivePrefix) →
  ∃ last,
    putObject s3Client bucket (archiveKeyOf s3Client archivePrefix) 3 = inl last
    ∧ uploadReports s3Client bucket reportPrefix archivePrefix latestReportName tr
      = (inl (giveUp (archiveKeyOf s3Client archivePrefix) 3 last),
         (tr ++ [Uploaded bucket (reportPrefix +:+ latestReportName)])%list).
Proof.
  intros Hup Hrej.
  destruct (uploadToS3_rejected s3Client _ _
              (tr ++ [Uploaded bucket (reportPrefix +:+ latestReportName)])%list Hrej)
    as (last & Hlast & Hrun).
  exists last. split; [done|].
  unfold uploadReports, mbind, M_bind, bind.
  rewrite uploadToS3_succeeds by done.
  fold (archiveKeyOf s3Client archivePrefix). by rewrite Hrun.
Qed.

(** The sweep notifies nobody. *)
Lemma manageArchiveRetention_quiet bucket archivePrefix retentionDays tr :
  ∃ outcome events,
    manageArchiveRetention s3Client bucket archivePrefix retentionDays tr
    = (outcome, (tr ++ events)%list)
    ∧ quiet events.
Proof.
  destruct (listObjectsV2 s3Client bucket archivePrefix) as [e|objects] eqn:Hlist.
  - rewrite (manageArchiveRetention_throws _ _ _ _ e) by done.
    eexists _, []. rewrite app_nil_r. split; [done|].
    intros n. apply not_elem_of_nil.
  - rewrite (manageArchiveRetention_listed _ _ _ _ objects) by done.
    eexists _, _. split; [done|].
    intros n (obj & Hev & _)%list_elem_of_fmap.
    unfold deletionEvent in Hev. by destruct (deletionSucceeds _ _ obj).
Qed.
End uploads_of_a_run.

Section run_more.
Import JS Run archiveManager index.
Context `{Collation, DateParser, utils.Intl, excelGenerator.SummaryHost}.
Context (env : Env) (config : Config).

Lemma generate_stops_at_source e :
  readSourceData env = inl e → generate env config [] = (inl e, []).
Proof.
  intros Hsrc. unfold generate, mbind, M_bind, bind, lift. by rewrite Hsrc.
Qed.

Lemma generate_stops_at_sheets doc normalizedData e :
  readSourceData env = inr doc →
  normalize doc (readServicesData env) = inr normalizedData →
  excelGenerator.generateExcelReport normalizedData = inl e →
  generate env config [] = (inl e, []).
Proof.
  intros Hsrc Hnorm Hgen. unfold generate, mbind, M_bind, bind, lift.
  by rewrite Hsrc, Hnorm, Hgen.
Qed.

Lemma generate_stops_at_buffer doc normalizedData report e :
  readSourceData env = inr doc →
  normalize doc (readServicesData env) = inr normalizedData →
  excelGenerator.generateExcelReport normalizedData = inr report →
  writeBuffer env report = inl e →
  generate env config [] = (inl e, []).
Proof.
  intros Hsrc Hnorm Hgen Hbuf. unfold generate, mbind, M_bind, bind, lift.
  by rewrite Hsrc, Hnorm, Hgen, Hbuf.
Qed.

Lemma generate_stops_at_upload doc normalizedData reportSize e tr :
  prepared env doc normalizedData reportSize →
  uploadReports (s3Client env) (reportBucket config) (reportPrefix config)
    (archivePrefix config) (latestReportName config) []
  = (inl e, tr) →
  generate env config [] = (inl e, tr).
Proof.
  intros (Hsrc & Hnorm & report & Hgen & Hbuf) Hup.
  unfold generate, mbind, M_bind, bind, lift.
  by rewrite Hsrc, Hnorm, Hgen, Hbuf, Hup.
Qed.

Lemma handler_fails e trace :
  generate env config [] = (inl e, trace) →
  handler env config
  = (failed e, (trace ++ [Notified (FailureNotification (message e))])%list).
Proof. apply handler_of_failure. Qed.

(** A run that is prepared and uploads both files. *)
Lemma handler_succeeds doc normalizedData reportSize :
  prepared env doc normalizedData reportSize →
  uploadable (s3Client env) (reportBucket config) (latestKey config) →
  uploadable (s3Client env) (reportBucket config) (archiveKey env config) →
  ∃ distribution copies retention sweep,
    distributeReports (s3Client env) (reportBucket config) (latestKey config)
      (distributionBucket config) (distributionKey config) (uploads env config)
    = (inr distribution, (uploads env config ++ copies)%list)
    ∧ manageArchiveRetention (s3Client env) (reportBucket config)
        (archivePrefix config) (archiveRetentionDays config)
        (uploads env config ++ copies)%list
      = (retention, ((uploads env config ++ copies) ++ sweep)%list)
    ∧ quiet copies ∧ quiet sweep
    ∧ handler env config
      = ({| statusCode := 200;
            body := ReportGenerated
                      (successMetricsOf env config doc normalizedData reportSize
                                        distribution retention) |},
         (((uploads env config ++ copies) ++ sweep)
          ++ [Notified (closingNotification retention)])%list).
Proof.
  intros (Hsrc & Hnorm & report & Hgen & Hbuf) Hup1 Hup2.
  destruct (distributeReports_returns (s3Client env) (reportBucket config)
              (latestKey config) (distributionBucket config)
              (distributionKey config) (uploads env config))
    as (distribution & copies & Hdist & Hcopies).
  destruct (manageArchiveRetention_quiet (s3Client env) (reportBucket config)
              (archivePrefix config) (archiveRetentionDays config)
              (uploads env config ++ copies)%list)
    as (retention & sweep & Hret & Hsweep).
  exists distribution, copies, retention, sweep.
  split; [done|]. split; [done|]. split; [done|]. split; [done|].
  apply handler_of_generate. by eapply generate_completes.
Qed.
End run_more.

Section run_outcomes.
Import JS Run archiveManager index.
Context `{Collation, DateParser, utils.Intl, excelGenerator.SummaryHost}.
Context (env : Env) (config : Config).

(** X10. A run that fails while reading the source, validating and
    normalizing it, building the sheets or writing the workbook, answers
    500 with the message and the name of the error, sends the failure
    notification and does nothing else: no upload, no copy, no
    deletion. *)
Theorem failure_before_the_uploads e :
  readSourceData env = inl e
  ∨ (∃ doc, readSourceData env = inr doc
            ∧ normalize doc (readServicesData env) = inl e)
  ∨ (∃ doc normalizedData,
       readSourceData env = inr doc
       ∧ normalize doc (readServicesData env) = inr normalizedData
       ∧ (excelGenerator.generateExcelReport normalizedData = inl e
          ∨ ∃ report,
              excelGenerator.generateExcelReport normalizedData = inr report
              ∧ writeBuffer env report = inl e)) →
  handler env config
  = ({| statusCode := 500; body := ReportFailed (message e) (name e) |},
     [Notified (FailureNotification (message e))]).
Proof.
  intros [Hsrc|[(doc & Hsrc & Hnorm)
               |(doc & nd & Hsrc & Hnorm & [Hgen|(report & Hgen & Hbuf)])]].
  - by rewrite (handler_fails env config e []) by by apply generate_stops_at_source.
  - by rewrite (handler_fails env config e []) by by eapply generate_invalid.
  - by rewrite (handler_fails env config e []) by by eapply generate_stops_at_sheets.
  - by rewrite (handler_fails env config e []) by by eapply generate_stops_at_buffer.
Qed.

(** X11. An upload that fails three times ends the run with status 500 and
    the failure notification. When it is the latest report that cannot
    be uploaded, nothing was written. When it is the archive copy, the
    latest report has been replaced already; in neither case is
    anything copied or deleted. *)
Theorem upload_failure_is_fatal doc normalizedData reportSize :
  prepared env doc normalizedData reportSize →
  (rejected (s3Client env) (reportBucket config) (latestKey config) →
   ∃ last,
     putObject (s3Client env) (reportBucket config) (latestKey config) 3 = inl last
     ∧ handler env config
       = (failed (giveUp (latestKey config) 3 last),
          [Notified (FailureNotification (message (giveUp (latestKey config) 3 last)))]))
  ∧ (uploadable (s3Client env) (reportBucket config) (latestKey config) →
     rejected (s3Client env) (reportBucket config) (archiveKey env config) →
     ∃ last,
       putObject (s3Client env) (reportBucket config) (archiveKey env config) 3
       = inl last
       ∧ handler env config
         = (failed (giveUp (archiveKey env config) 3 last),
            [Uploaded (reportBucket config) (latestKey config);
             Notified (FailureNotification
                         (message (giveUp (archiveKey env config) 3 last)))])).
Proof.
  intros Hprep. split.
  - intros Hrej.
    destruct (uploadReports_latest_rejected (s3Client env) (reportBucket config)
                (reportPrefix config) (archivePrefix config)
                (latestReportName config) [] Hrej) as (last & Hlast & Hrun).
    exists last. split; [done|].
    by rewrite (handler_fails env config _ [])
      by by eapply generate_stops_at_upload.
  - intros Hup Hrej.
    destruct (uploadReports_archive_rejected (s3Client env) (reportBucket config)
                (reportPrefix config) (archivePrefix config)
                (latestReportName config) [] Hup Hrej) as (last & Hlast & Hrun).
    exists last. split; [done|].
    by rewrite (handler_fails env config _ _)
      by by eapply generate_stops_at_upload.
Qed.

(** X12. Every run answers 200 or 500 and sends exactly one notification,
    after everything else it does. It answers 200 exactly when the
    source is read, validated and normalized, the workbook is built and
    written and both uploads go through: the copy to the distribution bucket
    and the retention sweep never decide. The notification is the
    failure notification exactly when the answer is 500. *)
Theorem run_outcome :
  ∃ events n,
    (handler env config).2 = (events ++ [Notified n])%list
    ∧ quiet events
    ∧ (statusCode (handler env config).1 = 200%Z
       ∨ statusCode (handler env config).1 = 500%Z)
    ∧ (statusCode (handler env config).1 = 200%Z ↔ critical env config)
    ∧ (statusCode (handler env config).1 = 500%Z ↔ ¬ critical env config)
    ∧ (isFailure n ↔ statusCode (handler env config).1 = 500%Z).
Proof.
  assert (∀ e trace,
            generate env config [] = (inl e, trace) →
            quiet trace → ¬ critical env config →
            ∃ events n,
              (handler env config).2 = (events ++ [Notified n])%list
              ∧ quiet events
              ∧ (statusCode (handler env config).1 = 200%Z
                 ∨ statusCode (handler env config).1 = 500%Z)
              ∧ (statusCode (handler env config).1 = 200%Z ↔ critical env config)
              ∧ (statusCode (handler env config).1 = 500%Z ↔ ¬ critical env config)
              ∧ (isFailure n ↔ statusCode (handler env config).1 = 500%Z))
    as Hfail.
  { intros e trace Hgen Hquiet Hnot.
    rewrite (handler_fails env config e trace Hgen). simpl.
    eexists _, _. split; [reflexivity|]. split; [done|]. split; [by right|].
    split; [split; [done|by intros ?]|]. split; done. }
  destruct (readSourceData env) as [e|doc] eqn:Hsrc.
  { apply (Hfail e []); [by apply generate_stops_at_source| |].
    - intros n. apply not_elem_of_nil.
    - intros [(doc & nd & size & Hs & _) _]. congruence. }
  destruct (normalize doc (readServicesData env)) as [e|nd] eqn:Hnorm.
  { apply (Hfail e []); [by eapply generate_invalid| |].
    - intros n. apply not_elem_of_nil.
    - intros [(doc' & nd & size & Hs & Hn & _) _]. congruence. }
  destruct (excelGenerator.generateExcelReport nd) as [e|report] eqn:Hgen.
  { apply (Hfail e []); [by eapply generate_stops_at_sheets| |].
    - intros n. apply not_elem_of_nil.
    - intros [(doc' & nd' & size & Hs & Hn & report & Hg & _) _]. congruence. }
  destruct (writeBuffer env report) as [e|size] eqn:Hbuf.
  { apply (Hfail e []); [by eapply generate_stops_at_buffer| |].
    - intros n. apply not_elem_of_nil.
    - intros [(doc' & nd' & size & Hs & Hn & report' & Hg & Hb) _]. congruence. }
  assert (prepared env doc nd size) as Hprep.
  { split; [done|]. split; [done|]. by exists report. }
  destruct (uploadable_or_rejected (s3Client env) (reportBucket config)
              (latestKey config)) as [Hup1|Hrej1].
  2:{ destruct (uploadReports_latest_rejected (s3Client env) (reportBucket config)
                  (reportPrefix config) (archivePrefix config)
                  (latestReportName config) [] Hrej1) as (last & _ & Hrun).
      eapply (Hfail _ []); [by eapply generate_stops_at_upload| |].
      - intros n. apply not_elem_of_nil.
      - intros (_ & Hup & _). by eapply rejected_not_uploadable. }
  destruct (uploadable_or_rejected (s3Client env) (reportBucket config)
              (archiveKey env config)) as [Hup2|Hrej2].
  2:{ destruct (uploadReports_archive_rejected (s3Client env) (reportBucket config)
                  (reportPrefix config) (archivePrefix config)
                  (latestReportName config) [] Hup1 Hrej2) as (last & _ & Hrun).
      eapply Hfail; [by eapply generate_stops_at_upload| |].
      - intros n Hn. apply list_elem_of_singleton in Hn. discriminate.
      - intros (_ & _ & Hup). by eapply rejected_not_uploadable. }
  destruct (handler_succeeds env config doc nd size Hprep Hup1 Hup2)
    as (distribution & copies & retention & sweep & _ & _ & Hq1 & Hq2 & ->).
  cbn [fst snd statusCode]. eexists _, _. split; [reflexivity|].
  assert (critical env config) as Hcrit.
  { split; [by exists doc, nd, size|done]. }
  split; [|split; [by left|split; [done|]]].
  - intros n. unfold uploads. rewrite !elem_of_app, !elem_of_cons, elem_of_nil.
    intros [[[?|[?|?]]|?]|?]; try done; [by eapply Hq1|by eapply Hq2].
  - split; [split; [done|by intros ?]|].
    by destruct retention.
Qed.
End run_outcomes.

Section retention_more.
Import JS Run archiveManager index.

Lemma filter_sublist {A} (P Q : A → Prop) `{!∀ x, Decision (P x), !∀ x, Decision (Q x)}
    (l : list A) :
  (∀ x, P x → Q x) → filter P l `sublist_of` filter Q l.
Proof.
  intros HPQ. induction l as [|x l IH]; [done|].
  rewrite !filter_cons. destruct (decide (P x)) as [HP|HP].
  - rewrite decide_True by auto. by apply sublist_skip.
  - destruct (decide (Q x)); [by apply sublist_cons|done].
Qed.

Lemma filter_of_sublist {A} (P : A → Prop) `{!∀ x, Decision (P x)} (l1 l2 : list A) :
  l1 `sublist_of` l2 → filter P l1 `sublist_of` filter P l2.
Proof.
  induction 1 as [|x l1 l2 _ IH|x l1 l2 _ IH]; [done| |].
  - rewrite !filter_cons. destruct (decide (P x)); [by apply sublist_skip|done].
  - rewrite filter_cons. destruct (decide (P x)); [by apply sublist_cons|done].
Qed.

(** X13. Keeping archives longer never deletes more: with the same listing,
    what a longer retention period sends for deletion is part of what a
    shorter one sends, in the same order; it retains at least as many
    objects and deletes at most as many. This holds in a process at a
    fixed offset from UTC, when the cutoff of the shorter period is a
    date. *)
Theorem longer_retention_deletes_less (s3Client : S3) bucket archivePrefix
    (shorter longer : Z) objects tr :
  listObjectsV2 s3Client bucket archivePrefix = inr objects →
  fixedOffset s3Client →
  (shorter <= longer)%Z →
  (Z.abs (now s3Client - shorter * 86400000) <= MAX_TIME)%Z →
  ∃ few many kept less,
    manageArchiveRetention s3Client bucket archivePrefix longer tr
    = (inr kept, (tr ++ few)%list)
    ∧ manageArchiveRetention s3Client bucket archivePrefix shorter tr
      = (inr less, (tr ++ many)%list)
    ∧ few `sublist_of` many
    ∧ (retained less ≤ retained kept)%nat
    ∧ (deleted kept ≤ deleted less)%nat.
Proof.
  intros Hlist Hzone Hle Hrange.
  rewrite !(manageArchiveRetention_listed _ _ _ _ objects) by done.
  rewrite !cutoffDate_fixedOffset by done.
  eexists _, _, _, _. split; [reflexivity|]. split; [reflexivity|].
  set (late := (now s3Client - shorter * 86400000)%Z) in *.
  set (early := (now s3Client - longer * 86400000)%Z).
  assert (TimeClip late = Some late) as ->.
  { unfold TimeClip. by destruct (Z.leb_spec (Z.abs late) MAX_TIME); [|lia]. }
  rewrite retainedObjects_filter, expiredObjects_filter.
  assert (expiredObjects (TimeClip early) objects `sublist_of` olderThan late objects)
    as Hsub.
  { unfold TimeClip. destruct (Z.abs early <=? MAX_TIME)%Z.
    - rewrite expiredObjects_filter. apply filter_sublist. unfold early, late.
      intros; lia.
    - rewrite expiredObjects_invalid. apply sublist_nil_l. }
  split; [by apply fmap_sublist|]. simpl. split.
  - unfold TimeClip. destruct (Z.abs early <=? MAX_TIME)%Z.
    + rewrite retainedObjects_filter. apply sublist_length, filter_sublist.
      unfold early, late. intros; lia.
    + rewrite retainedObjects_invalid. apply length_filter.
  - by apply sublist_length, filter_of_sublist.
Qed.

(** X14. The copy to the distribution bucket never throws. It is sent only
    when both the bucket and the key are configured; the result says
    [distributed] exactly when it was sent and went through, and that is
    when the trace gains its one event. *)
Theorem distribution_outcomes (s3Client : S3) sourceBucket sourceKey
    distributionBucket distributionKey tr :
  let configured :=
    truthy distributionBucket = true ∧ truthy distributionKey = true in
  let bucket := or_lit distributionBucket "" in
  let key := or_lit distributionKey "" in
  let copy :=
    copyObject s3Client bucket (sourceBucket +:+ "/" +:+ sourceKey) key in
  ∃ outcome,
    distributeReports s3Client sourceBucket sourceKey distributionBucket
      distributionKey tr
    = (inr outcome,
       if distributed outcome then (tr ++ [Copied bucket key])%list else tr)
    ∧ (distributed outcome = true ↔ configured ∧ ∃ u, copy = inr u)
    ∧ (¬ configured →
       reason outcome = Some "Distribution bucket not configured"
       ∧ error outcome = None)
    ∧ (configured → ∀ e, copy = inl e → outcome = copyFailure e)
    ∧ (distributed outcome = true →
       distributionPath outcome = Some ("s3://" +:+ bucket +:+ "/" +:+ key)).
Proof.
  intros configured bucket key copy. unfold distributeReports.
  destruct (truthy distributionBucket) eqn:Hb; simpl.
  2:{ exists {| distributed := false;
                reason := Some "Distribution bucket not configured";
                distributionPath := None; error := None; errorType := None |}.
      split; [reflexivity|]. simpl. unfold configured.
      repeat split; try done; intuition congruence. }
  destruct (truthy distributionKey) eqn:Hk; simpl.
  2:{ exists {| distributed := false;
                reason := Some "Distribution bucket not configured";
                distributionPath := None; error := None; errorType := None |}.
      split; [reflexivity|]. simpl. unfold configured.
      repeat split; try done; intuition congruence. }
  unfold catch, mbind, M_bind, bind, lift, emit.
  fold bucket key copy.
  destruct copy as [e|u] eqn:Hcopy; simpl.
  - exists (copyFailure e). split; [reflexivity|]. simpl. unfold configured.
    split; [split; [done|by intros [_ [? ?]]]|].
    split; [by intros []|]. split; [|done]. by intros _ e' [= <-].
  - exists {| distributed := true; reason := None;
              distributionPath := Some ("s3://" +:+ bucket +:+ "/" +:+ key);
              error := None; errorType := None |}.
    split; [reflexivity|]. simpl. unfold configured.
    split; [split; [by eauto|done]|].
    split; [by intros []|]. split; done.
Qed.
End retention_more.

(** ** index.js: what a finished run reports *)

Section reports.
Import JS Run archiveManager index.
Context `{Collation, DateParser, utils.Intl, excelGenerator.SummaryHost}.
Context (env : Env) (config : Config).

(** The sheets of a workbook that was built. *)
Lemma generateExcelReport_sheets normalizedData report :
  excelGenerator.generateExcelReport normalizedData = inr report →
  excelGenerator.createSummarySheet normalizedData
  = inr (excelGenerator.summarySheet report)
  ∧ excelGenerator.regionsSheet report
    = excelGenerator.createRegionsSheet normalizedData
  ∧ excelGenerator.servicesSheet report
    = excelGenerator.createServicesSheet normalizedData
  ∧ excelGenerator.createServiceCoverageSheet normalizedData
    = inr (excelGenerator.coverageSheet report).
Proof.
  unfold excelGenerator.generateExcelReport.
  destruct (excelGenerator.createSummarySheet normalizedData); [done|].
  destruct (excelGenerator.createServiceCoverageSheet normalizedData); [done|].
  by intros [= <-].
Qed.

Lemma distributeReports_events (s3Client : S3) sourceBucket sourceKey
    distributionBucket distributionKey tr outcome tr' :
  distributeReports s3Client sourceBucket sourceKey distributionBucket
    distributionKey tr
  = (outcome, tr') →
  tr' = tr ∨ ∃ bucket key, tr' = (tr ++ [Copied bucket key])%list.
Proof.
  unfold distributeReports.
  destruct (negb (truthy distributionBucket) || negb (truthy distributionKey)).
  { intros [= _ <-]. by left. }
  unfold catch, mbind, M_bind, bind, lift, emit.
  destruct (copyObject _ _ _ _) as [e|u]; simpl; intros [= _ <-]; eauto.
Qed.

(** X15. When the listing of the archive prefix fails, the run still answers
    200. Its result says "Unknown" for the retained archives and 0 for
    the deleted ones, nothing is deleted, and in place of the success
    notification it sends a warning that carries the message of the
    failure. *)
Theorem retention_failure_warns doc normalizedData reportSize e :
  prepared env doc normalizedData reportSize →
  uploadable (s3Client env) (reportBucket config) (latestKey config) →
  uploadable (s3Client env) (reportBucket config) (archiveKey env config) →
  listObjectsV2 (s3Client env) (reportBucket config) (archivePrefix config) = inl e →
  ∃ metrics copies,
    handler env config
    = ({| statusCode := 200; body := ReportGenerated metrics |},
       (uploads env config ++ copies
        ++ [Notified (WarningNotification
                        ("Archive retention management failed: " +:+ message e))])%list)
    ∧ archivedReportsRetained metrics = Str "Unknown"
    ∧ archivedReportsDeleted metrics = 0
    ∧ quiet copies
    ∧ harmless copies.
Proof.
  intros Hprep Hup1 Hup2 Hlist.
  destruct (handler_succeeds env config doc normalizedData reportSize Hprep Hup1 Hup2)
    as (distribution & copies & retention & sweep & Hdist & Hret & Hq1 & _ & ->).
  rewrite (manageArchiveRetention_throws _ _ _ _ e) in Hret by done.
  injection Hret as <- Hsweep.
  assert (sweep = []) as ->.
  { rewrite <-(app_nil_r copies) in Hsweep at 1. by apply app_inv_head in Hsweep. }
  rewrite app_nil_r, <-app_assoc.
  eexists _, copies. split; [reflexivity|]. split; [done|]. split; [done|].
  split; [done|].
  apply distributeReports_events in Hdist as [Heq|(b & k & Heq)].
  - assert (copies = []) as ->.
    { apply (app_inv_head (uploads env config)). by rewrite app_nil_r. }
    intros bucket key. split; apply not_elem_of_nil.
  - apply app_inv_head in Heq as ->.
    intros bucket key. split; intros Hin; apply list_elem_of_singleton in Hin;
      discriminate.
Qed.

(** X16. The figures a finished run reports are those of its workbook: the
    region and service counts are the numbers of rows of the two
    sheets, the number of mappings is the one on the Summary sheet, and
    the size is that of the buffer. The schema version is the one on
    the Summary sheet unless the metadata carry both [version] and
    [schemaVersion] with different values: the handler reads the one
    first, the sheet the other. *)
Theorem metrics_match_workbook doc normalizedData reportSize :
  prepared env doc normalizedData reportSize →
  uploadable (s3Client env) (reportBucket config) (latestKey config) →
  uploadable (s3Client env) (reportBucket config) (archiveKey env config) →
  ∃ metrics trace md report,
    handler env config
    = ({| statusCode := 200; body := ReportGenerated metrics |}, trace)
    ∧ metadata doc = Some md
    ∧ excelGenerator.generateExcelReport normalizedData = inr report
    ∧ regionCount metrics = length (excelGenerator.regionsSheet report)
    ∧ serviceCount metrics = length (excelGenerator.servicesSheet report)
    ∧ reportSizeBytes metrics = reportSize
    ∧ ("Service-by-Region Mappings", Num (Z.of_nat (serviceMappingCount metrics)))
      ∈ excelGenerator.summarySheet report
    ∧ (("Schema Version", Str (dataSchemaVersion metrics))
       ∈ excelGenerator.summarySheet report
       ↔ truthy (Metadata.version md) = false
         ∨ truthy (Metadata.schemaVersion md) = false
         ∨ Metadata.version md = Metadata.schemaVersion md).
Proof.
  intros Hprep Hup1 Hup2.
  destruct (handler_succeeds env config doc normalizedData reportSize Hprep Hup1 Hup2)
    as (distribution & copies & retention & sweep & _ & _ & _ & _ & ->).
  destruct Hprep as (Hsrc & Hnorm & report & Hgen & Hbuf).
  destruct (generateExcelReport_sheets _ _ Hgen)
    as (Hsummary & Hregions & Hservices & _).
  apply createSummarySheet_rows in Hsummary
    as (reportGenerated & dataTimestamp & Hsummary).
  unfold normalize in Hnorm.
  destruct (validate doc) as [?|[]] eqn:Hvalid; [done|].
  unfold validate in Hvalid.
  destruct (metadata doc) as [md|] eqn:Hmd; [|done].
  destruct (flattenCoverage (servicesByRegionRaw doc)) as [?|m] eqn:Hflat; [done|].
  injection Hnorm as <-.
  eexists _, _, md, report. split; [reflexivity|]. split; [done|].
  split; [exact Hgen|].
  rewrite Hsummary, Hregions, Hservices. clear Hsummary Hregions Hservices Hgen.
  unfold successMetricsOf. cbn [regionCount serviceCount reportSizeBytes
    serviceMappingCount dataSchemaVersion].
  unfold excelGenerator.createRegionsSheet, excelGenerator.createServicesSheet.
  cbn [excelGenerator.regions excelGenerator.services excelGenerator.servicesByRegion
       excelGenerator.metadata default id].
  rewrite !length_fmap, length_sort, length_fmap.
  split; [done|]. split; [done|]. split; [done|].
  cbn [excelGenerator.regions excelGenerator.services excelGenerator.servicesByRegion
       excelGenerator.metadata default id excelGenerator.mappingsOf].
  split.
  { do 9 apply list_elem_of_further. apply list_elem_of_here. }
  rewrite Hmd. unfold excelGenerator.schemaVersionOf. simpl mbind.
  rewrite !elem_of_cons, elem_of_nil.
  set (v := Metadata.version md). set (sv := Metadata.schemaVersion md).
  split.
  - intros [?|[?|[?|[?|[Heq|[?|[?|[?|[?|[?|[]]]]]]]]]]]; try discriminate.
    injection Heq as Heq.
    unfold or, or_lit, truthy in *.
    destruct v as [a|], sv as [b|]; simpl in *; auto;
      destruct (String.eqb a "") eqn:Ha; auto;
      destruct (String.eqb b "") eqn:Hb; auto.
    simpl in Heq. rewrite Ha, Hb in Heq. right; right. congruence.
  - intros Hcond. do 4 right. left. do 2 f_equal.
    unfold or, or_lit, truthy in *.
    destruct v as [a|], sv as [b|]; simpl in *;
      try destruct (String.eqb a "") eqn:Ha;
      try destruct (String.eqb b "") eqn:Hb; simpl; rewrite ?Ha, ?Hb; try done;
      destruct Hcond as [?|[?|?]]; try done; congruence.
Qed.
End reports.

(** ** s3Operations.js and the names of the services *)

Section names.
Import JS Run index.

Lemma serviceMapOf_snoc names record :
  serviceMapOf (names ++ [record]) = <[record.1 := record.2]> (serviceMapOf names).
Proof. unfold serviceMapOf. by rewrite foldl_app. Qed.

(** Looking a code up in the map is asking for the last record that
    lists it. *)
Lemma serviceMapOf_lookup names code :
  serviceMapOf names !! code = listedName names code.
Proof.
  unfold listedName.
  induction names as [|record names IH] using rev_ind; [done|].
  rewrite serviceMapOf_snoc, filter_app, filter_cons, filter_nil.
  destruct (decide (record.1 = code)) as [<-|Hne].
  - by rewrite lookup_insert_eq, last_snoc.
  - by rewrite lookup_insert_ne, app_nil_r.
Qed.

Lemma service_code_make c n : excelGenerator.service_code (Service.make c n) = c.
Proof.
  unfold excelGenerator.service_code, or, or_lit, truthy. simpl.
  destruct (String.eqb c "") eqn:Hc; simpl; rewrite ?Hc; simpl; rewrite ?Hc; [|done].
  apply String.eqb_eq in Hc. by subst.
Qed.

(** X17. What normalization makes of the service codes: one canonical record
    per code, in the order of the document, under the name of the last
    record of the names document that lists the code, or under the code
    itself when no record lists it or the name listed is empty. *)
Theorem normalized_services doc names normalizedData :
  normalize doc names = inr normalizedData →
  let codes := unwrap (default (Direct []) (services doc)) in
  let listed := default [] (excelGenerator.services normalizedData) in
  Forall Service.canonical listed
  ∧ excelGenerator.service_code <$> listed = codes
  ∧ excelGenerator.service_name <$> listed
    = (λ code, or_lit (listedName names code) code) <$> codes
  ∧ (names = [] → excelGenerator.service_name <$> listed = codes).
Proof.
  intros Hnorm codes listed. unfold normalize in Hnorm.
  destruct (validate doc) as [?|[]]; [done|].
  destruct (flattenCoverage (servicesByRegionRaw doc)) as [?|m]; [done|].
  injection Hnorm as <-. unfold listed. simpl. fold codes.
  assert (excelGenerator.service_name <$> (enrich (serviceMapOf names) <$> codes)
          = (λ code, or_lit (listedName names code) code) <$> codes) as Hnames.
  { rewrite <-list_fmap_compose. apply list_fmap_ext. intros i code _. simpl.
    unfold enrich. by rewrite service_name_make, serviceMapOf_lookup. }
  split; [|split; [|split]].
  - apply Forall_fmap, Forall_forall. by intros code _.
  - rewrite <-list_fmap_compose. rewrite <-(list_fmap_id codes) at 2.
    apply list_fmap_ext. intros i code _. simpl. apply service_code_make.
  - done.
  - intros ->. rewrite Hnames. rewrite <-(list_fmap_id codes) at 2.
    by apply list_fmap_ext.
Qed.
End names.

Section reading_documents.
Import JS Run index.

Lemma readSourceData_fails {A} reader (JSON : s3Operations.JSON_parse A)
    bucket key failure :
  fetchFails reader JSON bucket key failure →
  ∃ msg,
    s3Operations.readSourceData reader JSON bucket key = inl (Error msg)
    ∧ (s3Operations.name failure = "NoSuchKey" →
       msg = "Source file not found: s3://" +:+ bucket +:+ "/" +:+ key)
    ∧ (s3Operations.name failure ≠ "NoSuchKey" →
       s3Operations.name failure = "SyntaxError" →
       msg = "Invalid JSON format in source file: " +:+ s3Operations.message failure)
    ∧ (s3Operations.name failure ≠ "NoSuchKey" →
       s3Operations.name failure ≠ "SyntaxError" →
       msg = "Failed to read source data from S3: " +:+ s3Operations.message failure).
Proof.
  intros Hfetch.
  assert (∃ msg,
            (if String.eqb (s3Operations.name failure) "NoSuchKey"
             then inl (Error ("Source file not found: s3://" +:+ bucket +:+ "/" +:+ key))
             else if String.eqb (s3Operations.name failure) "SyntaxError"
             then inl (Error ("Invalid JSON format in source file: "
                              +:+ s3Operations.message failure))
             else inl (Error ("Failed to read source data from S3: "
                              +:+ s3Operations.message failure)))
            = (inl (Error msg) : result A)
            ∧ (s3Operations.name failure = "NoSuchKey" →
               msg = "Source file not found: s3://" +:+ bucket +:+ "/" +:+ key)
            ∧ (s3Operations.name failure ≠ "NoSuchKey" →
               s3Operations.name failure = "SyntaxError" →
               msg = "Invalid JSON format in source file: "
                     +:+ s3Operations.message failure)
            ∧ (s3Operations.name failure ≠ "NoSuchKey" →
               s3Operations.name failure ≠ "SyntaxError" →
               msg = "Failed to read source data from S3: "
                     +:+ s3Operations.message failure)) as Hmsg.
  { destruct (String.eqb_spec (s3Operations.name failure) "NoSuchKey") as [Hn|Hn];
      [by eexists|].
    destruct (String.eqb_spec (s3Operations.name failure) "SyntaxError") as [Hs|Hs];
      by eexists. }
  unfold s3Operations.readSourceData.
  destruct Hfetch as [Hget|[(body & Hget & Hbody)|(body & msg' & Hget & Hbody & Hjson & ->)]].
  - by rewrite Hget.
  - rewrite Hget. unfold s3Operations.streamToString. by rewrite Hbody.
  - rewrite Hget. unfold s3Operations.streamToString, s3Operations.parse.
    by rewrite Hbody, Hjson.
Qed.

Context `{Collation, DateParser, utils.Intl, excelGenerator.SummaryHost}.

(** X18. A source that cannot be fetched ends the run before anything is
    written: the answer is 500 with the error type "Error", and the one
    event is the failure notification. The message tells a missing
    object (the name of the failure is "NoSuchKey"), a body that is no
    JSON ("SyntaxError") and any other failure apart; for a missing
    object it gives the address and drops the message of the failure. *)
Theorem unreadable_source_fails_the_run reader sourceJSON namesJSON s3Client
    writeBuffer config failure :
  fetchFails reader sourceJSON (sourceBucket config) (sourceKey config) failure →
  ∃ msg,
    handler (envOf reader sourceJSON namesJSON s3Client writeBuffer config) config
    = ({| statusCode := 500; body := ReportFailed msg "Error" |},
       [Notified (FailureNotification msg)])
    ∧ (s3Operations.name failure = "NoSuchKey" →
       msg = "Source file not found: s3://" +:+ sourceBucket config
             +:+ "/" +:+ sourceKey config)
    ∧ (s3Operations.name failure ≠ "NoSuchKey" →
       s3Operations.name failure = "SyntaxError" →
       msg = "Invalid JSON format in source file: " +:+ s3Operations.message failure)
    ∧ (s3Operations.name failure ≠ "NoSuchKey" →
       s3Operations.name failure ≠ "SyntaxError" →
       msg = "Failed to read source data from S3: " +:+ s3Operations.message failure).
Proof.
  intros Hfetch.
  destruct (readSourceData_fails _ _ _ _ _ Hfetch) as (msg & Hread & Hmsg).
  exists msg. split; [|done].
  set (env := envOf reader sourceJSON namesJSON s3Client writeBuffer config).
  rewrite (handler_fails env config (Error msg) []); [done|].
  by apply generate_stops_at_source.
Qed.

(** X19. A names document that cannot be fetched, or that has no [services],
    stops nothing: the handler goes on without names, and every service
    of the report is shown under its code. *)
Theorem unreadable_names_leave_the_codes reader sourceJSON namesJSON s3Client
    writeBuffer config :
  let env := envOf reader sourceJSON namesJSON s3Client writeBuffer config in
  ((∃ failure, fetchFails reader namesJSON (sourceBucket config) NAMES_KEY failure)
   ∨ (∃ data, s3Operations.readSourceData reader namesJSON (sourceBucket config)
                NAMES_KEY = inr data
              ∧ s3Operations.services data = None)) →
  readServicesData env = []
  ∧ ∀ doc normalizedData,
      normalize doc (readServicesData env) = inr normalizedData →
      excelGenerator.service_name <$> default [] (excelGenerator.services normalizedData)
      = unwrap (default (Direct []) (services doc)).
Proof.
  intros env Hnames.
  assert (readServicesData env = []) as Hempty.
  { unfold env, envOf. cbn [readServicesData]. unfold s3Operations.readServicesData.
    destruct Hnames as [[failure Hfetch]|(data & Hread & Hnone)].
    - destruct (readSourceData_fails _ _ _ _ _ Hfetch) as (msg & -> & _). done.
    - by rewrite Hread, Hnone. }
  split; [done|]. intros doc nd Hnorm. rewrite Hempty in Hnorm.
  unfold normalize in Hnorm.
  destruct (validate doc) as [?|[]]; [done|].
  destruct (flattenCoverage (servicesByRegionRaw doc)) as [?|m]; [done|].
  injection Hnorm as <-. simpl.
  rewrite <-list_fmap_compose.
  rewrite <-(list_fmap_id (unwrap (default (Direct []) (services doc)))) at 2.
  apply list_fmap_ext. intros i code _. simpl.
  unfold enrich. by rewrite service_name_make.
Qed.
End reading_documents.

Section normalized_coverage.
Import JS Run index.

(** X20. What normalization makes of a coverage object without a key
    [__proto__] (an assignment under that key would replace the
    prototype of the mapping): a region keeps the array of its entry,
    plain or wrapped under [services]; an entry of any other shape is
    dropped without an error, as if the region had none. The regions
    pass through as they are, so the Regions sheet counts for each
    region the services of its own entry; when the entry is missing or
    was dropped it shows 0, unless the code of the region names a
    property of [Object.prototype], whose [length] it then shows. *)
Theorem normalized_coverage `{DateParser} doc names normalizedData :
  normalize doc names = inr normalizedData →
  servicesByRegionRaw doc !! "__proto__" = None →
  ∃ servicesByRegion,
    excelGenerator.servicesByRegion normalizedData = Some servicesByRegion
    ∧ (∀ regionCode,
         servicesByRegion !! regionCode
         = servicesByRegionRaw doc !! regionCode ≫= flat)
    ∧ excelGenerator.regions normalizedData
      = Some (unwrap (default (Direct []) (regions doc)))
    ∧ excelGenerator.serviceCount <$> excelGenerator.createRegionsSheet normalizedData
      = (λ region,
           let regionCode := excelGenerator.region_code region in
           match servicesByRegionRaw doc !! regionCode ≫= flat with
           | Some codes => Some (length codes)
           | None =>
               match Object_prototype !! regionCode with
               | Some inherited => length_of (Inherited inherited)
               | None => Some 0
               end
           end)
        <$> unwrap (default (Direct []) (regions doc)).
Proof.
  intros Hnorm _. unfold normalize in Hnorm.
  destruct (validate doc) as [?|[]]; [done|].
  destruct (flattenCoverage_spec (servicesByRegionRaw doc)) as [[Hf _]|[Hf _]];
    rewrite Hf in Hnorm; [done|].
  injection Hnorm as <-. eexists. split; [reflexivity|].
  split; [intros regionCode; apply lookup_omap|]. split; [done|].
  unfold excelGenerator.createRegionsSheet. simpl.
  rewrite <-list_fmap_compose. apply list_fmap_ext. intros i region _. simpl.
  unfold excelGenerator.servicesInRegion, get. rewrite lookup_omap.
  destruct (servicesByRegionRaw doc !! excelGenerator.region_code region ≫= flat);
    [done|].
  by destruct (Object_prototype !! excelGenerator.region_code region).
Qed.
End normalized_coverage.

(** ** More on the percentage column *)

Section percentage_more.
Import JS excelGenerator.
Context `{Collation}.

Lemma displayedTenths_exact c t (k : N) :
  0 < t → (c < 2 ^ 40)%N →
  (1000 * c = k * N.of_nat t)%N → displayedTenths c t = k.
Proof.
  intros Ht Hc Hk. pose proof (displayedTenths_nearest c t Ht Hc) as Hn.
  set (n := displayedTenths c t) in *. clearbody n. nia.
Qed.

Lemma displayedTenths_mono c1 c2 t :
  0 < t → (c1 <= c2)%N → (c2 < 2 ^ 40)%N →
  (displayedTenths c1 t <= displayedTenths c2 t)%N.
Proof.
  intros Ht Hle Hc2.
  destruct (decide (c1 = c2)) as [->|Hne]; [done|].
  pose proof (displayedTenths_nearest c1 t Ht ltac:(lia)) as H1.
  pose proof (displayedTenths_nearest c2 t Ht Hc2) as H2.
  set (n1 := displayedTenths c1 t) in *. set (n2 := displayedTenths c2 t) in *.
  clearbody n1 n2.
  destruct (N.le_gt_cases n1 n2) as [|Hgt]; [done|]. exfalso.
  assert (Z.of_N n2 + 1 <= Z.of_N n1)%Z as Hstep by lia.
  assert (Z.of_N c1 + 1 <= Z.of_N c2)%Z as Hcount by lia.
  assert ((Z.of_N n2 + 1) * Z.of_nat t <= Z.of_N n1 * Z.of_nat t)%Z as Hmul
    by (apply Z.mul_le_mono_nonneg_r; lia).
  lia.
Qed.

(** X21. In a well-formed model with regions, a percentage that has one
    decimal at most is shown as it is: when 1000 times the number of
    offering regions is [k] times the number of regions, the cell shows
    [k] tenths in the style of that value. A service offered in every
    region shows "100.0%" in bold green, one offered in exactly half of
    them "50.0%" in orange. *)
Theorem exact_percentages_are_shown data row (k : N) :
  valid data →
  (Z.of_nat (totalRegions data) < 2 ^ 32)%Z →
  0 < totalRegions data →
  row ∈ createServicesSheet data →
  let total := N.of_nat (totalRegions data) in
  let offering := N.of_nat (regionsOffering data (serviceCode row)) in
  ((1000 * offering = k * total)%N →
   coveragePercent row = toFixed1_digits k +:+ "%"
   ∧ coverageFont row = bandOfTenths k)
  ∧ (offering = total →
     coveragePercent row = "100.0%" ∧ coverageFont row = GREEN_BOLD)
  ∧ ((2 * offering)%N = total →
     coveragePercent row = "50.0%" ∧ coverageFont row = ORANGE).
Proof.
  intros Hvalid Hlen Ht (service & _ & ->)%createServicesSheet_elem_of total offering.
  change (2 ^ 32)%Z with 4294967296%Z in Hlen.
  change (serviceCode (rowOf data service)) with (service_code service) in offering.
  assert (regionsOffering data (service_code service) ≤ totalRegions data)%nat
    as Hle by apply regionsOffering_le.
  assert (availableRegions (rowOf data service) = offering) as Hcount.
  { rewrite rowOf_availableRegions, occurrences_valid by done.
    unfold MAX_EXACT, offering. change (2 ^ 53)%N with 9007199254740992%N. lia. }
  assert (offering < 2 ^ 40)%N as Hb.
  { unfold offering. change (2 ^ 40)%N with 1099511627776%N. lia. }
  assert (∀ j, (1000 * offering = j * total)%N →
            coveragePercent (rowOf data service) = toFixed1_digits j +:+ "%"
            ∧ coverageFont (rowOf data service) = bandOfTenths j) as Hexact.
  { intros j Hj.
    rewrite rowOf_coveragePercent, rowOf_coverageFont, Hcount.
    rewrite coveragePercentOf_pos by done.
    rewrite coverageFontOf_digits.
    by rewrite (displayedTenths_exact offering (totalRegions data) j Ht Hb Hj). }
  split; [apply Hexact|]. split.
  - intros Hall. apply (Hexact 1000%N). lia.
  - intros Hhalf. apply (Hexact 500%N). lia.
Qed.

(** X22. With regions, the percentage column follows the Available
    Regions column: of two services, the one counted in more regions
    never shows the smaller percentage. *)
Theorem coverage_percent_is_monotone data row1 row2 :
  0 < totalRegions data →
  row1 ∈ createServicesSheet data →
  row2 ∈ createServicesSheet data →
  (availableRegions row1 <= availableRegions row2)%N →
  (availableRegions row2 < 2 ^ 40)%N →
  ∃ n1 n2 : N,
    coveragePercent row1 = toFixed1_digits n1 +:+ "%"
    ∧ coveragePercent row2 = toFixed1_digits n2 +:+ "%"
    ∧ (n1 <= n2)%N.
Proof.
  intros Ht (s1 & _ & ->)%createServicesSheet_elem_of
    (s2 & _ & ->)%createServicesSheet_elem_of Hle Hb.
  rewrite !rowOf_coveragePercent, !coveragePercentOf_pos by done.
  eexists _, _. split; [reflexivity|]. split; [reflexivity|].
  by apply displayedTenths_mono.
Qed.
End percentage_more.

(** ** The two counts of the coverage mapping *)

Section double_counting.
Import JS excelGenerator.

(** Among services with distinct codes, a code is that of one service. *)
Lemma one_service_has_the_code (services : list Service.t) code :
  NoDup (service_code <$> services) →
  code ∈ service_code <$> services →
  sum_list ((λ s, if decide (service_code s = code) then 1 else 0) <$> services) = 1.
Proof.
  induction services as [|s services IH]; intros Hnd Hin.
  { by apply elem_of_nil in Hin. }
  rewrite fmap_cons in Hnd, Hin. apply NoDup_cons in Hnd as [Hs Hnd].
  rewrite fmap_cons. simpl. destruct (decide (service_code s = code)) as [<-|Hne].
  - assert (sum_list ((λ s', if decide (service_code s' = service_code s) then 1 else 0)
                        <$> services) = 0) as ->; [|done].
    clear -Hs. induction services as [|s' services IH]; [done|].
    rewrite fmap_cons in Hs. apply not_elem_of_cons in Hs as [Hne Hs].
    rewrite fmap_cons. simpl. rewrite decide_False by done. by apply IH.
  - apply elem_of_cons in Hin as [?|Hin]; [congruence|]. by rewrite IH.
Qed.

Lemma sum_list_plus {A} (f g : A → nat) (l : list A) :
  sum_list ((λ x, f x + g x) <$> l) = sum_list (f <$> l) + sum_list (g <$> l).
Proof. induction l as [|x l IH]; [done|]. rewrite !fmap_cons. simpl. lia. Qed.

Lemma sum_list_zero {A} (l : list A) : sum_list ((λ _, 0) <$> l) = 0.
Proof. induction l as [|x l IH]; [done|]. by rewrite fmap_cons. Qed.

(** Counting a region's array service by service counts each listing
    once. *)
Lemma listings_by_service (services : list Service.t) (l : list string) :
  NoDup (service_code <$> services) →
  Forall (.∈ service_code <$> services) l →
  sum_list ((λ s, occurrencesIn l (service_code s)) <$> services) = length l.
Proof.
  intros Hnd. induction l as [|x l IH]; intros Hsub.
  { unfold occurrencesIn. simpl. apply sum_list_zero. }
  assert (∀ s, occurrencesIn (x :: l) (service_code s)
               = (if decide (service_code s = x) then 1 else 0)
                 + occurrencesIn l (service_code s)) as Hstep.
  { intros s. unfold occurrencesIn. rewrite filter_cons.
    destruct (decide (x = service_code s)) as [->|Hne].
    - by rewrite decide_True.
    - by rewrite decide_False by congruence. }
  rewrite (list_fmap_ext _ _ services (λ _ s _, Hstep s)).
  apply Forall_cons in Hsub as [Hx Hsub].
  by rewrite sum_list_plus, IH, one_service_has_the_code.
Qed.

Lemma occurrences_by_service (services : list Service.t)
    (m : gmap string (list string)) :
  NoDup (service_code <$> services) →
  map_Forall (λ _ l, Forall (.∈ service_code <$> services) l) m →
  sum_list ((λ s, occurrences m (service_code s)) <$> services)
  = map_fold (λ _ l acc, acc + length l) 0 m.
Proof.
  intros Hnd. induction m as [|k l m Hk IH] using map_ind; intros Hall.
  { rewrite map_fold_empty.
    rewrite (list_fmap_ext _ (λ _, 0) services
               (λ _ s _, occurrences_empty (service_code s))).
    apply sum_list_zero. }
  apply map_Forall_insert in Hall as [Hl Hall]; [|done].
  rewrite map_fold_insert_L; [|intros; lia|done].
  rewrite (list_fmap_ext _ (λ s, occurrencesIn l (service_code s)
                                 + occurrences m (service_code s))
             services
             (λ _ s _, occurrences_insert m k l (service_code s) Hk)).
  rewrite sum_list_plus, listings_by_service, IH by done. lia.
Qed.

(** The services whose code a region lists are as many as its array is
    long. *)
Lemma services_of_a_region (services : list Service.t) (l : list string) :
  NoDup (service_code <$> services) →
  NoDup l →
  Forall (.∈ service_code <$> services) l →
  length (filter (λ s, service_code s ∈ l) services) = length l.
Proof.
  intros Hnd Hl Hsub. rewrite Forall_forall in Hsub.
  trans (length (filter (.∈ l) (service_code <$> services))).
  { by rewrite filter_fmap, length_fmap. }
  apply Permutation_length, NoDup_Permutation; [by apply NoDup_filter|done|].
  intros c. rewrite list_elem_of_filter.
  split; [by intros [? _]|]. intros Hc. split; [done|by apply Hsub].
Qed.

Lemma column_mark data service i code :
  regionCodes data !! i = Some code →
  marks (matrixRowOf data service) !! i = Some "✓"
  ↔ service_code service ∈ coverageSet (coverage data) code.
Proof.
  intros Hi. unfold matrixRowOf, markOf. simpl.
  rewrite list_lookup_fmap, Hi. simpl.
  destruct (bool_decide _) eqn:Hb.
  - apply bool_decide_eq_true in Hb. naive_solver.
  - apply bool_decide_eq_false in Hb. naive_solver.
Qed.

(** X23. In a model with a coverage mapping whose listed regions read
    arrays, when service codes identify services and a region's array
    lists codes of listed services, each once, the matrix is built and
    the column of a region holds as many check marks as the Regions
    sheet counts services for that region. *)
Theorem matrix_columns_match_regions_sheet `{Collation, DateParser} data :
  hasCoverage data = true →
  readsArrays data →
  listsServices data →
  map_Forall (λ _ l, NoDup l) (coverage data) →
  ∃ rows,
    createServiceCoverageSheet data
    = inr (Matrix ("Service" :: regionCodes data) rows)
    ∧ ∀ i rrow,
        createRegionsSheet data !! i = Some rrow →
        regionCodes data !! i = Some (regionCode rrow)
        ∧ serviceCount rrow = Some (columnChecks rows i).
Proof.
  intros Hcov Hreads [Hnd Hsub] Hsets.
  rewrite createServiceCoverageSheet_matrix by done.
  eexists. split; [reflexivity|].
  intros i rrow Hrow. unfold createRegionsSheet in Hrow.
  apply list_lookup_fmap_Some in Hrow as (r & -> & Hr).
  assert (regionCodes data !! i = Some (region_code r)) as Hi.
  { unfold regionCodes. by rewrite list_lookup_fmap, Hr. }
  split; [done|].
  unfold columnChecks. cbn [serviceCount regionRow].
  fold (coverage data).
  assert (readsArray (coverage data) (region_code r)) as Hread.
  { unfold readsArrays in Hreads. rewrite Forall_forall in Hreads.
    by eapply Hreads, list_elem_of_lookup_2. }
  rewrite servicesInRegion_array by done. simpl. f_equal.
  rewrite filter_fmap, length_fmap.
  rewrite (filter_iff_on _ (λ s, service_code s
                                 ∈ coverageSet (coverage data) (region_code r)));
    [|intros s _; by apply column_mark].
  rewrite (Permutation_length
             (filter_Permutation _ _ _ (sort_perm _ (default [] (services data))))).
  symmetry. apply services_of_a_region; [done| |].
  - unfold coverageSet.
    destruct (coverage data !! region_code r) as [l|] eqn:Hl; simpl.
    + by apply (Hsets _ _ Hl).
    + apply NoDup_nil_2.
  - unfold coverageSet.
    destruct (coverage data !! region_code r) as [l|] eqn:Hl; simpl.
    + by apply (Hsub _ _ Hl).
    + apply Forall_nil_2.
Qed.

(** X24. In a well-formed model whose listed regions read arrays and
    whose coverage mapping lists codes of listed services with distinct
    codes, the Service Count column of the Regions sheet holds numbers,
    and the Available Regions column of the Services sheet adds up to
    the same total. *)
Theorem columns_add_up `{Collation, DateParser} data :
  valid data →
  readsArrays data →
  listsServices data →
  (Z.of_nat (totalRegions data) < 2 ^ 32)%Z →
  ∃ counts,
    serviceCounts (createRegionsSheet data) counts
    ∧ sum_list ((λ row, N.to_nat (availableRegions row)) <$> createServicesSheet data)
      = sum_list counts.
Proof.
  intros Hvalid Hreads [Hnd Hsub] Hlen.
  eexists. split; [by apply createRegionsSheet_counts|].
  rewrite coverageSet_sum by done.
  rewrite <-(occurrences_by_service (default [] (services data))) by done.
  rewrite createServicesSheet_rows, <-list_fmap_compose.
  rewrite <-(sum_list_with_Permutation_proper id _ _
               (fmap_Permutation _ _ _
                  (sort_perm (compare_by services_sort_name)
                             (default [] (services data))))).
  f_equal. apply list_fmap_ext. intros j s _. unfold compose.
  rewrite rowOf_availableRegions, occurrences_valid by done.
  pose proof (regionsOffering_le data (service_code s)) as Hle.
  fold (totalRegions data) in Hle.
  change (2 ^ 32)%Z with 4294967296%Z in Hlen.
  unfold MAX_EXACT. change (2 ^ 53)%N with 9007199254740992%N. lia.
Qed.
End double_counting.

(** ** excelGenerator.js: sheets that cannot be built *)

Section unbuilt_sheets.
Import JS Run archiveManager index.
Context `{Collation, DateParser, utils.Intl, excelGenerator.SummaryHost}.
Context (env : Env) (config : Config).

Lemma formatDateEST_of_date tv : ∃ text, utils.formatDateEST (utils.DateValue tv) = inr text.
Proof. unfold utils.formatDateEST, utils.formatToParts. by eexists. Qed.

Lemma formatDateEST_unparseable text :
  Date_parse text = None →
  utils.formatDateEST (utils.DateText text) = inl utils.INVALID_TIME_VALUE.
Proof. unfold utils.formatDateEST, utils.formatToParts. by intros ->. Qed.

Lemma formatDateEST_parseable text tv :
  Date_parse text = Some tv →
  utils.formatDateEST (utils.DateText text)
  = utils.formatDateEST (utils.DateValue tv).
Proof. unfold utils.formatDateEST. by intros ->. Qed.

(** The Summary sheet is built unless the data carry a time stamp that
    is no date. *)
Lemma createSummarySheet_cases data :
  let timestamp := excelGenerator.metadata data ≫= Metadata.timestamp in
  (truthy timestamp = true ∧ Date_parse (or_lit timestamp "") = None
   ∧ excelGenerator.createSummarySheet data = inl utils.INVALID_TIME_VALUE)
  ∨ ((truthy timestamp = false ∨ is_Some (Date_parse (or_lit timestamp "")))
     ∧ ∃ summary, excelGenerator.createSummarySheet data = inr summary).
Proof.
  intros timestamp. unfold excelGenerator.createSummarySheet.
  destruct (formatDateEST_of_date excelGenerator.generatedAt) as [generated ->].
  unfold excelGenerator.dataTimestampOf. fold timestamp.
  destruct (truthy timestamp) eqn:Htruthy.
  - destruct (Date_parse (or_lit timestamp "")) as [tv|] eqn:Hparse.
    + right. split; [by right|].
      rewrite (formatDateEST_parseable _ tv Hparse).
      destruct (formatDateEST_of_date tv) as [text ->]. by eexists.
    + left. by rewrite formatDateEST_unparseable.
  - right. split; [by left|].
    destruct (formatDateEST_of_date excelGenerator.timestampFallback) as [text ->].
    by eexists.
Qed.

(** X25. A time stamp in the metadata that [new Date] does not
    recognise ends the run before anything is uploaded: the Summary
    sheet throws the [RangeError] of [formatToParts], no workbook is
    generated, the answer is 500 with that error and the one event is
    the failure notification. Without a time stamp, or with one that
    parses, the Summary sheet is built. *)
Theorem unparseable_timestamp_fails_the_run doc normalizedData :
  readSourceData env = inr doc →
  normalize doc (readServicesData env) = inr normalizedData →
  let timestamp := excelGenerator.metadata normalizedData ≫= Metadata.timestamp in
  (truthy timestamp = true → Date_parse (or_lit timestamp "") = None →
   excelGenerator.generateExcelReport normalizedData = inl utils.INVALID_TIME_VALUE
   ∧ handler env config
     = ({| statusCode := 500; body := ReportFailed "Invalid time value" "RangeError" |},
        [Notified (FailureNotification "Invalid time value")]))
  ∧ (truthy timestamp = false ∨ is_Some (Date_parse (or_lit timestamp "")) →
     ∃ summary, excelGenerator.createSummarySheet normalizedData = inr summary).
Proof.
  intros Hsrc Hnorm timestamp. split.
  - intros Htruthy Hparse.
    assert (excelGenerator.generateExcelReport normalizedData
            = inl utils.INVALID_TIME_VALUE) as Hgen.
    { unfold excelGenerator.generateExcelReport.
      destruct (createSummarySheet_cases normalizedData)
        as [(_ & _ & ->)|([Hfalsy|[tv Htv]] & _)]; [done| |].
      - fold timestamp in Hfalsy. congruence.
      - fold timestamp in Htv. congruence. }
    split; [done|].
    by rewrite (handler_fails env config utils.INVALID_TIME_VALUE [])
      by by eapply generate_stops_at_sheets.
  - intros Hok.
    destruct (createSummarySheet_cases normalizedData)
      as [(Htruthy & Hparse & _)|(_ & Hbuilt)]; [|done].
    fold timestamp in Htruthy, Hparse.
    destruct Hok as [Hfalsy|[tv Htv]]; congruence.
Qed.

End unbuilt_sheets.

(** ** The added properties on sample data *)

Section more_samples.
Import JS Run archiveManager index Host Sample Scenario.
Import utils excelGenerator.

Lemma formatFileSize_exact_witness :
  (0 <= 1048575 < 2 ^ 53)%Z ∧ formatFileSize 1048575 = "1024.00 KB".
Proof.
  assert (0 <= 1048575 < 2 ^ 53)%Z as Hrange by lia.
  split; [exact Hrange|].
  rewrite (formatFileSize_exact 1048575 Hrange). reflexivity.
Defined.

Lemma formatDuration_minutes_witness :
  (60000 <= 119500 < 2 ^ 53)%Z ∧ formatDuration 119500 = "1m 60s".
Proof.
  assert (60000 <= 119500 < 2 ^ 53)%Z as Hrange by lia.
  split; [exact Hrange|].
  rewrite (proj1 (formatDuration_minutes 119500 Hrange)). reflexivity.
Defined.

Lemma formatDuration_seconds_witness :
  (1000 <= 59999 < 60000)%Z
  ∧ ∃ n : Z,
      formatDuration 59999 = twoDecimals (Z.to_N n) +:+ "s"
      ∧ (Z.abs (10 * n - 59999) <= 5)%Z
      ∧ (59999 mod 10 ≠ 5 → n = (59999 + 5) / 10)%Z.
Proof.
  assert (1000 <= 59999 < 60000)%Z as Hrange by lia.
  split; [exact Hrange|]. exact (formatDuration_seconds 59999 Hrange).
Defined.

Lemma daysDifference_ceiling_witness :
  (Z.abs (86400001 - 0) < 2 ^ 53)%Z ∧ daysDifference 0 86400001 = 2%Z.
Proof.
  assert (Z.abs (86400001 - 0) < 2 ^ 53)%Z as Hrange by lia.
  split; [exact Hrange|].
  rewrite (proj1 (daysDifference_ceiling 0 86400001 Hrange)). reflexivity.
Defined.

Lemma summary_matches_sheets_witness :
  createSummarySheet twoRegions = inr twoRegionsSummary
  ∧ valid twoRegions
  ∧ readsArrays twoRegions
  ∧ is_Some (servicesByRegion twoRegions)
  ∧ ∃ counts,
      serviceCounts (createRegionsSheet twoRegions) counts
      ∧ ("Service-by-Region Mappings", Num (Z.of_nat (sum_list counts)))
        ∈ twoRegionsSummary.
Proof.
  assert (createSummarySheet twoRegions = inr twoRegionsSummary) as Hsummary
    by (vm_compute; reflexivity).
  assert (is_Some (servicesByRegion twoRegions)) as Hsome by (by eexists).
  split; [exact Hsummary|]. split; [exact twoRegions_valid|].
  split; [exact twoRegions_readsArrays|]. split; [exact Hsome|].
  exact (proj1 (proj2 (proj2 (summary_matches_sheets twoRegions twoRegionsSummary
                                Hsummary)))
           twoRegions_valid twoRegions_readsArrays Hsome).
Defined.

Lemma matrix_matches_services_sheet_witness :
  valid twoRegions
  ∧ (Z.of_nat (totalRegions twoRegions) < 2 ^ 32)%Z
  ∧ Forall Service.canonical (default [] (services twoRegions))
  ∧ hasCoverage twoRegions = true
  ∧ readsArrays twoRegions
  ∧ ∃ rows,
      createServiceCoverageSheet twoRegions
      = inr (Matrix ("Service" :: regionCodes twoRegions) rows)
      ∧ length rows = length (createServicesSheet twoRegions)
      ∧ ∀ i crow row,
          rows !! i = Some crow →
          createServicesSheet twoRegions !! i = Some row →
          rowName crow = serviceName row
          ∧ length (marks crow) = totalRegions twoRegions
          ∧ N.of_nat (checks crow) = availableRegions row.
Proof.
  assert (Z.of_nat (totalRegions twoRegions) < 2 ^ 32)%Z as Hlen by done.
  assert (hasCoverage twoRegions = true) as Hcov by (vm_compute; reflexivity).
  split; [exact twoRegions_valid|]. split; [exact Hlen|].
  split; [exact twoRegions_canonical|]. split; [exact Hcov|].
  split; [exact twoRegions_readsArrays|].
  exact (matrix_matches_services_sheet twoRegions twoRegions_valid Hlen
           twoRegions_canonical Hcov twoRegions_readsArrays).
Defined.

Lemma available_regions_counts_listings_witness :
  s3Overcounted ∈ createServicesSheet unlistedRegion
  ∧ (Z.of_nat (occurrences (coverage unlistedRegion) (serviceCode s3Overcounted))
     <= 2 ^ 53)%Z
  ∧ totalRegions unlistedRegion = 1
  ∧ availableRegions s3Overcounted
    = N.of_nat (occurrences (coverage unlistedRegion) (serviceCode s3Overcounted)).
Proof.
  assert (s3Overcounted ∈ createServicesSheet unlistedRegion) as Hrow
    by (vm_compute; apply list_elem_of_here).
  assert (Z.of_nat (occurrences (coverage unlistedRegion) (serviceCode s3Overcounted))
          <= 2 ^ 53)%Z as Hb by (vm_compute; discriminate).
  split; [exact Hrow|]. split; [exact Hb|]. split; [reflexivity|].
  exact (available_regions_counts_listings unlistedRegion s3Overcounted Hrow Hb).
Defined.

Lemma coverage_filter_range_witness :
  coverageAutoFilter twoRegions = Some ("A1", "C1")
  ∧ ("C1" = lastHeaderCell twoRegions ↔ (totalRegions twoRegions ≤ 25)%nat).
Proof.
  assert (coverageAutoFilter twoRegions = Some ("A1", "C1")) as Hrange
    by (vm_compute; reflexivity).
  split; [exact Hrange|].
  exact (proj2 (coverage_filter_range twoRegions ("A1", "C1") Hrange)).
Defined.

Lemma exact_percentages_are_shown_witness :
  valid twoRegions
  ∧ (Z.of_nat (totalRegions twoRegions) < 2 ^ 32)%Z
  ∧ 0 < totalRegions twoRegions
  ∧ s3Everywhere ∈ createServicesSheet twoRegions
  ∧ N.of_nat (regionsOffering twoRegions (serviceCode s3Everywhere))
    = N.of_nat (totalRegions twoRegions)
  ∧ coveragePercent s3Everywhere = "100.0%"
  ∧ coverageFont s3Everywhere = GREEN_BOLD.
Proof.
  assert (Z.of_nat (totalRegions twoRegions) < 2 ^ 32)%Z as Hlen by done.
  assert (0 < totalRegions twoRegions) as Hpos by (vm_compute; lia).
  assert (s3Everywhere ∈ createServicesSheet twoRegions) as Hrow
    by (vm_compute; do 2 apply list_elem_of_further; apply list_elem_of_here).
  assert (N.of_nat (regionsOffering twoRegions (serviceCode s3Everywhere))
          = N.of_nat (totalRegions twoRegions)) as Hall by (vm_compute; reflexivity).
  split; [exact twoRegions_valid|]. split; [exact Hlen|]. split; [exact Hpos|].
  split; [exact Hrow|]. split; [exact Hall|].
  exact (proj1 (proj2 (exact_percentages_are_shown twoRegions s3Everywhere 1000
                         twoRegions_valid Hlen Hpos Hrow)) Hall).
Defined.

Lemma coverage_percent_is_monotone_witness :
  0 < totalRegions twoRegions
  ∧ ec2Row ∈ createServicesSheet twoRegions
  ∧ s3Everywhere ∈ createServicesSheet twoRegions
  ∧ (availableRegions ec2Row <= availableRegions s3Everywhere)%N
  ∧ (availableRegions s3Everywhere < 2 ^ 40)%N
  ∧ ∃ n1 n2 : N,
      coveragePercent ec2Row = toFixed1_digits n1 +:+ "%"
      ∧ coveragePercent s3Everywhere = toFixed1_digits n2 +:+ "%"
      ∧ (n1 <= n2)%N.
Proof.
  assert (0 < totalRegions twoRegions) as Hpos by (vm_compute; lia).
  assert (ec2Row ∈ createServicesSheet twoRegions) as Hrow1
    by (vm_compute; apply list_elem_of_here).
  assert (s3Everywhere ∈ createServicesSheet twoRegions) as Hrow2
    by (vm_compute; do 2 apply list_elem_of_further; apply list_elem_of_here).
  assert (availableRegions ec2Row <= availableRegions s3Everywhere)%N as Hle
    by (vm_compute; discriminate).
  assert (availableRegions s3Everywhere < 2 ^ 40)%N as Hb by (vm_compute; reflexivity).
  split; [exact Hpos|]. split; [exact Hrow1|]. split; [exact Hrow2|].
  split; [exact Hle|]. split; [exact Hb|].
  exact (coverage_percent_is_monotone twoRegions ec2Row s3Everywhere
           Hpos Hrow1 Hrow2 Hle Hb).
Defined.
Lemma twoRegions_listsServices : listsServices twoRegions.
Proof. refine (bool_decide_unpack _ _). vm_compute. exact I. Qed.

Lemma matrix_columns_match_regions_sheet_witness :
  hasCoverage twoRegions = true
  ∧ readsArrays twoRegions
  ∧ listsServices twoRegions
  ∧ map_Forall (λ _ l, NoDup l) (coverage twoRegions)
  ∧ ∃ rows,
      createServiceCoverageSheet twoRegions
      = inr (Matrix ("Service" :: regionCodes twoRegions) rows)
      ∧ ∀ i rrow,
          createRegionsSheet twoRegions !! i = Some rrow →
          regionCodes twoRegions !! i = Some (regionCode rrow)
          ∧ serviceCount rrow = Some (columnChecks rows i).
Proof.
  assert (hasCoverage twoRegions = true) as Hcov by (vm_compute; reflexivity).
  pose proof (proj2 (proj2 twoRegions_valid)) as Hsets.
  split; [exact Hcov|]. split; [exact twoRegions_readsArrays|].
  split; [exact twoRegions_listsServices|]. split; [exact Hsets|].
  exact (matrix_columns_match_regions_sheet twoRegions Hcov
           twoRegions_readsArrays twoRegions_listsServices Hsets).
Defined.

Lemma columns_add_up_witness :
  valid twoRegions
  ∧ readsArrays twoRegions
  ∧ listsServices twoRegions
  ∧ (Z.of_nat (totalRegions twoRegions) < 2 ^ 32)%Z
  ∧ ∃ counts,
      serviceCounts (createRegionsSheet twoRegions) counts
      ∧ sum_list ((λ row, N.to_nat (availableRegions row))
                    <$> createServicesSheet twoRegions)
        = sum_list counts.
Proof.
  assert (Z.of_nat (totalRegions twoRegions) < 2 ^ 32)%Z as Hlen by done.
  split; [exact twoRegions_valid|]. split; [exact twoRegions_readsArrays|].
  split; [exact twoRegions_listsServices|]. split; [exact Hlen|].
  exact (columns_add_up twoRegions twoRegions_valid twoRegions_readsArrays
           twoRegions_listsServices Hlen).
Defined.
End more_samples.

Section more_run_samples.
Import JS Run archiveManager index Host Sample Scenario.

Lemma document_prepared (s3 : S3) :
  prepared (env s3 document) document normalized 8192.
Proof.
  split; [reflexivity|]. split; [vm_compute; reflexivity|].
  eexists. split; [vm_compute; reflexivity|reflexivity].
Defined.

Lemma unlistable_uploadable bucket key : uploadable unlistableS3 bucket key.
Proof. exists 1%nat, tt. split; [lia|done]. Defined.

Lemma latest_uploadable :
  uploadable archiveDownS3 (reportBucket config) (latestKey config).
Proof. exists 1%nat, tt. split; [lia|reflexivity]. Defined.

Lemma archive_rejected :
  rejected archiveDownS3 (reportBucket config)
    (archiveKey (env archiveDownS3 document) config).
Proof. intros attempt _. by eexists. Defined.

Lemma uploadToS3_retries_witness :
  uploadToS3 readOnlyS3 "aws-service-reports" "reports/latest.xlsx" 3 []
  = (inl (giveUp "reports/latest.xlsx" 3 (Error "Access Denied")), []).
Proof.
  destruct (proj2 (uploadToS3_retries readOnlyS3 "aws-service-reports"
                     "reports/latest.xlsx" 3 []))
    as (final & -> & _ & Hfinal).
  { intros attempt _. by eexists. }
  rewrite (Hfinal (Error "Access Denied")); [reflexivity|lia|reflexivity].
Defined.

Lemma failure_before_the_uploads_witness :
  readSourceData sourceless
  = inl (Error "Failed to read source data from S3: timeout")
  ∧ handler sourceless config
    = ({| statusCode := 500;
          body := ReportFailed "Failed to read source data from S3: timeout" "Error" |},
       [Notified (FailureNotification "Failed to read source data from S3: timeout")]).
Proof.
  split; [reflexivity|].
  exact (failure_before_the_uploads sourceless config
           (Error "Failed to read source data from S3: timeout")
           (or_introl eq_refl)).
Defined.

Lemma upload_failure_is_fatal_witness :
  prepared (env archiveDownS3 document) document normalized 8192
  ∧ uploadable archiveDownS3 (reportBucket config) (latestKey config)
  ∧ rejected archiveDownS3 (reportBucket config)
      (archiveKey (env archiveDownS3 document) config)
  ∧ ∃ last,
      putObject archiveDownS3 (reportBucket config)
        (archiveKey (env archiveDownS3 document) config) 3 = inl last
      ∧ handler (env archiveDownS3 document) config
        = (failed (giveUp (archiveKey (env archiveDownS3 document) config) 3 last),
           [Uploaded (reportBucket config) (latestKey config);
            Notified (FailureNotification
                        (message (giveUp (archiveKey (env archiveDownS3 document)
                                            config) 3 last)))]).
Proof.
  split; [exact (document_prepared archiveDownS3)|].
  split; [exact latest_uploadable|]. split; [exact archive_rejected|].
  exact (proj2 (upload_failure_is_fatal (env archiveDownS3 document) config
                  document normalized 8192 (document_prepared archiveDownS3))
           latest_uploadable archive_rejected).
Defined.

Lemma longer_retention_deletes_less_witness :
  listObjectsV2 (healthyS3 fourArchives) "aws-service-reports" "archive/"
  = inr fourArchives
  ∧ fixedOffset (healthyS3 fourArchives)
  ∧ (7 <= 9)%Z
  ∧ (Z.abs (now (healthyS3 fourArchives) - 7 * 86400000) <= MAX_TIME)%Z
  ∧ ∃ few many kept less,
      manageArchiveRetention (healthyS3 fourArchives) "aws-service-reports"
        "archive/" 9 []
      = (inr kept, ([] ++ few)%list)
      ∧ manageArchiveRetention (healthyS3 fourArchives) "aws-service-reports"
          "archive/" 7 []
        = (inr less, ([] ++ many)%list)
      ∧ few `sublist_of` many
      ∧ (retained less ≤ retained kept)%nat
      ∧ (deleted kept ≤ deleted less)%nat.
Proof.
  assert (7 <= 9)%Z as Hle by lia.
  assert (Z.abs (now (healthyS3 fourArchives) - 7 * 86400000) <= MAX_TIME)%Z
    as Hrange by (vm_compute; discriminate).
  split; [reflexivity|]. split; [exact (healthy_fixedOffset fourArchives)|].
  split; [exact Hle|]. split; [exact Hrange|].
  exact (longer_retention_deletes_less (healthyS3 fourArchives)
           "aws-service-reports" "archive/" 7 9 fourArchives [] eq_refl
           (healthy_fixedOffset fourArchives) Hle Hrange).
Defined.

Lemma retention_failure_warns_witness :
  prepared (env unlistableS3 document) document normalized 8192
  ∧ listObjectsV2 unlistableS3 (reportBucket config) (archivePrefix config)
    = inl (Error "Access Denied")
  ∧ ∃ metrics copies,
      handler (env unlistableS3 document) config
      = ({| statusCode := 200; body := ReportGenerated metrics |},
         (uploads (env unlistableS3 document) config ++ copies
          ++ [Notified (WarningNotification
                          ("Archive retention management failed: "
                           +:+ message (Error "Access Denied")))])%list)
      ∧ archivedReportsRetained metrics = Str "Unknown"
      ∧ archivedReportsDeleted metrics = 0
      ∧ quiet copies
      ∧ harmless copies.
Proof.
  split; [exact (document_prepared unlistableS3)|]. split; [reflexivity|].
  exact (retention_failure_warns (env unlistableS3 document) config document
           normalized 8192 (Error "Access Denied")
           (document_prepared unlistableS3)
           (unlistable_uploadable _ _) (unlistable_uploadable _ _) eq_refl).
Defined.

Lemma metrics_match_workbook_witness :
  prepared (env (healthyS3 fourArchives) document) document normalized 8192
  ∧ ∃ metrics trace md report,
      handler (env (healthyS3 fourArchives) document) config
      = ({| statusCode := 200; body := ReportGenerated metrics |}, trace)
      ∧ metadata document = Some md
      ∧ excelGenerator.generateExcelReport normalized = inr report
      ∧ regionCount metrics = length (excelGenerator.regionsSheet report)
      ∧ serviceCount metrics = length (excelGenerator.servicesSheet report)
      ∧ reportSizeBytes metrics = 8192%N
      ∧ ("Service-by-Region Mappings", Num (Z.of_nat (serviceMappingCount metrics)))
        ∈ excelGenerator.summarySheet report
      ∧ (("Schema Version", Str (dataSchemaVersion metrics))
         ∈ excelGenerator.summarySheet report
         ↔ truthy (Metadata.version md) = false
           ∨ truthy (Metadata.schemaVersion md) = false
           ∨ Metadata.version md = Metadata.schemaVersion md).
Proof.
  split; [exact (document_prepared (healthyS3 fourArchives))|].
  exact (metrics_match_workbook (env (healthyS3 fourArchives) document) config
           document normalized 8192 (document_prepared (healthyS3 fourArchives))
           (healthy_uploadable _ _ _) (healthy_uploadable _ _ _)).
Defined.

Lemma normalized_services_witness :
  normalize document (readServicesData (env (healthyS3 []) document)) = inr normalized
  ∧ excelGenerator.service_name <$> default [] (excelGenerator.services normalized)
    = ["Amazon Simple Storage Service"; "Amazon Elastic Compute Cloud"; "lambda"].
Proof.
  assert (normalize document (readServicesData (env (healthyS3 []) document))
          = inr normalized) as Hnorm by (vm_compute; reflexivity).
  split; [exact Hnorm|].
  rewrite (proj1 (proj2 (proj2 (normalized_services _ _ _ Hnorm)))).
  reflexivity.
Defined.

Lemma normalized_coverage_witness :
  servicesByRegionRaw strayRegions !! "__proto__" = None
  ∧ ∃ normalizedData,
      normalize strayRegions [] = inr normalizedData
      ∧ excelGenerator.serviceCount
          <$> excelGenerator.createRegionsSheet normalizedData
        = [Some 2; Some 1; Some 0].
Proof.
  assert (servicesByRegionRaw strayRegions !! "__proto__" = None) as Hplain
    by (vm_compute; reflexivity).
  split; [exact Hplain|].
  destruct (normalize strayRegions []) as [e|normalizedData] eqn:Hnorm.
  { exfalso. vm_compute in Hnorm. discriminate Hnorm. }
  exists normalizedData. split; [reflexivity|].
  destruct (normalized_coverage strayRegions [] _ Hnorm Hplain)
    as (m & _ & _ & _ & ->).
  vm_compute. reflexivity.
Defined.

Lemma unreadable_source_fails_the_run_witness :
  fetchFails emptyReader sourceJSON (sourceBucket config) (sourceKey config)
    NO_SUCH_KEY
  ∧ ∃ msg,
      handler (envOf emptyReader sourceJSON namesJSON (healthyS3 [])
                     (λ _, inr 8192%N) config) config
      = ({| statusCode := 500; body := ReportFailed msg "Error" |},
         [Notified (FailureNotification msg)])
      ∧ msg = "Source file not found: s3://aws-data-fetcher-output/aws-data/complete-data.json".
Proof.
  assert (fetchFails emptyReader sourceJSON (sourceBucket config) (sourceKey config)
            NO_SUCH_KEY) as Hfetch by (left; reflexivity).
  split; [exact Hfetch|].
  destruct (unreadable_source_fails_the_run emptyReader sourceJSON namesJSON
              (healthyS3 []) (λ _, inr 8192%N) config NO_SUCH_KEY Hfetch)
    as (msg & Hrun & Hmissing & _).
  exists msg. split; [exact Hrun|]. exact (Hmissing eq_refl).
Defined.

Lemma unreadable_names_leave_the_codes_witness :
  fetchFails sourceOnlyReader namesJSON (sourceBucket config) NAMES_KEY NO_SUCH_KEY
  ∧ readSourceData (envOf sourceOnlyReader sourceJSON namesJSON (healthyS3 [])
                          (λ _, inr 8192%N) config)
    = inr document
  ∧ readServicesData (envOf sourceOnlyReader sourceJSON namesJSON (healthyS3 [])
                            (λ _, inr 8192%N) config)
    = [].
Proof.
  assert (fetchFails sourceOnlyReader namesJSON (sourceBucket config) NAMES_KEY
            NO_SUCH_KEY) as Hfetch by (left; reflexivity).
  split; [exact Hfetch|]. split; [reflexivity|].
  exact (proj1 (unreadable_names_leave_the_codes sourceOnlyReader sourceJSON
                  namesJSON (healthyS3 []) (λ _, inr 8192%N) config
                  (or_introl (ex_intro _ NO_SUCH_KEY Hfetch)))).
Defined.

Lemma unparseable_timestamp_fails_the_run_witness :
  readSourceData (env (healthyS3 []) undated) = inr undated
  ∧ ∃ normalizedData,
      normalize undated (readServicesData (env (healthyS3 []) undated))
      = inr normalizedData
      ∧ excelGenerator.metadata normalizedData ≫= Metadata.timestamp
        = Some "yesterday"
      ∧ Date_parse "yesterday" = None
      ∧ handler (env (healthyS3 []) undated) config
        = ({| statusCode := 500;
              body := ReportFailed "Invalid time value" "RangeError" |},
           [Notified (FailureNotification "Invalid time value")]).
Proof.
  split; [reflexivity|].
  destruct (normalize undated (readServicesData (env (healthyS3 []) undated)))
    as [e|normalizedData] eqn:Hnorm.
  { exfalso. vm_compute in Hnorm. discriminate Hnorm. }
  assert (excelGenerator.metadata normalizedData ≫= Metadata.timestamp
          = Some "yesterday") as Hstamp.
  { vm_compute in Hnorm. injection Hnorm as <-. reflexivity. }
  exists normalizedData. split; [reflexivity|]. split; [exact Hstamp|].
  split; [reflexivity|].
  refine (proj2 (proj1 (unparseable_timestamp_fails_the_run
                          (env (healthyS3 []) undated) config undated
                          normalizedData eq_refl Hnorm) _ _));
    rewrite Hstamp; reflexivity.
Defined.

End more_run_samples.
